(** * affine-cli: a shallow embedding of the client core

    The development follows the layout of the sources: the JavaScript
    values and string primitives the code relies on ([Js]), credential
    redaction ([Credentials], src/credentials.ts), the HTTP engine
    ([Http], src/http.ts), the JSON-RPC tool client ([Mcp], src/mcp.ts),
    the keyword search resolver ([Search], src/search.ts), the realtime
    document layer ([Yjs], src/yjs.ts), the GraphQL client ([Graphql],
    src/graphql.ts), the identity probe ([Auth], src/auth.ts), the
    configuration loader ([Config], src/config.ts) and the table and
    hint formatting ([Format], src/format.ts, src/errors.ts).

    Strings are sequences of code units ([string]); numbers that the code
    handles are integers and are kept in [Z]. *)

From Stdlib Require Import String Ascii List ZArith Lia Bool DecimalString.
Import ListNotations.

Local Open Scope string_scope.
Local Open Scope Z_scope.
Set Warnings "-register-all".

(* ================================================================== *)
(** * JavaScript values and primitives *)
(* ================================================================== *)

Module Js.

(** Plain data as it crosses the wire: the image of [JSON.parse] plus
    [undefined].  An object is its list of own properties in insertion
    order. *)
Inductive jsval : Type :=
| JUndefined
| JNull
| JBool (b : bool)
| JNum (n : Z)
| JStr (s : string)
| JArr (items : list jsval)
| JObj (props : list (string * jsval)).

(** The [typeof] operator, as far as the code compares its result. *)
Inductive jstype := TUndefined | TObject | TBoolean | TNumber | TString.

Definition typeof (v : jsval) : jstype :=
  match v with
  | JUndefined => TUndefined
  | JNull => TObject
  | JBool _ => TBoolean
  | JNum _ => TNumber
  | JStr _ => TString
  | JArr _ => TObject
  | JObj _ => TObject
  end.

Definition is_object_type (v : jsval) : bool :=
  match typeof v with TObject => true | _ => false end.

Definition is_string (v : jsval) : bool :=
  match v with JStr _ => true | _ => false end.

(** ToBoolean. *)
Definition truthy (v : jsval) : bool :=
  match v with
  | JUndefined | JNull => false
  | JBool b => b
  | JNum n => negb (n =? 0)
  | JStr s => negb (String.eqb s "")
  | JArr _ | JObj _ => true
  end.

(** [v == null]. *)
Definition is_nullish (v : jsval) : bool :=
  match v with JUndefined | JNull => true | _ => false end.

Fixpoint assoc (k : string) (m : list (string * jsval)) : option jsval :=
  match m with
  | [] => None
  | (k', v) :: rest => if String.eqb k k' then Some v else assoc k rest
  end.

(** Property read [v.k] on plain data, for the keys the code reads (none
    of them is [length] or an index); reading a property of a primitive
    or of an array gives [undefined]. *)
Definition get_prop (v : jsval) (k : string) : jsval :=
  match v with
  | JObj m => match assoc k m with Some x => x | None => JUndefined end
  | _ => JUndefined
  end.

(** [k in v] for an object or array [v]. *)
Definition has_prop (v : jsval) (k : string) : bool :=
  match v with
  | JObj m => match assoc k m with Some _ => true | None => false end
  | _ => false
  end.

Definition string_of_Z (n : Z) : string :=
  NilZero.string_of_int (Z.to_int n).

Fixpoint join (sep : string) (l : list string) : string :=
  match l with
  | [] => ""
  | [x] => x
  | x :: rest => x ++ sep ++ join sep rest
  end.

(** The [String(v)] conversion. *)
Fixpoint to_String (v : jsval) : string :=
  match v with
  | JUndefined => "undefined"
  | JNull => "null"
  | JBool true => "true"
  | JBool false => "false"
  | JNum n => string_of_Z n
  | JStr s => s
  | JArr items =>
      join "," (map (fun x => if is_nullish x then "" else to_String x) items)
  | JObj _ => "[object Object]"
  end.

Definition len (s : string) : Z := Z.of_nat (String.length s).

(** [s.slice(start, end)]; [None] for an omitted [end]. *)
Definition slice (s : string) (start : Z) (end_ : option Z) : string :=
  let l := len s in
  let clamp i := if i <? 0 then Z.max (l + i) 0 else Z.min i l in
  let from := clamp start in
  let to := match end_ with None => l | Some e => clamp e end in
  substring (Z.to_nat from) (Z.to_nat (Z.max (to - from) 0)) s.

(** [s.repeat(n)] for a count that is not negative. *)
Fixpoint repeat (s : string) (n : nat) : string :=
  match n with
  | O => ""
  | S k => s ++ repeat s k
  end.

Definition startsWith (s p : string) : bool := String.prefix p s.

(** [s.indexOf(q)]: the first position at which [q] occurs. *)
Definition indexOf (s q : string) : option nat :=
  match q with
  | "" => Some 0%nat
  | _ => String.index 0 q s
  end.

Definition includes (s q : string) : bool :=
  match indexOf s q with Some _ => true | None => false end.

(** [s.toLowerCase()] on code units below 256: the letters A-Z and the
    Latin-1 capitals U+00C0..U+00DE other than U+00D7 move up by 32. *)
Definition lower_unit (c : ascii) : ascii :=
  let n := N_of_ascii c in
  if ((65 <=? n) && (n <=? 90))%N then ascii_of_N (n + 32)
  else if ((192 <=? n) && (n <=? 222) && negb (n =? 215))%N then ascii_of_N (n + 32)
  else c.

Fixpoint toLowerCase (s : string) : string :=
  match s with
  | EmptyString => EmptyString
  | String c rest => String (lower_unit c) (toLowerCase rest)
  end.

Definition rev_string (l : list ascii) : string :=
  string_of_list_ascii (rev l).

(** White space and line terminators below 256, as [trim] removes them. *)
Definition is_space (c : ascii) : bool :=
  let n := nat_of_ascii c in
  ((9 <=? n) && (n <=? 13) || (n =? 32) || (n =? 160))%nat.

Fixpoint trim_start (s : string) : string :=
  match s with
  | String c rest => if is_space c then trim_start rest else s
  | EmptyString => EmptyString
  end.

Fixpoint drop_spaces (l : list ascii) : list ascii :=
  match l with
  | c :: rest => if is_space c then drop_spaces rest else l
  | [] => []
  end.

Definition trim (s : string) : string :=
  rev_string (drop_spaces (rev (list_ascii_of_string (trim_start s)))).

(** [s.replace(/\s+/g, ' ')]; [in_run] tells that the previous code unit
    was white space. *)
Fixpoint collapse_spaces (in_run : bool) (s : string) : string :=
  match s with
  | EmptyString => EmptyString
  | String c rest =>
      if is_space c then
        if in_run then collapse_spaces true rest
        else String " " (collapse_spaces true rest)
      else String c (collapse_spaces false rest)
  end.

(** The platform's JSON codec.  [JSON_parse] gives [None] where
    [JSON.parse] throws; [JSON_stringify] is used on plain objects and
    arrays only, where [JSON.stringify] returns a string. *)
Class JsonLib := {
  JSON_parse : string -> option jsval;
  JSON_stringify : jsval -> string
}.

(** How a function call ends: with a value or with a thrown one. *)
Inductive outcome (E A : Type) : Type :=
| Return (a : A)
| Throw (e : E).
Arguments Return {E A} a.
Arguments Throw {E A} e.

(** [s.endsWith(p)]. *)
Definition endsWith (s p : string) : bool :=
  (String.length p <=? String.length s)%nat
  && String.eqb (substring (String.length s - String.length p) (String.length p) s) p.

(** [s.replace(/\/$/, r)]: a slash that ends the text is replaced by
    [r]. *)
Definition replace_final_slash (s r : string) : string :=
  if endsWith s "/" then substring 0 (String.length s - 1) s ++ r else s.

(** [s.replace(/^\//, '')]. *)
Definition drop_leading_slash (s : string) : string :=
  match s with
  | String "/" rest => rest
  | _ => s
  end.

(** [items.join(sep)] on values: null and undefined give the empty
    text. *)
Definition join_values (sep : string) (items : list jsval) : string :=
  join sep (map (fun x => if is_nullish x then "" else to_String x) items).

(** [v.length], for the values that have one. *)
Definition length_of (v : jsval) : jsval :=
  match v with
  | JStr s => JNum (len s)
  | JArr l => JNum (Z.of_nat (List.length l))
  | _ => get_prop v "length"
  end.

(** [{ ...a }]: the own properties of a plain object; null, undefined
    and the other primitives that the code spreads have none. *)
Definition spread (a : jsval) : list (string * jsval) :=
  match a with
  | JObj m => m
  | _ => []
  end.

(** [out[k] = v] on the properties of a plain object: an existing key
    keeps its place, a new one goes last.  Keys are ordinary property
    names ([__proto__] is not one of them). *)
Fixpoint assign (m : list (string * jsval)) (k : string) (v : jsval)
    : list (string * jsval) :=
  match m with
  | [] => [(k, v)]
  | (k', v') :: rest =>
      if String.eqb k k' then (k, v) :: rest else (k', v') :: assign rest k v
  end.

(** [delete out[k]], as a rest pattern leaves a key out. *)
Fixpoint omit (m : list (string * jsval)) (k : string) : list (string * jsval) :=
  match m with
  | [] => []
  | (k', v') :: rest =>
      if String.eqb k k' then omit rest k else (k', v') :: omit rest k
  end.

End Js.

(* ================================================================== *)
(** * A reference JSON codec *)
(* ================================================================== *)

(** An instance of [JsonLib] to run the code on concrete texts.  It reads
    and writes JSON whose numbers are integer numerals and whose string
    escapes stay below 256; on any other text [parse] gives [None]. *)
Module RefJson.
Import Js.

Definition dquote : ascii := ascii_of_nat 34.
Definition backslash : ascii := ascii_of_nat 92.

Definition is_ws (c : ascii) : bool :=
  let n := nat_of_ascii c in
  ((n =? 32) || (n =? 9) || (n =? 10) || (n =? 13))%nat.

Fixpoint skip_ws (s : string) : string :=
  match s with
  | String c rest => if is_ws c then skip_ws rest else s
  | EmptyString => EmptyString
  end.

Definition digit_of (c : ascii) : option Z :=
  let n := Z.of_nat (nat_of_ascii c) in
  if (48 <=? n) && (n <=? 57) then Some (n - 48) else None.

Definition hex_of (c : ascii) : option Z :=
  let n := Z.of_nat (nat_of_ascii c) in
  if (48 <=? n) && (n <=? 57) then Some (n - 48)
  else if (97 <=? n) && (n <=? 102) then Some (n - 87)
  else if (65 <=? n) && (n <=? 70) then Some (n - 55)
  else None.

Fixpoint digits (s : string) (acc : Z) : Z * string :=
  match s with
  | String c rest =>
      match digit_of c with
      | Some d => digits rest (10 * acc + d)
      | None => (acc, s)
      end
  | EmptyString => (acc, s)
  end.

Definition starts_number_tail (s : string) : bool :=
  match s with
  | String c _ =>
      Ascii.eqb c "."%char || Ascii.eqb c "e"%char || Ascii.eqb c "E"%char
  | EmptyString => false
  end.

(** An integer numeral without sign. *)
Definition natural (s : string) : option (Z * string) :=
  match s with
  | String c rest =>
      match digit_of c with
      | None => None
      | Some 0 =>
          match rest with
          | String c' _ =>
              match digit_of c' with
              | Some _ => None
              | None => if starts_number_tail rest then None else Some (0, rest)
              end
          | EmptyString => Some (0, rest)
          end
      | Some d =>
          let '(n, rest') := digits rest d in
          if starts_number_tail rest' then None else Some (n, rest')
      end
  | EmptyString => None
  end.

(** The code units of a string literal after its opening quote. *)
Fixpoint string_body (s : string) (acc : list ascii) : option (string * string) :=
  match s with
  | EmptyString => None
  | String c rest =>
      if Ascii.eqb c dquote then Some (rev_string acc, rest)
      else if Ascii.eqb c backslash then
        match rest with
        | String e rest' =>
            let plain (x : ascii) := string_body rest' (x :: acc) in
            if Ascii.eqb e dquote then plain dquote
            else if Ascii.eqb e backslash then plain backslash
            else if Ascii.eqb e "/"%char then plain "/"%char
            else if Ascii.eqb e "b"%char then plain (ascii_of_nat 8)
            else if Ascii.eqb e "f"%char then plain (ascii_of_nat 12)
            else if Ascii.eqb e "n"%char then plain (ascii_of_nat 10)
            else if Ascii.eqb e "r"%char then plain (ascii_of_nat 13)
            else if Ascii.eqb e "t"%char then plain (ascii_of_nat 9)
            else if Ascii.eqb e "u"%char then
              match rest' with
              | String h1 (String h2 (String h3 (String h4 rest''))) =>
                  match hex_of h1, hex_of h2, hex_of h3, hex_of h4 with
                  | Some 0, Some 0, Some a, Some b =>
                      string_body rest'' (ascii_of_nat (Z.to_nat (16 * a + b)) :: acc)
                  | _, _, _, _ => None
                  end
              | _ => None
              end
            else None
        | EmptyString => None
        end
      else if (nat_of_ascii c <? 32)%nat then None
      else string_body rest (c :: acc)
  end.

Fixpoint set_prop (m : list (string * jsval)) (k : string) (v : jsval)
    : list (string * jsval) :=
  match m with
  | [] => [(k, v)]
  | (k', v') :: rest =>
      if String.eqb k k' then (k, v) :: rest else (k', v') :: set_prop rest k v
  end.

Definition literal (word : string) (v : jsval) (s : string)
    : option (jsval * string) :=
  if String.prefix word s
  then Some (v, substring (String.length word) (String.length s) s)
  else None.

(** One value, then the elements of an array after its first one, then
    the members of an object after its first one; [fuel] bounds the
    number of calls. *)
Fixpoint value (fuel : nat) (s : string) : option (jsval * string) :=
  match fuel with
  | O => None
  | S f =>
      match skip_ws s with
      | String c rest =>
          if Ascii.eqb c "{"%char then
            match skip_ws rest with
            | String c' rest' =>
                if Ascii.eqb c' "}"%char then Some (JObj [], rest')
                else members f (skip_ws rest) []
            | EmptyString => None
            end
          else if Ascii.eqb c "["%char then
            match skip_ws rest with
            | String c' rest' =>
                if Ascii.eqb c' "]"%char then Some (JArr [], rest')
                else elements f (skip_ws rest) []
            | EmptyString => None
            end
          else if Ascii.eqb c dquote then
            match string_body rest [] with
            | Some (str, rest') => Some (JStr str, rest')
            | None => None
            end
          else if Ascii.eqb c "-"%char then
            match natural rest with
            | Some (n, rest') => Some (JNum (- n), rest')
            | None => None
            end
          else if Ascii.eqb c "t"%char then literal "true" (JBool true) (String c rest)
          else if Ascii.eqb c "f"%char then literal "false" (JBool false) (String c rest)
          else if Ascii.eqb c "n"%char then literal "null" JNull (String c rest)
          else
            match natural (String c rest) with
            | Some (n, rest') => Some (JNum n, rest')
            | None => None
            end
      | EmptyString => None
      end
  end
with elements (fuel : nat) (s : string) (acc : list jsval)
    : option (jsval * string) :=
  match fuel with
  | O => None
  | S f =>
      match value f s with
      | Some (v, rest) =>
          match skip_ws rest with
          | String c rest' =>
              if Ascii.eqb c ","%char then elements f rest' (v :: acc)
              else if Ascii.eqb c "]"%char then Some (JArr (rev (v :: acc)), rest')
              else None
          | EmptyString => None
          end
      | None => None
      end
  end
with members (fuel : nat) (s : string) (acc : list (string * jsval))
    : option (jsval * string) :=
  match fuel with
  | O => None
  | S f =>
      match skip_ws s with
      | String q rest =>
          if Ascii.eqb q dquote then
            match string_body rest [] with
            | Some (k, rest1) =>
                match skip_ws rest1 with
                | String c rest2 =>
                    if Ascii.eqb c ":"%char then
                      match value f rest2 with
                      | Some (v, rest3) =>
                          match skip_ws rest3 with
                          | String c' rest4 =>
                              if Ascii.eqb c' ","%char
                              then members f rest4 (set_prop acc k v)
                              else if Ascii.eqb c' "}"%char
                              then Some (JObj (set_prop acc k v), rest4)
                              else None
                          | EmptyString => None
                          end
                      | None => None
                      end
                    else None
                | EmptyString => None
                end
            | None => None
            end
          else None
      | EmptyString => None
      end
  end.

(** A JSON text written with apostrophes where JSON has double quotes. *)
Fixpoint json_text (s : string) : string :=
  match s with
  | EmptyString => EmptyString
  | String c rest =>
      String (if Ascii.eqb c "'"%char then dquote else c) (json_text rest)
  end.

Definition parse (s : string) : option jsval :=
  match value (2 * String.length s + 2) s with
  | Some (v, rest) =>
      match skip_ws rest with
      | EmptyString => Some v
      | _ => None
      end
  | None => None
  end.

Definition hex_digit (n : nat) : ascii :=
  match String.get n "0123456789abcdef" with
  | Some c => c
  | None => "0"%char
  end.

Fixpoint quote_body (s : string) : string :=
  match s with
  | EmptyString => EmptyString
  | String c rest =>
      let n := nat_of_ascii c in
      (if Ascii.eqb c dquote then String backslash (String dquote EmptyString)
       else if Ascii.eqb c backslash then String backslash (String backslash EmptyString)
       else if (n =? 8)%nat then String backslash "b"
       else if (n =? 12)%nat then String backslash "f"
       else if (n =? 10)%nat then String backslash "n"
       else if (n =? 13)%nat then String backslash "r"
       else if (n =? 9)%nat then String backslash "t"
       else if (n <? 32)%nat
       then String backslash "u00" ++ String (hex_digit (n / 16)) (String (hex_digit (n mod 16)) "")
       else String c EmptyString) ++ quote_body rest
  end.

Definition quote (s : string) : string :=
  String dquote (quote_body s) ++ String dquote EmptyString.

Definition defined (v : jsval) : bool :=
  match v with JUndefined => false | _ => true end.

Fixpoint stringify (v : jsval) : string :=
  match v with
  | JUndefined => "null"
  | JNull => "null"
  | JBool true => "true"
  | JBool false => "false"
  | JNum n => string_of_Z n
  | JStr s => quote s
  | JArr l => "[" ++ join "," (map stringify l) ++ "]"
  | JObj m =>
      "{" ++ join ","
               ((fix members (l : list (string * jsval)) : list string :=
                   match l with
                   | [] => []
                   | (k, x) :: rest =>
                       if defined x
                       then (quote k ++ ":" ++ stringify x) :: members rest
                       else members rest
                   end) m) ++ "}"
  end.

#[export] Instance json : JsonLib :=
  {| JSON_parse := parse; JSON_stringify := stringify |}.

End RefJson.

(* ================================================================== *)
(** * Credential redaction (src/credentials.ts) *)
(* ================================================================== *)

Module Credentials.
Import Js.

Record RedactOptions := {
  prefix : option Z;
  suffix : option Z;
  mask : option string
}.

Definition DEFAULT_REDACT_OPTIONS : RedactOptions :=
  {| prefix := Some 4; suffix := Some 2; mask := Some "*" |}.

Definition or_default {A} (o : option A) (d : A) : A :=
  match o with Some x => x | None => d end.

(** [redactValue(value, opts = DEFAULT_REDACT_OPTIONS)]; [None] is a call
    without the second argument. *)
Definition redactValue (value : jsval) (opts : option RedactOptions) : string :=
  let o := or_default opts DEFAULT_REDACT_OPTIONS in
  let prefix := or_default (prefix o) 4 in
  let suffix := or_default (suffix o) 2 in
  let mask := or_default (mask o) "*" in
  let str := if is_nullish value then "" else to_String value in
  if len str =? 0 then ""
  else if len str <=? prefix + suffix
  then repeat mask (Z.to_nat (Z.max 0 (len str)))
  else
    let head := slice str 0 (Some prefix) in
    let tail := slice str (- suffix) None in
    let middle := repeat mask (Z.to_nat (Z.max 0 (len str - prefix - suffix))) in
    head ++ middle ++ tail.

Definition SENSITIVE_KEYS : list string :=
  ["token"; "cookie"; "authorization"; "auth"; "password"; "secret"].

(** [keys.has(k)]. *)
Definition has_key (keys : list string) (k : string) : bool :=
  existsb (String.eqb k) keys.

(** What [redactConfigDeep] stores under a sensitive key. *)
Definition redact_entry (v : jsval) : jsval :=
  match v with
  | JStr _ => JStr (redactValue v None)
  | _ => JStr (redactValue (JStr (to_String (if is_nullish v then JStr "" else v))) None)
  end.

(** [redactConfigDeep(obj, keys = SENSITIVE_KEYS)]; [None] is a call
    without the second argument. *)
Fixpoint redactConfigDeep (obj : jsval) (keys : option (list string)) : jsval :=
  match obj with
  | JArr items => JArr (map (fun v => redactConfigDeep v keys) items)
  | JObj props =>
      JObj ((fix entries (l : list (string * jsval)) : list (string * jsval) :=
               match l with
               | [] => []
               | (k, v) :: rest =>
                   (k, if has_key (or_default keys SENSITIVE_KEYS) k
                       then redact_entry v
                       else redactConfigDeep v keys) :: entries rest
               end) props)
  | _ => obj
  end.

(** [process.env]: a variable is a text or is not set. *)
Definition ProcessEnv := string -> option string.

(** [readCredentialsFromEnv(env)]: the object with the keys [token] and
    [cookie] that were set. *)
Definition readCredentialsFromEnv (env : ProcessEnv) : jsval :=
  let token := option_map trim (env "AFFINE_TOKEN") in
  let cookie := option_map trim (env "AFFINE_COOKIE") in
  let out := [] in
  let out := match token with
             | Some t => if String.eqb t "" then out else assign out "token" (JStr t)
             | None => out
             end in
  let out := match cookie with
             | Some c => if String.eqb c "" then out else assign out "cookie" (JStr c)
             | None => out
             end in
  JObj out.

End Credentials.

(* ================================================================== *)
(** * HTTP engine (src/http.ts) *)
(* ================================================================== *)

Module Http.
Import Js.

Inductive ResponseType := TypeJson | TypeText | TypeBuffer.

(** The options of [request] that decide its control flow.  The target,
    method, headers, body and credentials are the same at every attempt
    and only reach the server, whose behaviour is the [network] below;
    the debug sink is not configured. *)
Record RequestOptions := {
  timeoutMs : option Z;
  maxAttempts : option Z;
  retryOnStatus : option (Z -> bool);
  responseType : option ResponseType
}.

Inductive header_value := HOne (v : string) | HMany (vs : list string).

Definition Headers := list (string * string).

Inductive body_data :=
| DataJson (v : jsval)
| DataText (s : string)
| DataBuffer (raw : string).

Record HttpResponse := {
  res_status : Z;
  res_headers : Headers;
  res_data : body_data;
  res_rawBody : string
}.

(** A value thrown by the HTTP library: the three properties that
    [request] inspects. *)
Record thrown := {
  t_code : jsval;
  t_statusCode : jsval;
  t_message : jsval
}.

Inductive ErrorName :=
| HttpErrorName | TimeoutErrorName | NetworkErrorName | ResponseErrorName.

Record HttpError := {
  name : ErrorName;
  message : string;
  cause : option thrown;
  status : option Z;
  code : option string;
  attempt : Z;
  retryable : bool;
  response : option (Z * Headers * option string)
}.

Definition new_TimeoutError (msg : string) (c : thrown) (att : Z) : HttpError :=
  {| name := TimeoutErrorName; message := msg; cause := Some c; status := None;
     code := Some "ETIMEDOUT"; attempt := att; retryable := true; response := None |}.

Definition new_NetworkError (msg : string) (c : thrown) (att : Z)
    (cd : option string) (r : bool) : HttpError :=
  {| name := NetworkErrorName; message := msg; cause := Some c; status := None;
     code := cd; attempt := att; retryable := r; response := None |}.

Definition new_ResponseError (msg : string) (st att : Z) (body : option string)
    (hs : option Headers) (r : bool) : HttpError :=
  {| name := ResponseErrorName; message := msg; cause := None; status := Some st;
     code := None; attempt := att; retryable := r;
     response := Some (st, match hs with Some h => h | None => [] end, body) |}.

Definition defaultRetryOnStatus (status : Z) : bool :=
  (status =? 408) || (status =? 429) || ((500 <=? status) && (status <? 600)).

(** What the server does with one attempt: it answers, or the call (or
    the reading of the body) throws. *)
Inductive exchange :=
| Responds (statusCode : Z) (headers : list (string * header_value)) (raw : string)
| Fails (e : thrown).

(** The world around one call of [request]: the exchange of each attempt
    and the jitter drawn after it, [Math.floor(Math.random() * 100) - 50]. *)
Record network := {
  exchange_at : Z -> exchange;
  jitter_at : Z -> Z
}.

Inductive event :=
| EvExchange (att : Z)
| EvSleep (ms : Z).

Definition or_else {A} (o : option A) (d : A) : A :=
  match o with Some x => x | None => d end.

Definition timeout_of (opts : RequestOptions) : Z :=
  Z.max 1 (or_else (timeoutMs opts) 30000).

Definition maxAttempts_of (opts : RequestOptions) : Z :=
  Z.max 1 (or_else (maxAttempts opts) 3).

Definition retryOnStatus_of (opts : RequestOptions) : Z -> bool :=
  or_else (retryOnStatus opts) defaultRetryOnStatus.

Definition lower_headers (hs : list (string * header_value)) : Headers :=
  map (fun kv =>
         (toLowerCase (fst kv),
          match snd kv with HOne v => v | HMany vs => join ", " vs end)) hs.

(** Decoding of a 2xx body; [None] where [JSON.parse] throws. *)
Definition parse_body {J : JsonLib} (opts : RequestOptions) (raw : string)
    : option body_data :=
  match or_else (responseType opts) TypeJson with
  | TypeJson =>
      if (String.length raw =? 0)%nat then Some (DataJson JUndefined)
      else match JSON_parse raw with
           | Some v => Some (DataJson v)
           | None => None
           end
  | TypeText => Some (DataText raw)
  | TypeBuffer => Some (DataBuffer raw)
  end.

(** How the [try] block of one attempt ends. *)
Inductive try_end :=
| TryReturn (r : HttpResponse)
| TryThrowHttp (e : HttpError)
| TryThrowRaw (e : thrown)
| TryFallThrough.

Definition try_block {J : JsonLib} (opts : RequestOptions) (att : Z) (ex : exchange)
    : try_end :=
  let isFinal := att =? maxAttempts_of opts in
  match ex with
  | Fails e => TryThrowRaw e
  | Responds st hs raw =>
      let resHeaders := lower_headers hs in
      if (200 <=? st) && (st <? 300) then
        match parse_body opts raw with
        | Some data =>
            TryReturn {| res_status := st; res_headers := resHeaders;
                         res_data := data; res_rawBody := raw |}
        | None =>
            TryThrowHttp (new_ResponseError "Failed to parse JSON response"
                            st att (Some raw) (Some resHeaders) false)
        end
      else
        let err := new_ResponseError ("HTTP " ++ string_of_Z st) st att
                     (Some raw) (Some resHeaders) (retryOnStatus_of opts st) in
        if negb (retryable err) || isFinal then TryThrowHttp err
        else TryFallThrough
  end.

Definition error_code (e : thrown) : option string :=
  if truthy (t_code e) then Some (to_String (t_code e)) else None.

Definition is_timeout_code (c : option string) : bool :=
  match c with
  | Some s => String.eqb s "UND_ERR_HEADERS_TIMEOUT"
              || String.eqb s "UND_ERR_BODY_TIMEOUT"
              || String.eqb s "ETIMEDOUT"
  | None => false
  end.

(** The [catch] block applied to a value that is not an [HttpError]. *)
Definition wrap_raw (opts : RequestOptions) (att : Z) (e : thrown) : HttpError :=
  let code := error_code e in
  if is_timeout_code code then new_TimeoutError "Request timed out" e att
  else
    match t_statusCode e with
    | JNum st =>
        if st =? 0
        then new_NetworkError
               (if is_nullish (t_message e) then "Network error"
                else to_String (t_message e)) e att code true
        else new_ResponseError ("HTTP " ++ string_of_Z st) st att None None
               (retryOnStatus_of opts st)
    | _ =>
        new_NetworkError
          (if is_nullish (t_message e) then "Network error"
           else to_String (t_message e)) e att code true
    end.

(** One turn of the loop: the result of the call, or [Again] when the
    loop goes on to the backoff and the next attempt. *)
Inductive step :=
| Done (r : outcome HttpError HttpResponse)
| Again.

Definition catch_block (opts : RequestOptions) (att : Z) (wrapped : HttpError)
    : step :=
  let isFinal := att =? maxAttempts_of opts in
  if negb (retryable wrapped) || isFinal then Done (Throw wrapped) else Again.

Definition on_exchange {J : JsonLib} (opts : RequestOptions) (att : Z) (ex : exchange)
    : step :=
  match try_block opts att ex with
  | TryReturn r => Done (Return r)
  | TryThrowHttp e => catch_block opts att e
  | TryThrowRaw e => catch_block opts att (wrap_raw opts att e)
  | TryFallThrough => Again
  end.

Definition backoff_ms (net : network) (att : Z) : Z :=
  let base := 200 * 2 ^ (att - 1) in
  Z.max 0 (base + jitter_at net att).

(** The error after the loop, for a loop that ends without a result.
    The source attaches [lastError] as its cause; the last attempt always
    returns or throws, so this error is never observed and the cause is
    left out. *)
Definition request_failed (opts : RequestOptions) : HttpError :=
  {| name := HttpErrorName; message := "Request failed"; cause := None;
     status := None; code := None;
     attempt := Z.max 1 (or_else (maxAttempts opts) 3);
     retryable := false; response := None |}.

(** [for (let attempt = ...; attempt <= maxAttempts; attempt++)], with
    [left] the number of attempts that remain. *)
Fixpoint attempts {J : JsonLib} (opts : RequestOptions) (net : network)
    (left : nat) (att : Z) (log : list event)
    : outcome HttpError HttpResponse * list event :=
  match left with
  | O => (Throw (request_failed opts), log)
  | S left' =>
      match on_exchange opts att (exchange_at net att) with
      | Done r => (r, (log ++ [EvExchange att])%list)
      | Again =>
          attempts opts net left' (att + 1)
            (log ++ [EvExchange att; EvSleep (backoff_ms net att)])%list
      end
  end.

Definition request {J : JsonLib} (opts : RequestOptions) (net : network)
    : outcome HttpError HttpResponse * list event :=
  attempts opts net (Z.to_nat (maxAttempts_of opts)) 1 [].

(** ** The head of a request: its target and its headers *)

(** [h[k]] and [h[k] = v] on a record of texts. *)
Fixpoint header (h : Headers) (k : string) : option string :=
  match h with
  | [] => None
  | (k', v) :: rest => if String.eqb k k' then Some v else header rest k
  end.

Fixpoint set_header (h : Headers) (k v : string) : Headers :=
  match h with
  | [] => [(k, v)]
  | (k', v') :: rest =>
      if String.eqb k k' then (k, v) :: rest else (k', v') :: set_header rest k v
  end.

(** The target of a request whose query is absent or empty, where
    [appendQuery] returns the address it is given. *)
Record RequestTarget := {
  url : option string;
  baseUrl : option string;
  path : option string
}.

Definition nonempty (o : option string) : bool :=
  match o with
  | Some s => negb (String.eqb s "")
  | None => false
  end.

Definition buildUrl (opts : RequestTarget) : string :=
  if nonempty (url opts) then or_else (url opts) ""
  else
    let base := replace_final_slash (or_else (baseUrl opts) "") "" in
    let p := or_else (path opts) "" in
    let path := replace_final_slash ("/" ++ drop_leading_slash p)
                  (if endsWith p "/" then "/" else "") in
    base ++ path.

Definition normalizeHeaders (h : option Headers) : Headers :=
  fold_left (fun out kv => set_header out (toLowerCase (fst kv)) (snd kv))
            (or_else h []) [].

(** The headers that [request] sends: the caller's, normalised, then
    the credentials and, for a JSON payload, the content type, each
    where the caller gave none. *)
Definition request_headers (headers : option Headers) (token cookie : option string)
    (has_json : bool) : Headers :=
  let hs := normalizeHeaders headers in
  let hs := if nonempty token && negb (nonempty (header hs "authorization"))
            then set_header hs "authorization" ("Bearer " ++ or_else token "")
            else hs in
  let hs := if nonempty cookie && negb (nonempty (header hs "cookie"))
            then set_header hs "cookie" (or_else cookie "")
            else hs in
  if has_json && negb (nonempty (header hs "content-type"))
  then set_header hs "content-type" "application/json"
  else hs.

(** Whether [redactHeaders] masks the header [k]. *)
Definition masks_header (k : string) : bool :=
  Credentials.has_key Credentials.SENSITIVE_KEYS (toLowerCase k)
  || String.eqb (toLowerCase k) "authorization"
  || String.eqb (toLowerCase k) "cookie".

Definition redactHeaders (headers : Headers) : Headers :=
  fold_left (fun redacted kv =>
               set_header redacted (fst kv)
                 (if masks_header (fst kv)
                  then Credentials.redactValue (JStr (snd kv)) None
                  else snd kv))
            headers [].

(** The address that [postJson] requests: [base] is the caller's
    [baseUrl], or else the AFFINE_BASE_URL of the environment. *)
Definition postJson_url (path : string) (base : option string) : string :=
  let baseUrl := replace_final_slash (or_else base "") "" in
  if negb (String.eqb baseUrl "")
  then baseUrl ++ (if startsWith path "/" then "" else "/") ++ path
  else path.

End Http.

(* ================================================================== *)
(** * JSON-RPC tool client (src/mcp.ts) *)
(* ================================================================== *)

Module Mcp.
Import Js Http.

(** [res.headers[k]]: the last assignment to a key is the one that
    stays. *)
Fixpoint header_get (hs : Headers) (k : string) : option string :=
  match hs with
  | [] => None
  | (k', v) :: rest =>
      match header_get rest k with
      | Some v' => Some v'
      | None => if String.eqb k k' then Some v else None
      end
  end.

Definition isEventStream (res : HttpResponse) : bool :=
  let ct := match header_get (res_headers res) "content-type" with
            | Some v => v
            | None => ""
            end in
  includes (toLowerCase ct) "text/event-stream".

Definition LF : ascii := ascii_of_nat 10.
Definition CR : ascii := ascii_of_nat 13.

(** [text.split(/\r?\n/)]: [cur] holds the code units of the current
    line, last one first. *)
Fixpoint split_lines_from (cur : list ascii) (s : string) : list string :=
  match s with
  | EmptyString => [rev_string cur]
  | String c rest =>
      if Ascii.eqb c LF then
        let line := match cur with
                    | c' :: cur' => if Ascii.eqb c' CR then cur' else cur
                    | [] => cur
                    end in
        rev_string line :: split_lines_from [] rest
      else split_lines_from (c :: cur) rest
  end.

Definition split_lines (s : string) : list string := split_lines_from [] s.

(** The body of the loop of [parseSsePayload] for one line. *)
Definition sse_line {J : JsonLib} (last : option jsval) (line : string)
    : option jsval :=
  if negb (startsWith line "data:") then last
  else
    let json := trim (slice line 5 None) in
    if String.eqb json "" then last
    else match JSON_parse json with
         | Some v => Some v
         | None => last
         end.

(** [None] is [undefined]: no chunk was parsed. *)
Definition parseSsePayload {J : JsonLib} (text : string) : option jsval :=
  fold_left sse_line (split_lines text) None.

Record RpcError := {
  rpc_message : string;
  rpc_code : jsval;
  rpc_data : jsval
}.

(** What a tool call can throw: the error of the HTTP engine, the parse
    error of a body that is not JSON, or the JSON-RPC error of the
    envelope. *)
Inductive McpFailure :=
| HttpFailure (e : HttpError)
| ParseFailure (msg : string)
| RpcFailure (e : RpcError).

Definition payload_value (payload : option jsval) : jsval :=
  match payload with Some v => v | None => JUndefined end.

Definition unwrapRpc (payload : option jsval) : outcome McpFailure jsval :=
  let p := payload_value payload in
  if truthy p && is_object_type p then
    if has_prop p "error" && truthy (get_prop p "error") then
      let err := get_prop p "error" in
      let m := get_prop err "message" in
      Throw (RpcFailure
               {| rpc_message := if truthy m then to_String m else "MCP error";
                  rpc_code := get_prop err "code";
                  rpc_data := get_prop err "data" |})
    else if has_prop p "result" then Return (get_prop p "result")
    else Return p
  else Return p.

(** [res.data ?? res.rawBody.toString('utf8')], then [String(...)]. *)
Definition body_text (res : HttpResponse) : string :=
  match res_data res with
  | DataText s => s
  | DataBuffer raw => raw
  | DataJson v => if is_nullish v then res_rawBody res else to_String v
  end.

(** The part of [rpc] after the HTTP exchange. *)
Definition decode_rpc {J : JsonLib} (res : HttpResponse) : outcome McpFailure jsval :=
  if isEventStream res then unwrapRpc (parseSsePayload (body_text res))
  else match JSON_parse (body_text res) with
       | Some v => unwrapRpc (Some v)
       | None => Throw (ParseFailure "Failed to parse JSON response")
       end.

(** The options of [request] as [rpc] sets them: a text response, the
    caller's timeout, the default number of attempts. *)
Definition rpc_options (timeout : option Z) : RequestOptions :=
  {| timeoutMs := timeout; maxAttempts := None; retryOnStatus := None;
     responseType := Some TypeText |}.

(** [rpc(workspaceId, method, params, opts)].  The envelope, with the
    method and its parameters, is the body of the POST: it reaches the
    server only, and [net] is what the server does with it. *)
Definition rpc {J : JsonLib} (timeout : option Z) (net : network)
    : outcome McpFailure jsval :=
  match fst (request (rpc_options timeout) net) with
  | Throw e => Throw (HttpFailure e)
  | Return res => decode_rpc res
  end.

(** [callTool(workspaceId, name, params, opts)] is [rpc] with the method
    [tools/call]. *)
Definition callTool {J : JsonLib} (timeout : option Z) (net : network)
    : outcome McpFailure jsval :=
  rpc timeout net.

(** ** The helpers built on [rpc] and [callTool] *)

(** What [toolsList] makes of the result of [tools/list]. *)
Definition tools_of (result : jsval) : list jsval :=
  match result with
  | JArr tools => tools
  | _ =>
      if truthy result
      then match get_prop result "tools" with
           | JArr tools => tools
           | _ => []
           end
      else []
  end.

Definition toolsList {J : JsonLib} (timeout : option Z) (net : network)
    : outcome McpFailure (list jsval) :=
  match rpc timeout net with
  | Throw e => Throw e
  | Return result => Return (tools_of result)
  end.

(** The text that one item of a [content] array contributes, if any. *)
Definition content_text (c : jsval) : option string :=
  match (if truthy c then get_prop c "text" else JUndefined) with
  | JStr t => Some t
  | _ => match c with
         | JStr s => Some s
         | _ => None
         end
  end.

Fixpoint content_texts (items : list jsval) : list string :=
  match items with
  | [] => []
  | c :: rest =>
      match content_text c with
      | Some t => t :: content_texts rest
      | None => content_texts rest
      end
  end.

Definition LF_text : string := String LF EmptyString.

(** The markdown that [readDocument] finds in the result of the tool. *)
Definition markdown_of (out : jsval) : string :=
  match out with
  | JStr s => s
  | _ =>
      match (if truthy out then get_prop out "markdown" else JUndefined) with
      | JStr m => m
      | _ =>
          match (if is_nullish out then JUndefined else get_prop out "content") with
          | JArr items => join LF_text (content_texts items)
          | _ =>
              match (if truthy out then get_prop out "text" else JUndefined) with
              | JStr t => t
              | _ => ""
              end
          end
      end
  end.

(** [readDocument(workspaceId, docId, opts)]: the markdown of the
    returned record, whose [docId] is the argument. *)
Definition readDocument {J : JsonLib} (timeout : option Z) (net : network)
    : outcome McpFailure string :=
  match callTool timeout net with
  | Throw e => Throw e
  | Return out => Return (markdown_of out)
  end.

Definition normalizeMatches (out : jsval) : list jsval :=
  if negb (truthy out) then []
  else
    let arr :=
      match get_prop out "results" with
      | JArr l => l
      | _ => match get_prop out "items" with
             | JArr l => l
             | _ => match out with
                    | JArr l => l
                    | _ => []
                    end
             end
      end in
    map (fun v =>
           if truthy v && is_object_type v then v
           else JObj [("snippet",
                       JStr (to_String (if is_nullish v then JStr "" else v)))])
        arr.

(** [semanticSearch] and [keywordSearch]: the matches in the answer of
    the tool; the two differ by the tool that the server runs. *)
Definition semanticSearch {J : JsonLib} (timeout : option Z) (net : network)
    : outcome McpFailure (list jsval) :=
  match callTool timeout net with
  | Throw e => Throw e
  | Return out => Return (normalizeMatches out)
  end.

Definition keywordSearch {J : JsonLib} (timeout : option Z) (net : network)
    : outcome McpFailure (list jsval) :=
  match callTool timeout net with
  | Throw e => Throw e
  | Return out => Return (normalizeMatches out)
  end.

End Mcp.

(* ================================================================== *)
(** * Keyword search resolver (src/search.ts) *)
(* ================================================================== *)

Module Search.
Import Js.

Inductive KeywordSearchSource := graphql | mcp | fallback.

Record KeywordSearchResult := {
  query : string;
  source : KeywordSearchSource;
  items : list jsval
}.

(** The rows of the GraphQL search, [SearchDoc]. *)
Record SearchDoc := {
  sd_docId : jsval;
  sd_title : jsval;
  sd_highlight : jsval;
  sd_createdAt : jsval;
  sd_updatedAt : jsval
}.

(** [DocNode], with [None] for a title that is null or missing, and
    [DocConnection], with [None] for a missing [edges]. *)
Record DocNode := {
  node_id : string;
  node_title : option string
}.

Record DocConnection := {
  edges : option (list DocNode)
}.

Record McpTool := {
  tool_name : string
}.

(** A rejection of one of the collaborators. *)
Inductive exn := Rejected (message : string).

(** The collaborators of the resolver, each with what its call gives.
    [toolsList] is asked up to twice; its answer may change with the
    number of earlier calls. *)
Record deps := {
  searchDocsByKeyword : outcome exn (option (list SearchDoc));
  toolsList : nat -> outcome exn (list McpTool);
  keywordSearch : outcome exn (list jsval);
  listRecentlyUpdatedDocs : outcome exn DocConnection;
  listDocs : outcome exn DocConnection;
  readDocument : string -> outcome exn string
}.

Inductive call :=
| CallSearchDocs
| CallToolsList
| CallKeywordSearch
| CallListRecentlyUpdatedDocs
| CallListDocs
| CallReadDocument (docId : string).

Definition has_tool (tools : list McpTool) (n : string) : bool :=
  existsb (fun t => String.eqb (tool_name t) n) tools.

Definition is_tools_call (c : call) : bool :=
  match c with CallToolsList => true | _ => false end.

(** The answer of the next [toolsList] call after the calls of [log]. *)
Definition next_tools (d : deps) (log : list call) : outcome exn (list McpTool) :=
  toolsList d (List.length (filter is_tools_call log)).

Definition gql_item (doc : SearchDoc) : jsval :=
  JObj [("docId", sd_docId doc); ("title", sd_title doc);
        ("highlight", sd_highlight doc); ("createdAt", sd_createdAt doc);
        ("updatedAt", sd_updatedAt doc)].

(** The state after steps 1 and 2: the source, the items and the calls
    made. *)
Definition indexed_then_tool (d : deps)
    : KeywordSearchSource * list jsval * list call :=
  match searchDocsByKeyword d with
  | Return gqlItems =>
      (graphql,
       map gql_item (match gqlItems with Some l => l | None => [] end),
       [CallSearchDocs])
  | Throw _ =>
      match next_tools d [CallSearchDocs] with
      | Return tools =>
          if has_tool tools "keyword_search" then
            match keywordSearch d with
            | Return found =>
                (mcp, found, [CallSearchDocs; CallToolsList; CallKeywordSearch])
            | Throw _ =>
                (fallback, [], [CallSearchDocs; CallToolsList; CallKeywordSearch])
            end
          else (fallback, [], [CallSearchDocs; CallToolsList])
      | Throw _ => (fallback, [], [CallSearchDocs; CallToolsList])
      end
  end.

Definition title_item (n : DocNode) : jsval :=
  JObj [("docId", JStr (node_id n));
        ("title", match node_title n with Some t => JStr t | None => JNull end)].

Definition title_matches (q : string) (n : DocNode) : bool :=
  includes (toLowerCase (match node_title n with Some t => t | None => "" end)) q.

Definition conn_edges (conn : DocConnection) : list DocNode :=
  match edges conn with Some l => l | None => [] end.

(** Step 3, run when the items are empty: the listing (with its own
    fallback to [listDocs]) and the title filter. *)
Definition title_scan (d : deps) (q : string)
    : outcome exn (DocConnection * list jsval) * list call :=
  let listed :=
    match listRecentlyUpdatedDocs d with
    | Return conn => (Return conn, [CallListRecentlyUpdatedDocs])
    | Throw _ =>
        match listDocs d with
        | Return conn => (Return conn, [CallListRecentlyUpdatedDocs; CallListDocs])
        | Throw e => (Throw e, [CallListRecentlyUpdatedDocs; CallListDocs])
        end
    end in
  match listed with
  | (Return conn, log) =>
      (Return (conn, map title_item (filter (title_matches q) (conn_edges conn))),
       log)
  | (Throw e, log) => (Throw e, log)
  end.

(** [it?.docId ?? it?.id], kept when it is truthy, as a string. *)
Definition item_id (it : jsval) : option string :=
  let id := if is_nullish it then JUndefined
            else if is_nullish (get_prop it "docId") then get_prop it "id"
            else get_prop it "docId" in
  if truthy id then Some (to_String id) else None.

Fixpoint seen_ids (its : list jsval) : list string :=
  match its with
  | [] => []
  | it :: rest =>
      match item_id it with
      | Some id => id :: seen_ids rest
      | None => seen_ids rest
      end
  end.

Definition mem_string (x : string) (l : list string) : bool :=
  existsb (String.eqb x) l.

(** The snippet of a document whose text holds the query at [idx]. *)
Definition snippet_at (text q : string) (idx : nat) : string :=
  let i := Z.of_nat idx in
  let start := Z.max 0 (i - 40) in
  let stop := Z.min (len text) (i + len q + 40) in
  trim (collapse_spaces false (slice text start (Some stop))).

(** The loop over the edges in step 4; [remaining] is [None] for no
    bound. *)
Fixpoint scan_content (d : deps) (q : string) (seen : list string)
    (remaining : option nat) (nodes : list DocNode)
    (matches : list jsval) (log : list call) : list jsval * list call :=
  match nodes with
  | [] => (matches, log)
  | node :: rest =>
      let docId := node_id node in
      if mem_string docId seen then
        scan_content d q seen remaining rest matches log
      else
        let log' := (log ++ [CallReadDocument docId])%list in
        match readDocument d docId with
        | Throw _ => scan_content d q seen remaining rest matches log'
        | Return markdown =>
            let text := markdown in
            match indexOf (toLowerCase text) q with
            | None => scan_content d q seen remaining rest matches log'
            | Some idx =>
                let m := JObj [("docId", JStr docId);
                               ("title", match node_title node with
                                         | Some t => JStr t
                                         | None => JNull
                                         end);
                               ("snippet", JStr (snippet_at text q idx))] in
                let matches' := (matches ++ [m])%list in
                let full := match remaining with
                            | Some r => (r <=? List.length matches')%nat
                            | None => false
                            end in
                if full then (matches', log')
                else scan_content d q seen remaining rest matches' log'
            end
        end
  end.

Definition is_graphql (s : KeywordSearchSource) : bool :=
  match s with graphql => true | _ => false end.

Definition is_mcp (s : KeywordSearchSource) : bool :=
  match s with mcp => true | _ => false end.

(** What step 4 does with the matches of the scan: nothing when there
    are none; else they follow the items found before, and a result that
    had no items and did not come from the tool becomes a fallback
    result. *)
Definition merge_matches (src : KeywordSearchSource) (its matches : list jsval)
    : KeywordSearchSource * list jsval :=
  match matches with
  | [] => (src, its)
  | _ =>
      let itemsBeforeScan := List.length its in
      ((if (itemsBeforeScan =? 0)%nat && negb (is_mcp src) then fallback else src),
       (if (itemsBeforeScan =? 0)%nat then matches else (its ++ matches)%list))
  end.

(** [remaining] in step 4. *)
Definition remaining_of (maxItems : option Z) (its : list jsval) : option nat :=
  match maxItems with
  | Some m => Some (Z.to_nat (Z.max 0 (m - Z.of_nat (List.length its))))
  | None => None
  end.

(** Step 4, the content scan, whose failures are all caught. *)
Definition content_scan (d : deps) (q : string) (maxItems : option Z)
    (docsConn : option DocConnection) (src : KeywordSearchSource)
    (its : list jsval) (log : list call)
    : KeywordSearchSource * list jsval * list call :=
  let log1 := (log ++ [CallToolsList])%list in
  match next_tools d log with
  | Throw _ => (src, its, log1)
  | Return tools =>
      if has_tool tools "read_document" then
        let listed :=
          match docsConn with
          | Some conn => (Some conn, log1)
          | None =>
              match listRecentlyUpdatedDocs d with
              | Return conn => (Some conn, (log1 ++ [CallListRecentlyUpdatedDocs])%list)
              | Throw _ => (None, (log1 ++ [CallListRecentlyUpdatedDocs])%list)
              end
          end in
        match listed with
        | (None, log2) => (src, its, log2)
        | (Some conn, log2) =>
            let scanned :=
              scan_content d q (seen_ids its) (remaining_of maxItems its)
                (conn_edges conn) [] log2 in
            (merge_matches src its (fst scanned), snd scanned)
        end
      else (src, its, log1)
  end.

(** [keywordSearchWithFallback(workspaceId, query, first, httpOpts)]:
    the result and the calls made to the collaborators, in order. *)
Definition keywordSearchWithFallback (d : deps) (query_ : string) (first : option Z)
    : outcome exn KeywordSearchResult * list call :=
  let '(src1, items1, log1) := indexed_then_tool d in
  let q := toLowerCase query_ in
  let after3 :=
    match items1 with
    | [] =>
        match title_scan d q with
        | (Return (conn, found), l) =>
            Return (fallback, found, Some conn, (log1 ++ l)%list)
        | (Throw e, l) => Throw (e, (log1 ++ l)%list)
        end
    | _ => Return (src1, items1, None, log1)
    end in
  match after3 with
  | Throw (e, log) => (Throw e, log)
  | Return (src3, items3, docsConn, log3) =>
      let maxItems := match first with
                      | Some f => if 0 <? f then Some f else None
                      | None => None
                      end in
      let shouldScanContent :=
        ((List.length items3 =? 0)%nat || is_graphql src3)
        && match maxItems with
           | None => true
           | Some m => Z.of_nat (List.length items3) <? m
           end in
      if shouldScanContent then
        let '(src4, items4, log4) :=
          content_scan d q maxItems docsConn src3 items3 log3 in
        (Return {| query := query_; source := src4; items := items4 |}, log4)
      else
        (Return {| query := query_; source := src3; items := items3 |}, log3)
  end.

End Search.

(* ================================================================== *)
(** * Realtime document layer (src/yjs.ts) *)
(* ================================================================== *)

Module Yjs.
Import Js.

(** ** The shared types of a CRDT document

    A document is seen through its content: the root maps by name, and
    in them plain values, texts, arrays and maps.  A map keeps its keys
    in the order of their first insertion. *)
Inductive yval : Type :=
| YPrim (v : jsval)
| YText (s : string)
| YArray (items : list yval)
| YMap (entries : list (string * yval)).

Definition ymap := list (string * yval).
Definition ydoc := list (string * ymap).

Fixpoint ymap_get (m : ymap) (k : string) : option yval :=
  match m with
  | [] => None
  | (k', v) :: rest => if String.eqb k k' then Some v else ymap_get rest k
  end.

Fixpoint ymap_set (m : ymap) (k : string) (v : yval) : ymap :=
  match m with
  | [] => [(k, v)]
  | (k', v') :: rest =>
      if String.eqb k k' then (k, v) :: rest else (k', v') :: ymap_set rest k v
  end.

(** [doc.getMap(name)] and the write-back of a root map. *)
Fixpoint getMap (d : ydoc) (name : string) : ymap :=
  match d with
  | [] => []
  | (n, m) :: rest => if String.eqb name n then m else getMap rest name
  end.

Fixpoint setMap (d : ydoc) (name : string) (m : ymap) : ydoc :=
  match d with
  | [] => [(name, m)]
  | (n, m') :: rest =>
      if String.eqb name n then (name, m) :: rest else (n, m') :: setMap rest name m
  end.

Definition ystr (s : string) : yval := YPrim (JStr s).

(** The library around the documents: the binary updates of Yjs, kept
    abstract, and their passage through [Buffer].  [applyUpdate] is the
    replay of an update into a fresh document, [None] where it throws;
    [Buffer_from] is [Buffer.from(v, 'base64')] for a value that is not a
    string, [None] where it throws. *)
Class YjsLib := {
  update : Type;
  encodeStateAsUpdate : ydoc -> update;
  applyUpdate : update -> option ydoc;
  apply_encode : forall d, applyUpdate (encodeStateAsUpdate d) = Some d;
  toBase64 : update -> string;
  fromBase64 : string -> update;
  Buffer_from : jsval -> option update;
  byteLength : update -> nat
}.

(** ** Effects: the transport, the random source and the clock *)

Inductive exn :=
| JsError (message : string) (ack : option jsval)
| TypeError (what : string).

Inductive reply :=
| Resolves (v : jsval)
| Rejects (e : exn)
| Silent.

Inductive tevent :=
| TConnect
| TEmit (event : string) (payload : jsval)
| TClose.

(** A transport as the operations see it: whether [connect] succeeds,
    and what an [emit] settles to given the events before it.  [close]
    is only ever called on a [SocketIoTransport], whose [close] returns
    normally. *)
Record RealtimeTransport := {
  connect : outcome exn unit;
  emit : list tevent -> string -> jsval -> reply
}.

(** The world of one operation: the transport that
    [new SocketIoTransport(opts)] gives, whether the three-second timer
    of the pull fires before the pull settles, the successive values of
    [Math.floor(Math.random() * 36)] (taken modulo 36) and of
    [Date.now()]. *)
Record world := {
  socket : RealtimeTransport;
  pull_timer_first : bool;
  rand : nat -> nat;
  now : nat -> Z
}.

Record state := {
  trace : list tevent;
  draws : nat;
  ticks : nat
}.

Definition init : state := {| trace := []; draws := 0; ticks := 0 |}.

Inductive result (A : Type) : Type :=
| Ok (a : A)
| Fail (e : exn)
| Hang.
Arguments Ok {A} a.
Arguments Fail {A} e.
Arguments Hang {A}.

Definition M (A : Type) : Type := state -> result A * state.

Definition ret {A} (a : A) : M A := fun st => (Ok a, st).

Definition throw {A} (e : exn) : M A := fun st => (Fail e, st).

Definition bind {A B} (m : M A) (k : A -> M B) : M B :=
  fun st =>
    match m st with
    | (Ok a, st') => k a st'
    | (Fail e, st') => (Fail e, st')
    | (Hang, st') => (Hang, st')
    end.

Notation "x <- m ;; k" := (bind m (fun x => k))
  (at level 61, m at next level, right associativity).
Notation "m ;;; k" := (bind m (fun _ => k))
  (at level 61, right associativity).

(** [try { m } catch { h }]. *)
Definition try_catch {A} (m : M A) (h : exn -> M A) : M A :=
  fun st =>
    match m st with
    | (Fail e, st') => h e st'
    | r => r
    end.

(** [try { m } finally { f }]. *)
Definition finally {A} (m : M A) (f : M unit) : M A :=
  fun st =>
    match m st with
    | (Hang, st') => (Hang, st')
    | (r, st') =>
        match f st' with
        | (Ok _, st'') => (r, st'')
        | (Fail e, st'') => (Fail e, st'')
        | (Hang, st'') => (Hang, st'')
        end
    end.

Definition record (ev : tevent) (st : state) : state :=
  {| trace := (trace st ++ [ev])%list; draws := draws st; ticks := ticks st |}.

Definition settle (r : reply) : result jsval :=
  match r with
  | Resolves v => Ok v
  | Rejects e => Fail e
  | Silent => Hang
  end.

(** [await transport.emit(event, payload)]. *)
Definition do_emit (t : RealtimeTransport) (event : string) (payload : jsval)
    : M jsval :=
  fun st => (settle (emit t (trace st) event payload),
             record (TEmit event payload) st).

(** [await withTimeout(transport.emit(event, payload))]: the promise of
    the emit raced against the timer. *)
Definition do_emit_withTimeout (w : world) (t : RealtimeTransport)
    (event : string) (payload : jsval) : M jsval :=
  fun st =>
    let r := emit t (trace st) event payload in
    let timed_out := JsError "pull timeout" None in
    (match r with
     | Silent => Fail timed_out
     | _ => if pull_timer_first w then Fail timed_out else settle r
     end,
     record (TEmit event payload) st).

Definition do_close : M unit := fun st => (Ok tt, record TClose st).

Definition alphabet : string := "abcdefghijklmnopqrstuvwxyz0123456789".

Definition alphabet_at (i : nat) : ascii :=
  match String.get (i mod 36) alphabet with
  | Some c => c
  | None => "a"%char
  end.

Fixpoint rand_chars (w : world) (from n : nat) : string :=
  match n with
  | O => EmptyString
  | S k => String (alphabet_at (rand w from)) (rand_chars w (S from) k)
  end.

(** [randId(len)]. *)
Definition randId (w : world) (n : nat) : M string :=
  fun st => (Ok (rand_chars w (draws st) n),
             {| trace := trace st; draws := (draws st + n)%nat; ticks := ticks st |}).

(** [Date.now()]. *)
Definition Date_now (w : world) : M Z :=
  fun st => (Ok (now w (ticks st)),
             {| trace := trace st; draws := draws st; ticks := S (ticks st) |}).

Fixpoint digits36 (fuel : nat) (n : Z) (acc : string) : string :=
  match fuel with
  | O => acc
  | S f =>
      if n =? 0 then acc
      else digits36 f (n / 36)
             (String (alphabet_at ((Z.to_nat (n mod 36) + 26) mod 36)) acc)
  end.

(** [n.toString(36)] for an integer. *)
Definition toString36 (n : Z) : string :=
  if n =? 0 then "0"
  else if n <? 0 then "-" ++ digits36 (S (Z.to_nat (Z.log2 (- n)))) (- n) ""
  else digits36 (S (Z.to_nat (Z.log2 n))) n "".

(** ** Building the block tree *)

Definition page_block (pageId noteId : string) (title : option string) : yval :=
  let base := [("sys:id", ystr pageId);
               ("sys:flavour", ystr "affine:page");
               ("sys:version", YPrim (JNum 2));
               ("sys:children", YArray [ystr noteId])] in
  YMap (match title with
        | Some t => if String.eqb t "" then base
                    else ymap_set base "prop:title" (YText t)
        | None => base
        end).

Definition note_block (noteId : string) (paraId : option string) : yval :=
  YMap [("sys:id", ystr noteId);
        ("sys:flavour", ystr "affine:note");
        ("sys:version", YPrim (JNum 1));
        ("sys:children", YArray (match paraId with
                                 | Some p => [ystr p]
                                 | None => []
                                 end));
        ("prop:xywh", ystr "[0,0,600,400]")].

Definition paragraph_block (paraId text : string) : yval :=
  YMap [("sys:id", ystr paraId);
        ("sys:flavour", ystr "affine:paragraph");
        ("sys:version", YPrim (JNum 1));
        ("sys:children", YArray []);
        ("prop:type", ystr "text");
        ("prop:collapsed", YPrim (JBool false));
        ("prop:text", YText text)].

(** The document that both builders fill: page, note and, when there is
    one, paragraph, set in this order in the map [blocks] of a fresh
    document. *)
Definition scaffold (pageId noteId : string) (paraId : option string)
    (title content : option string) : ydoc :=
  let b1 := ymap_set [] pageId (page_block pageId noteId title) in
  let b2 := ymap_set b1 noteId (note_block noteId paraId) in
  let b3 := match paraId with
            | Some p =>
                ymap_set b2 p
                  (paragraph_block p (match content with Some c => c | None => "" end))
            | None => b2
            end in
  setMap [] "blocks" b3.

(** A string that is given and not empty. *)
Definition given (s : option string) : bool :=
  match s with
  | Some t => negb (String.eqb t "")
  | None => false
  end.

(** [buildInitialPageUpdate(title, content)]. *)
Definition buildInitialPageUpdate {Y : YjsLib} (w : world)
    (title content : option string) : M update :=
  pageId <- randId w 20 ;;
  noteId <- randId w 20 ;;
  paraId <- (if given content
             then (p <- randId w 20 ;; ret (Some p))
             else ret None) ;;
  ret (encodeStateAsUpdate (scaffold pageId noteId paraId title content)).

(** ** Acknowledgements *)

Definition extractRealtimeError {J : JsonLib} (ack : jsval) : option string :=
  if negb (truthy ack) || negb (is_object_type ack) then None
  else
    let raw := get_prop ack "error" in
    if negb (truthy raw) then None
    else match raw with
         | JStr s => Some s
         | JObj _ | JArr _ =>
             match get_prop raw "message" with
             | JStr m => Some m
             | _ => Some (JSON_stringify raw)
             end
         | _ => Some (to_String raw)
         end.

Definition ensureAckOk {J : JsonLib} (ack : jsval) (op : string) : M unit :=
  match extractRealtimeError ack with
  | None => ret tt
  | Some msg =>
      if String.eqb msg "" then ret tt
      else throw (JsError ("realtime " ++ op ++ " failed: " ++ msg) (Some ack))
  end.

(** ** Options and the transport in use *)

Record RealtimeOptions := {
  workspaceId : string;
  clientVersion : option string;
  transport : option RealtimeTransport
}.

Definition ensureTransport (w : world) (opts : RealtimeOptions)
    : M RealtimeTransport :=
  match transport opts with
  | Some t => ret t
  | None =>
      fun st =>
        match connect (socket w) with
        | Return _ => (Ok (socket w), record TConnect st)
        | Throw e => (Fail e, record TConnect st)
        end
  end.

Definition needClose (opts : RealtimeOptions) : bool :=
  match transport opts with Some _ => false | None => true end.

Definition close_if (b : bool) : M unit :=
  if b then do_close else ret tt.

Definition join_payload (ws clientVersion : string) : jsval :=
  JObj [("spaceType", JStr "workspace");
        ("spaceId", JStr ws);
        ("clientVersion", JStr clientVersion)].

Definition joinWorkspace (t : RealtimeTransport) (ws clientVersion : string)
    : M unit :=
  do_emit t "space:join" (join_payload ws clientVersion) ;;;
  ret tt.

Definition doc_payload (ws docId : string) : list (string * jsval) :=
  [("spaceType", JStr "workspace"); ("spaceId", JStr ws); ("docId", JStr docId)].

Definition push_payload {Y : YjsLib} (ws docId : string) (u : update) : jsval :=
  JObj (doc_payload ws docId ++ [("update", JStr (toBase64 u))])%list.

(** ** The best-effort entry in the workspace root document *)

(** The ids of the entries of [pages], as the membership test sees
    them: the truthy [id] of every entry that is a map. *)
Definition entry_id (entry : yval) : option yval :=
  match entry with
  | YMap m =>
      match ymap_get m "id" with
      | Some (YPrim v) => if truthy v then Some (YPrim v) else None
      | Some other => Some other
      | None => None
      end
  | _ => None
  end.

Definition is_this_id (docId : string) (v : option yval) : bool :=
  match v with
  | Some (YPrim (JStr s)) => String.eqb s docId
  | _ => false
  end.

Definition doc_meta (docId : string) (title : option string) (created : Z) : yval :=
  YMap [("id", ystr docId);
        ("title", ystr (match title with Some t => t | None => "" end));
        ("createDate", YPrim (JNum created));
        ("tags", YArray [])].

(** The second [try] block of [appendDocMetaToWorkspaceRoot]. *)
Definition append_entry {Y : YjsLib} (w : world) (t : RealtimeTransport)
    (ws docId : string) (title : option string) (snapshot : jsval) : M unit :=
  match (match snapshot with
         | JStr b64 => Some (fromBase64 b64)
         | other => Buffer_from other
         end) with
  | None => throw (TypeError "Buffer.from")
  | Some buf =>
      if (byteLength buf =? 0)%nat then ret tt
      else
        match applyUpdate buf with
        | None => throw (JsError "applyUpdate" None)
        | Some rootDoc =>
            let meta := getMap rootDoc "meta" in
            let '(pages, meta1) :=
              match ymap_get meta "pages" with
              | Some (YArray l) => (l, meta)
              | _ => ([], ymap_set meta "pages" (YArray []))
              end in
            if existsb (fun e => is_this_id docId (entry_id e)) pages then ret tt
            else
              created <- Date_now w ;;
              let pages' := (pages ++ [doc_meta docId title created])%list in
              let rootDoc' :=
                setMap rootDoc "meta" (ymap_set meta1 "pages" (YArray pages')) in
              do_emit t "space:push-doc-update"
                (push_payload ws ws (encodeStateAsUpdate rootDoc')) ;;;
              ret tt
        end
  end.

(** The first [try] block of [appendDocMetaToWorkspaceRoot]: the
    snapshot of the root document, [None] where the function returns at
    once. *)
Definition load_root_snapshot (t : RealtimeTransport) (ws : string)
    : M (option jsval) :=
  try_catch
    (res <- do_emit t "space:load-doc" (JObj (doc_payload ws ws)) ;;
     if negb (truthy res) || negb (is_object_type res) || has_prop res "error"
     then ret None
     else ret (Some (if truthy (get_prop res "missing")
                     then get_prop res "missing"
                     else get_prop res "state")))
    (fun _ => ret None).

Definition appendDocMetaToWorkspaceRoot {Y : YjsLib} (w : world)
    (t : RealtimeTransport) (ws docId : string) (title : option string)
    : M unit :=
  loaded <- load_root_snapshot t ws ;;
  match loaded with
  | None => ret tt
  | Some snapshotB64 =>
      if negb (truthy snapshotB64) then ret tt
      else try_catch (append_entry w t ws docId title snapshotB64)
                     (fun _ => ret tt)
  end.

(** ** createDoc *)

Record CreateDocOptions := {
  create_base : RealtimeOptions;
  title : string;
  content : option string
}.

Record Created := {
  created_docId : string;
  created_timestamp : jsval
}.

(** [(res as any)?.k]. *)
Definition opt_prop (res : jsval) (k : string) : jsval :=
  if is_nullish res then JUndefined else get_prop res k.

Definition version_of (opts : RealtimeOptions) : string :=
  match clientVersion opts with
  | Some v => v
  | None => "1.0.0"
  end.

(** The first half of the [try] block of [createDoc]: the join, the
    fresh document id and the update that holds the scaffold. *)
Definition createDoc_update {Y : YjsLib} (w : world) (opts : CreateDocOptions)
    (t : RealtimeTransport) : M (string * update) :=
  let ws := workspaceId (create_base opts) in
  joinWorkspace t ws (version_of (create_base opts)) ;;;
  docId <- randId w 20 ;;
  let pageId := "page:" ++ docId in
  let noteId := "note:" ++ docId in
  paraId <- (if given (content opts)
             then (ms <- Date_now w ;;
                   r <- randId w 6 ;;
                   ret (Some ("p:" ++ toString36 ms ++ r)))
             else ret None) ;;
  ret (docId,
       encodeStateAsUpdate
         (scaffold pageId noteId paraId (Some (title opts)) (content opts))).

(** The [try] block of [createDoc], with the transport in use: the push
    of that update, the check of its acknowledgement, the entry in the
    workspace root document. *)
Definition createDoc_try {J : JsonLib} {Y : YjsLib} (w : world) (opts : CreateDocOptions)
    (t : RealtimeTransport) : M Created :=
  let ws := workspaceId (create_base opts) in
  built <- createDoc_update w opts t ;;
  let docId := fst built in
  res <- do_emit t "space:push-doc-update" (push_payload ws docId (snd built)) ;;
  ensureAckOk res "space:push-doc-update" ;;;
  appendDocMetaToWorkspaceRoot w t ws docId (Some (title opts)) ;;;
  ret {| created_docId := docId; created_timestamp := opt_prop res "timestamp" |}.

Definition createDoc {J : JsonLib} {Y : YjsLib} (w : world) (opts : CreateDocOptions)
    : M Created :=
  t <- ensureTransport w (create_base opts) ;;
  finally (createDoc_try w opts t) (close_if (needClose (create_base opts))).

(** ** appendText *)

Record AppendTextOptions := {
  append_base : RealtimeOptions;
  append_docId : string;
  text : string
}.

Record Appended := {
  accepted : bool;
  appended_timestamp : jsval
}.

(** [yBlock.get('sys:flavour') === fl]; [None] where the call throws
    because the value has no [get]. *)
Definition flavour_is (v : yval) (fl : string) : option bool :=
  match v with
  | YMap m =>
      Some (match ymap_get m "sys:flavour" with
            | Some (YPrim (JStr s)) => String.eqb s fl
            | _ => false
            end)
  | YArray _ => Some false
  | _ => None
  end.

(** [child?.get('sys:flavour') === fl]. *)
Definition opt_flavour_is (v : option yval) (fl : string) : option bool :=
  match v with
  | None => Some false
  | Some (YPrim p) => if is_nullish p then Some false else None
  | Some other => flavour_is other fl
  end.

(** The [forEach] that keeps the id of the last page block. *)
Fixpoint last_page (bs : ymap) (pid : option string) : option (option string) :=
  match bs with
  | [] => Some pid
  | (id, yBlock) :: rest =>
      match flavour_is yBlock "affine:page" with
      | None => None
      | Some true => last_page rest (Some id)
      | Some false => last_page rest pid
      end
  end.

(** The loop over the children of the page, up to the first note. *)
Fixpoint first_note (blocks : ymap) (arr : list yval) : option (option string) :=
  match arr with
  | [] => Some None
  | cid :: rest =>
      let child := match cid with
                   | YPrim (JStr k) => ymap_get blocks k
                   | _ => None
                   end in
      match opt_flavour_is child "affine:note" with
      | None => None
      | Some true =>
          match cid with
          | YPrim (JStr k) => Some (Some k)
          | _ => Some None
          end
      | Some false => first_note blocks rest
      end
  end.

(** [yPage?.get('sys:children')] followed by the [toArray] test. *)
Definition children_of (yPage : option yval) : option (list yval) :=
  match yPage with
  | None => Some []
  | Some (YMap m) =>
      Some (match ymap_get m "sys:children" with
            | Some (YArray l) => l
            | _ => []
            end)
  | Some (YArray _) => Some []
  | Some (YPrim p) => if is_nullish p then Some [] else None
  | Some (YText _) => None
  end.

(** The note lookup of a pulled document; [None] where it throws. *)
Definition locate_note (blocks : ymap) : option (option string) :=
  match last_page blocks None with
  | None => None
  | Some None => Some None
  | Some (Some pid) =>
      if String.eqb pid "" then Some None
      else match children_of (ymap_get blocks pid) with
           | None => None
           | Some arr => first_note blocks arr
           end
  end.

Definition stub_note (noteId : string) : yval :=
  YMap [("sys:id", ystr noteId);
        ("sys:flavour", ystr "affine:note");
        ("sys:version", YPrim (JNum 1));
        ("sys:children", YArray [])].

Definition yval_truthy (v : option yval) : bool :=
  match v with
  | None => false
  | Some (YPrim p) => truthy p
  | Some _ => true
  end.

(** The body of the transaction of [appendText] on the map [blocks];
    [None] where it throws. *)
Definition append_paragraph (blocks : ymap) (noteId paraId txt : string)
    : option ymap :=
  let b1 := ymap_set blocks paraId (paragraph_block paraId txt) in
  let b2 := if negb (yval_truthy (ymap_get b1 noteId))
            then ymap_set b1 noteId (stub_note noteId)
            else b1 in
  match ymap_get b2 noteId with
  | Some (YMap note) =>
      match ymap_get note "sys:children" with
      | Some (YArray kids) =>
          Some (ymap_set b2 noteId
                  (YMap (ymap_set note "sys:children"
                           (YArray (kids ++ [ystr paraId])%list))))
      | _ => None
      end
  | _ => None
  end.

(** The base64 text of a pulled state: [missing] when it is a string,
    else [state] when it is a string. *)
Definition snapshot_of (pulled : jsval) : option string :=
  match opt_prop pulled "missing" with
  | JStr s => Some s
  | _ => match opt_prop pulled "state" with
         | JStr s => Some s
         | _ => None
         end
  end.

(** The pull of [appendText]: the document to extend and whether a
    snapshot was replayed into it.  Where the replay throws, the
    document is left as it was. *)
Definition pull_document {Y : YjsLib} (w : world) (t : RealtimeTransport)
    (ws docId : string) : M (ydoc * bool) :=
  try_catch
    (pulled <- do_emit_withTimeout w t "space:load-doc" (JObj (doc_payload ws docId)) ;;
     match snapshot_of pulled with
     | None => ret ([], false)
     | Some b64 =>
         if String.eqb b64 "" then ret ([], false)
         else
           let buf := fromBase64 b64 in
           if (byteLength buf =? 0)%nat then ret ([], false)
           else match applyUpdate buf with
                | Some d => ret (d, true)
                | None => throw (JsError "applyUpdate" None)
                end
     end)
    (fun _ => ret ([], false)).

(** The note to extend: looked up in a pulled document, derived from
    the document id otherwise. *)
Definition note_to_extend (docId : string) (doc : ydoc) (havePulled : bool)
    : M (option string) :=
  if havePulled
  then match locate_note (getMap doc "blocks") with
       | Some nid => ret nid
       | None => throw (TypeError "get")
       end
  else ret (Some ("note:" ++ docId)).

Definition accepted_of (res : jsval) : bool :=
  match opt_prop res "accepted" with
  | JBool false => false
  | _ => true
  end.

(** The first half of the [try] block of [appendText]: the join, the
    pull, the note lookup and the transaction, up to the update to
    push. *)
Definition appendText_update {Y : YjsLib} (w : world) (opts : AppendTextOptions)
    (t : RealtimeTransport) : M update :=
  let ws := workspaceId (append_base opts) in
  let docId := append_docId opts in
  joinWorkspace t ws (version_of (append_base opts)) ;;;
  pulled <- pull_document w t ws docId ;;
  let doc := fst pulled in
  located <- note_to_extend docId doc (snd pulled) ;;
  match located with
  | None =>
      throw (JsError "append failed: could not locate note block under page" None)
  | Some noteId =>
      if String.eqb noteId "" then
        throw (JsError "append failed: could not locate note block under page" None)
      else
        ms <- Date_now w ;;
        r <- randId w 6 ;;
        let paraId := "p:" ++ toString36 ms ++ r in
        match append_paragraph (getMap doc "blocks") noteId paraId (text opts) with
        | None => throw (TypeError "push")
        | Some blocks' => ret (encodeStateAsUpdate (setMap doc "blocks" blocks'))
        end
  end.

(** The [try] block of [appendText], with the transport in use: the
    push of that update and the check of its acknowledgement. *)
Definition appendText_try {J : JsonLib} {Y : YjsLib} (w : world) (opts : AppendTextOptions)
    (t : RealtimeTransport) : M Appended :=
  u <- appendText_update w opts t ;;
  res <- do_emit t "space:push-doc-update"
           (push_payload (workspaceId (append_base opts)) (append_docId opts) u) ;;
  ensureAckOk res "space:push-doc-update" ;;;
  ret {| accepted := accepted_of res;
         appended_timestamp := opt_prop res "timestamp" |}.

Definition appendText {J : JsonLib} {Y : YjsLib} (w : world) (opts : AppendTextOptions)
    : M Appended :=
  t <- ensureTransport w (append_base opts) ;;
  finally (appendText_try w opts t) (close_if (needClose (append_base opts))).

(** ** deleteDocRealtime *)

Record DeleteDocRealtimeOptions := {
  delete_base : RealtimeOptions;
  delete_docId : string
}.

(** The [try] block of [deleteDocRealtime], with the transport in use. *)
Definition deleteDocRealtime_try {J : JsonLib} (opts : DeleteDocRealtimeOptions)
    (t : RealtimeTransport) : M bool :=
  let ws := workspaceId (delete_base opts) in
  joinWorkspace t ws (version_of (delete_base opts)) ;;;
  ack <- do_emit t "space:delete-doc" (JObj (doc_payload ws (delete_docId opts))) ;;
  ensureAckOk ack "space:delete-doc" ;;;
  ret true.

Definition deleteDocRealtime {J : JsonLib} (w : world) (opts : DeleteDocRealtimeOptions)
    : M bool :=
  t <- ensureTransport w (delete_base opts) ;;
  finally (deleteDocRealtime_try opts t) (close_if (needClose (delete_base opts))).

End Yjs.

(* ================================================================== *)
(** * A stand-in for the CRDT library *)
(* ================================================================== *)

(** An instance of [YjsLib] to run the operations on concrete inputs: an
    update is the state it carries, its base64 text is a rendering of
    that state, and no text decodes to an update that has bytes. *)
Module RefYjs.
Import Js Yjs.

Fixpoint render (v : yval) : jsval :=
  match v with
  | YPrim p => p
  | YText t => JObj [("text", JStr t)]
  | YArray l => JArr (map render l)
  | YMap m =>
      JObj ((fix entries (l : list (string * yval)) : list (string * jsval) :=
               match l with
               | [] => []
               | (k, x) :: rest => (k, render x) :: entries rest
               end) m)
  end.

Definition render_doc (d : ydoc) : string :=
  RefJson.stringify (JObj (map (fun r => (fst r, render (YMap (snd r)))) d)).

#[export] Instance yjs : YjsLib :=
  {| update := ydoc;
     encodeStateAsUpdate := fun d => d;
     applyUpdate := fun u => Some u;
     apply_encode := fun d => eq_refl;
     toBase64 := render_doc;
     fromBase64 := fun _ => [];
     Buffer_from := fun _ => None;
     byteLength := fun u => List.length u |}.

(** The same library over a server that keeps one document: every text
    that is not empty decodes to the update of [stored]. *)
Definition holding (stored : ydoc) : YjsLib :=
  {| update := ydoc;
     encodeStateAsUpdate := fun d => d;
     applyUpdate := fun u => Some u;
     apply_encode := fun d => eq_refl;
     toBase64 := render_doc;
     fromBase64 := fun s => if String.eqb s "" then [] else stored;
     Buffer_from := fun _ => None;
     byteLength := fun u => List.length u |}.

End RefYjs.

(* ================================================================== *)
(** * GraphQL client (src/graphql.ts) *)
(* ================================================================== *)

Module Graphql.
Import Js Http.

(** What [gql] and its helpers throw: the error of the HTTP engine, the
    error built from the [errors] of an envelope, a [TypeError] or
    [SyntaxError] of the platform, named here by the operation that
    raised it, or an error of a helper. *)
Inductive GqlFailure :=
| Transport (e : HttpError)
| GraphqlErrors (message : string) (errors : jsval)
| PlatformError (what : string)
| HelperError (message : string).

(** [v?.k]. *)
Definition optional (v : jsval) (k : string) : jsval :=
  if is_nullish v then JUndefined else get_prop v k.

(** [v.k], which throws on null and undefined. *)
Definition member (v : jsval) (k : string) : outcome GqlFailure jsval :=
  if is_nullish v then Throw (PlatformError ("Cannot read properties: " ++ k))
  else Return (get_prop v k).

(** The options of [request] as [postJson] sets them: a JSON response,
    the caller's timeout, the default number of attempts. *)
Definition postJson_options (timeout : option Z) : RequestOptions :=
  {| timeoutMs := timeout; maxAttempts := None; retryOnStatus := None;
     responseType := Some TypeJson |}.

Definition postJson {J : JsonLib} (timeout : option Z) (net : network)
    : outcome HttpError HttpResponse :=
  fst (request (postJson_options timeout) net).

(** The inner [try] block of the [catch] clause of [gql]: the attempt
    to find GraphQL errors in the body of a failed response. *)
Definition diagnose {J : JsonLib} (body : string) : outcome GqlFailure unit :=
  match JSON_parse body with
  | None => Throw (PlatformError "JSON.parse")
  | Some parsed =>
      let errors := optional parsed "errors" in
      if truthy errors && truthy (length_of errors) then
        match errors with
        | JArr ers =>
            Throw (GraphqlErrors
                     (join_values "; "
                        (map (fun er =>
                                if truthy (optional er "message")
                                then optional er "message" else JStr "error")
                             ers))
                     errors)
        | _ => Throw (PlatformError "errors.map")
        end
      else Return tt
  end.

(** [try { m } catch { }] around a block that returns nothing: what
    the block throws is dropped. *)
Definition dropping {E} (m : outcome E unit) : outcome E unit :=
  match m with
  | Return u => Return u
  | Throw _ => Return tt
  end.

(** The [catch] clause of [gql]: for a failed response that has a body,
    the inner [try] with its empty [catch]; then [throw err]. *)
Definition on_post_error {J : JsonLib} (err : HttpError) : outcome GqlFailure jsval :=
  let body := match response err with
              | Some (_, _, Some raw) => Some raw
              | _ => None
              end in
  match (match body with
         | Some raw => dropping (diagnose raw)
         | None => Return tt
         end) with
  | Return _ => Throw (Transport err)
  | Throw e => Throw e
  end.

(** The data of a response that [postJson] decoded. *)
Definition json_of (res : HttpResponse) : jsval :=
  match res_data res with
  | DataJson v => v
  | DataText s => JStr s
  | DataBuffer raw => JObj []
  end.

(** The part of [gql] after the [try]: the envelope of the response. *)
Definition on_envelope (body : jsval) : outcome GqlFailure jsval :=
  let envelope := if truthy body then body else JObj [] in
  let data := get_prop envelope "data" in
  let errors := get_prop envelope "errors" in
  if truthy errors && truthy (length_of errors) then
    match errors with
    | JArr ers =>
        if existsb is_nullish ers then Throw (PlatformError "er.message")
        else Throw (GraphqlErrors
                      (join_values "; " (map (fun er => get_prop er "message") ers))
                      errors)
    | _ => Throw (PlatformError "errors.map")
    end
  else Return (if is_nullish data then JObj [] else data).

(** [gql(query, variables, opts)]: the query and its variables are the
    body of the POST, and [net] is what the server does with it. *)
Definition gql {J : JsonLib} (timeout : option Z) (net : network)
    : outcome GqlFailure jsval :=
  match postJson timeout net with
  | Throw err => on_post_error err
  | Return res => on_envelope (json_of res)
  end.

(** The message of what was thrown, [err?.message]. *)
Definition failure_message (e : GqlFailure) : string :=
  match e with
  | Transport err => message err
  | GraphqlErrors m _ => m
  | PlatformError what => what
  | HelperError m => m
  end.

(** ** Documents *)

(** What [deleteDoc] makes of the field [deleteDoc] of the data. *)
Definition deleted_of (v : jsval) : bool :=
  match v with
  | JBool b => b
  | JStr _ => true
  | _ => if truthy v && is_object_type v && has_prop v "id" then true else truthy v
  end.

(** [getDoc], given what the query returns and what the cross-check
    with [read_document] gives: the node, or [null]. *)
Definition getDoc {E} (answer : outcome GqlFailure jsval)
    (readDocument : outcome E string) : outcome GqlFailure jsval :=
  match answer with
  | Throw e => Throw e
  | Return data =>
      match member (get_prop data "workspace") "doc" with
      | Throw e => Throw e
      | Return found =>
          let doc := if is_nullish found then JNull else found in
          if negb (truthy doc) then Return JNull
          else
            match readDocument with
            | Return markdown =>
                let text := toLowerCase markdown in
                if includes text "doc with id" && includes text "not found"
                then Return JNull
                else Return doc
            | Throw _ => Return doc
            end
      end
  end.

(** ** Comments *)

(** [gather(n, acc)] of [listComments]: the texts of a rich content,
    in depth-first order. *)
Fixpoint gather (n : jsval) : list string :=
  if negb (truthy n) then []
  else
    ((match get_prop n "text" with
      | JStr t => [t]
      | _ => []
      end)
     ++ match n with
        | JObj props =>
            (fix content_of (l : list (string * jsval)) : list string :=
               match l with
               | [] => []
               | (k, v) :: rest =>
                   if String.eqb "content" k
                   then match v with
                        | JArr children =>
                            (fix each (cs : list jsval) : list string :=
                               match cs with
                               | [] => []
                               | c :: more => gather c ++ each more
                               end) children
                        | _ => []
                        end
                   else content_of rest
               end) props
        | _ => []
        end)%list.

(** The text that [listComments] shows for a comment of content
    [content]. *)
Definition comment_text (content : jsval) : string :=
  if truthy content then trim (join " " (gather content)) else "".

(** The input that [addComment] sends for the text [text]. *)
Definition comment_input (workspaceId docId text : string) : jsval :=
  JObj [("workspaceId", JStr workspaceId);
        ("docId", JStr docId);
        ("docMode", JStr "page");
        ("docTitle", JStr (if String.eqb (slice text 0 (Some 80)) "" then "Comment"
                           else slice text 0 (Some 80)));
        ("content", JObj [("type", JStr "paragraph");
                          ("content", JArr [JObj [("type", JStr "text");
                                                  ("text", JStr text)]])])].

End Graphql.

(* ================================================================== *)
(** * Who am I (src/auth.ts) *)
(* ================================================================== *)

Module Auth.
Import Js Graphql.

(** What one probe tells: the user or [null], or [undefined], the sign
    to try the next probe. *)
Inductive probe :=
| Known (user : jsval)
| TryNext.

(** [tryQuery(query, field, opts)], given what [gql] gives for the
    query. *)
Definition tryQuery (answer : outcome GqlFailure jsval) (field : string) : probe :=
  match answer with
  | Return data =>
      let user := get_prop data field in
      if negb (truthy user) then Known JNull
      else Known (JObj [("id", get_prop user "id");
                        ("email", if is_nullish (get_prop user "email") then JNull
                                  else get_prop user "email")])
  | Throw err =>
      let msg := toLowerCase (failure_message err) in
      if includes msg "unauthenticated" || includes msg "unauthorized"
         || includes msg "forbidden" || includes msg "not authenticated"
      then Known JNull
      else TryNext
  end.

(** [whoami(opts)], given what [gql] gives for the query of each
    field; with the fields that were probed, in order. *)
Definition whoami (ask : string -> outcome GqlFailure jsval)
    : outcome string jsval * list string :=
  match tryQuery (ask "me") "me" with
  | Known r1 => (Return r1, ["me"])
  | TryNext =>
      match tryQuery (ask "currentUser") "currentUser" with
      | Known r2 => (Return r2, ["me"; "currentUser"])
      | TryNext =>
          match tryQuery (ask "viewer") "viewer" with
          | Known r3 => (Return r3, ["me"; "currentUser"; "viewer"])
          | TryNext =>
              (Throw "Unable to determine current user (no compatible GraphQL user field)",
               ["me"; "currentUser"; "viewer"])
          end
      end
  end.

End Auth.

(* ================================================================== *)
(** * Configuration (src/config.ts) *)
(* ================================================================== *)

Module Config.
Import Js Credentials.

Definition DEFAULTS : list (string * jsval) :=
  [("apiBaseUrl", JStr "https://api.affine.pro")].

Definition isObject (v : jsval) : bool :=
  match v with
  | JObj _ => true
  | _ => false
  end.

(** One turn of the loop of [deepMerge]: the entry [k], [v] of [b]
    merged into [out], with [merge] the merge of two objects. *)
Definition merge_entry (merge : jsval -> jsval -> jsval)
    (out : list (string * jsval)) (k : string) (v : jsval)
    : list (string * jsval) :=
  if isObject v && isObject (get_prop (JObj out) k)
  then assign out k (merge (get_prop (JObj out) k) v)
  else match v with
       | JUndefined => out
       | _ => assign out k v
       end.

(** [deepMerge(a, b)], for the objects [b] that the callers pass. *)
Fixpoint deepMerge (a b : jsval) {struct b} : jsval :=
  match b with
  | JObj pb =>
      JObj ((fix over (l : list (string * jsval)) (out : list (string * jsval))
               : list (string * jsval) :=
               match l with
               | [] => out
               | (k, v) :: rest =>
                   over rest (merge_entry (fun x _ => deepMerge x v) out k v)
               end) pb (spread a))
  | _ => JObj (spread a)
  end.

(** [Object.assign(out, src)]. *)
Definition assign_all (out src : list (string * jsval)) : list (string * jsval) :=
  fold_left (fun o kv => assign o (fst kv) (snd kv)) src out.

Definition set_text (env : ProcessEnv) (var : string) : bool :=
  match env var with
  | Some s => negb (String.eqb s "")
  | None => false
  end.

Definition normalizeEnv (env : ProcessEnv) : list (string * jsval) :=
  let out := [] in
  let out := if set_text env "AFFINE_PROFILE"
             then assign out "profile" (JStr (or_default (env "AFFINE_PROFILE") ""))
             else out in
  let out := if set_text env "AFFINE_API_BASE_URL"
             then assign out "apiBaseUrl"
                    (JStr (or_default (env "AFFINE_API_BASE_URL") ""))
             else out in
  assign_all out (spread (readCredentialsFromEnv env)).

Definition pickBaseFromFile (fileCfg : jsval) : list (string * jsval) :=
  if negb (isObject fileCfg) then []
  else omit (omit (spread fileCfg) "profiles") "profile".

(** The name of the profile that the file itself selects. *)
Definition file_profile (fileCfg : jsval) : option string :=
  match get_prop fileCfg "profile" with
  | JStr s => Some s
  | _ => None
  end.

Definition applyProfile (fileCfg : jsval) (desiredProfile : option string)
    : list (string * jsval) :=
  if negb (isObject fileCfg) then []
  else if negb (isObject (get_prop fileCfg "profiles")) then []
  else
    let name := match desiredProfile with
                | Some n => Some n
                | None => file_profile fileCfg
                end in
    match name with
    | None => []
    | Some n =>
        if String.eqb n "" then []
        else
          let selected := get_prop (get_prop fileCfg "profiles") n in
          if negb (isObject selected) then [] else spread selected
    end.

Record LoadConfigOptions := {
  profile : option string;
  overrides : option (list (string * jsval))
}.

(** [loadConfig(opts)], given the environment and what the read of the
    configuration file gave: [None] for a file that does not exist. *)
Definition loadConfig (opts : LoadConfigOptions) (env : ProcessEnv)
    (fileCfg : option jsval) : jsval :=
  let merged := JObj DEFAULTS in
  let merged :=
    match fileCfg with
    | Some file =>
        if truthy file then
          let base := pickBaseFromFile file in
          let merged := deepMerge merged (JObj base) in
          let profFromEnv := match get_prop (JObj (normalizeEnv env)) "profile" with
                             | JStr s => Some s
                             | _ => None
                             end in
          let profileName := match profile opts with
                             | Some n => Some n
                             | None => match profFromEnv with
                                       | Some n => Some n
                                       | None => file_profile file
                                       end
                             end in
          let prof := applyProfile file profileName in
          match prof, profileName with
          | _ :: _, Some n =>
              JObj (assign (spread (deepMerge merged (JObj prof))) "profile" (JStr n))
          | _ :: _, None => deepMerge merged (JObj prof)
          | [], Some n =>
              if String.eqb n "" then merged
              else JObj (assign (spread merged) "profile" (JStr n))
          | [], None => merged
          end
        else merged
    | None => merged
    end in
  let envCfg := normalizeEnv env in
  let merged := deepMerge merged (JObj envCfg) in
  match overrides opts with
  | Some ov =>
      match ov with
      | [] => merged
      | _ => deepMerge merged (JObj ov)
      end
  | None => merged
  end.

End Config.

(* ================================================================== *)
(** * Output formatting and hints (src/format.ts, src/errors.ts) *)
(* ================================================================== *)

Module Format.
Import Js.

(** [str(v)]. *)
Definition str (v : jsval) : string :=
  match v with
  | JNull | JUndefined => ""
  | _ => to_String v
  end.

Definition padEnd (s : string) (w : nat) : string :=
  if (w <=? String.length s)%nat then s
  else s ++ repeat " " (w - String.length s).

(** [Math.max(c.length, ...rows.map((r) => str(r[c]).length))]. *)
Definition width (rows : list jsval) (c : string) : nat :=
  fold_left Nat.max
    (map (fun r => String.length (str (get_prop r c))) rows)
    (String.length c).

(** The parts of the line of one row: [columns.forEach((c, idx) => ...)]. *)
Definition parts (r : jsval) (columns : list string) (widths : list nat)
    : list string :=
  map (fun ic =>
         let idx := fst ic in
         let s := str (get_prop r (snd ic)) in
         if (idx =? List.length columns - 1)%nat then s
         else padEnd s (nth idx widths 0%nat))
      (combine (seq 0 (List.length columns)) columns).

Definition toTable (rows : list jsval) (columns : list string) : list string :=
  let widths := map (width rows) columns in
  map (fun r => join " " (parts r columns widths)) rows.

(** [withHints(message, hints)] of src/errors.ts. *)
Definition withHints (message : string) (hints : option (list string)) : string :=
  let kept := filter (fun h => negb (String.eqb h ""))
                     (match hints with Some l => l | None => [] end) in
  if (List.length kept =? 0)%nat then message
  else
    let newline := String (ascii_of_nat 10) EmptyString in
    let suffix := join newline
                    ("" :: "Hints:" :: map (fun h => " - " ++ h) kept) in
    message ++ newline ++ suffix.

End Format.

(* ================================================================== *)
(** * The vocabulary of the statements *)
(* ================================================================== *)

Section RedactionVocabulary.
Import Js Credentials.

(** The text that [redactValue] masks. *)
Definition secret_text (value : jsval) : string :=
  if is_nullish value then "" else to_String value.

(** What the default redaction lets through of a text longer than six
    code units. *)
Definition visible_part (s : string) : string * nat * string :=
  (substring 0 4 s, String.length s, substring (String.length s - 2) 2 s).

End RedactionVocabulary.

Section HttpVocabulary.
Import Js Http.
Context {J : JsonLib}.

(** The per-attempt deadline was exceeded: the HTTP library threw its
    headers-timeout or body-timeout error. *)
Definition deadline_exceeded (e : thrown) : Prop :=
  t_code e = JStr "UND_ERR_HEADERS_TIMEOUT" \/ t_code e = JStr "UND_ERR_BODY_TIMEOUT".

End HttpVocabulary.

Section McpVocabulary.
Import Js Http Mcp.
Context {J : JsonLib}.

(** The JSON text of a line of the stream, when the line is a [data:]
    line that carries one. *)
Definition data_chunk (line : string) : option string :=
  if startsWith line "data:" then
    let json := trim (slice line 5 None) in
    if String.eqb json "" then None else Some json
  else None.

(** No line of the list carries a text that parses. *)
Definition unparsed (lines : list string) : Prop :=
  forall line json, In line lines -> data_chunk line = Some json ->
                    JSON_parse json = None.

(** The envelope of a JSON-RPC error with a message that is not empty. *)
Definition rpc_error_of (err : jsval) : RpcError :=
  {| rpc_message := if truthy (get_prop err "message")
                    then to_String (get_prop err "message") else "MCP error";
     rpc_code := get_prop err "code";
     rpc_data := get_prop err "data" |}.

(** [Array.isArray(v)]. *)
Definition is_array (v : jsval) : bool :=
  match v with
  | JArr _ => true
  | _ => false
  end.

(** The items that an answer of a search tool brings: its [results]
    when they are an array, else its [items] when they are one, else the
    answer itself when it is an array. *)
Definition brings (out : jsval) (l : list jsval) : Prop :=
  get_prop out "results" = JArr l
  \/ (is_array (get_prop out "results") = false /\ get_prop out "items" = JArr l)
  \/ (is_array (get_prop out "results") = false
      /\ is_array (get_prop out "items") = false /\ out = JArr l).

End McpVocabulary.

Section SearchVocabulary.
Import Js Search.

Definition no_tool_search (log : list call) : Prop :=
  ~ In CallKeywordSearch log.

End SearchVocabulary.

Section BlockVocabulary.
Import Js Yjs.
Context {Y : YjsLib}.

Definition flavour_of (b : yval) : option string :=
  match b with
  | YMap m =>
      match ymap_get m "sys:flavour" with
      | Some (YPrim (JStr s)) => Some s
      | _ => None
      end
  | _ => None
  end.

Definition children (b : yval) : list yval :=
  match b with
  | YMap m =>
      match ymap_get m "sys:children" with
      | Some (YArray l) => l
      | _ => []
      end
  | _ => []
  end.

Definition text_of (b : yval) : option string :=
  match b with
  | YMap m =>
      match ymap_get m "prop:text" with
      | Some (YText s) => Some s
      | _ => None
      end
  | _ => None
  end.

Definition has_flavour (fl : string) (entry : string * yval) : bool :=
  match flavour_of (snd entry) with
  | Some s => String.eqb s fl
  | None => false
  end.

End BlockVocabulary.

Section RealtimeVocabulary.
Import Js Yjs.
Context {J : JsonLib} {Y : YjsLib}.

Definition is_emit (ev : tevent) : Prop :=
  match ev with
  | TEmit _ _ => True
  | _ => False
  end.

(** A computation whose only marks on the trace are emits. *)
Definition emits_only {A} (m : M A) : Prop :=
  forall st, exists es,
    trace (snd (m st)) = (trace st ++ es)%list /\ Forall is_emit es.

Definition closes (ev : tevent) : bool :=
  match ev with
  | TClose => true
  | _ => false
  end.

(** The shape shared by the three operations: acquire the transport,
    run the [try] block, close in [finally] a transport of one's own. *)
Definition guarded {A} (w : world) (ro : RealtimeOptions)
    (body : RealtimeTransport -> M A) : M A :=
  t <- ensureTransport w ro ;;
  finally (body t) (close_if (needClose ro)).

(** The text with which [ensureAckOk] rejects an acknowledgement. *)
Definition failure_text (ack : jsval) : option string :=
  match extractRealtimeError ack with
  | Some msg => if String.eqb msg "" then None else Some msg
  | None => None
  end.

Definition ack_failure (op msg : string) (ack : jsval) : exn :=
  JsError ("realtime " ++ op ++ " failed: " ++ msg) (Some ack).

(** The transport that an operation works with, when it gets one. *)
Definition transport_in_use (w : world) (ro : RealtimeOptions)
    : option RealtimeTransport :=
  match transport ro with
  | Some t => Some t
  | None =>
      match connect (socket w) with
      | Return _ => Some (socket w)
      | Throw _ => None
      end
  end.

(** The state in which the [try] block starts. *)
Definition entered (ro : RealtimeOptions) (st : state) : state :=
  match transport ro with
  | Some _ => st
  | None => record TConnect st
  end.

Definition never_silent (t : RealtimeTransport) : Prop :=
  forall h ev p, emit t h ev p <> Silent.

(** The pulled value holds a snapshot with bytes in it. *)
Definition has_snapshot (pulled : jsval) : bool :=
  match snapshot_of pulled with
  | Some b64 => negb (String.eqb b64 "") && negb (byteLength (fromBase64 b64) =? 0)%nat
  | None => false
  end.

(** The pull gives nothing to replay: the timer fires first, or the
    emit is rejected or never answered, or its answer has no snapshot. *)
Definition degraded (w : world) (r : reply) : Prop :=
  pull_timer_first w = true
  \/ match r with
     | Resolves pulled => has_snapshot pulled = false
     | _ => True
     end.

(** The blocks pushed by an append that had nothing to replay: the new
    paragraph and the stub of the note, with the paragraph as its
    child. *)
Definition degraded_blocks (noteId paraId txt : string) : ymap :=
  [(paraId, paragraph_block paraId txt);
   (noteId, YMap [("sys:id", ystr noteId);
                  ("sys:flavour", ystr "affine:note");
                  ("sys:version", YPrim (JNum 1));
                  ("sys:children", YArray [ystr paraId])])].

(** The discipline of [close] for a run that started in the state
    [st]: a transport supplied by the caller sees no [close]; a transport
    of one's own, once connected, is closed exactly once, at the end of a
    run that returns or throws. *)
Definition close_discipline {A} (w : world) (st : state) (ro : RealtimeOptions)
    (run : result A * state) : Prop :=
  (forall t, transport ro = Some t ->
     filter closes (trace (snd run)) = filter closes (trace st))
  /\ (transport ro = None ->
       forall u, connect (socket w) = Return u ->
       fst run <> Hang ->
       exists es,
         trace (snd run) = (trace st ++ TConnect :: es ++ [TClose])%list
         /\ filter closes es = []).

End RealtimeVocabulary.

Section ConfigRedactionVocabulary.
Import Js Credentials.
Local Open Scope nat_scope.

(** A text that shows at most its first four and its last two code
    units: all of it is the mask when it has at most six, and the mask
    fills the positions from 4 up to length-2 otherwise. *)
Definition masked (s : string) : Prop :=
  (String.length s <= 6 -> s = repeat "*" (String.length s))
  /\ (forall i : nat, 4 <= i -> i < String.length s - 2 ->
        String.get i s = Some "*"%char).

(** Every value that sits under a key of [keys], at any depth of
    objects and arrays, is a masked text. *)
Fixpoint all_masked (keys : list string) (v : jsval) : Prop :=
  match v with
  | JArr items =>
      (fix each (l : list jsval) : Prop :=
         match l with
         | [] => True
         | x :: rest => all_masked keys x /\ each rest
         end) items
  | JObj props =>
      (fix each (l : list (string * jsval)) : Prop :=
         match l with
         | [] => True
         | (k, x) :: rest =>
             (if has_key keys k
              then exists s : string, x = JStr s /\ masked s
              else all_masked keys x)
             /\ each rest
         end) props
  | _ => True
  end.


(** A text with no white space at either end. *)
Definition trimmed (s : string) : Prop :=
  let units := list_ascii_of_string s in
  match hd_error units with Some c => is_space c = false | None => True end
  /\ match hd_error (rev units) with Some c => is_space c = false | None => True end.

End ConfigRedactionVocabulary.

Section RequestVocabulary.
Import Js Http.

(** The events of a call that made [k] attempts from the attempt
    [from] on: one exchange per attempt, and a sleep after each but the
    last. *)
Fixpoint attempt_log (net : network) (from : Z) (k : nat) : list event :=
  match k with
  | O => []
  | S k' =>
      match k' with
      | O => [EvExchange from]
      | S _ =>
          EvExchange from :: EvSleep (backoff_ms net from)
            :: attempt_log net (from + 1) k'
      end
  end.

(** A thrown value that is neither a missed deadline nor an answer with
    a status: a failure of the connection. *)
Definition connection_failure (e : thrown) : Prop :=
  is_timeout_code (error_code e) = false
  /\ match t_statusCode e with
     | JNum st => st = 0
     | _ => True
     end.

(** The value that the caller gave for the header [name], under any
    letter case: that of the last entry whose key is [name] once in
    lower case. *)
Fixpoint given_header (h : Headers) (name : string) : option string :=
  match h with
  | [] => None
  | (k, v) :: rest =>
      match given_header rest name with
      | Some v' => Some v'
      | None => if String.eqb (toLowerCase k) name then Some v else None
      end
  end.

(** What the log shows for the header [k] of value [v]. *)
Definition mask_of (k v : string) : string :=
  if masks_header k then Credentials.redactValue (JStr v) None else v.

(** The value of the last entry of a record under a key. *)
Fixpoint last_value (h : Headers) (k : string) : option string :=
  match h with
  | [] => None
  | (k', v) :: rest =>
      match last_value rest k with
      | Some x => Some x
      | None => if String.eqb k' k then Some v else None
      end
  end.

End RequestVocabulary.

Section ConfigVocabulary.
Import Js Config.

(** What [deepMerge] leaves under a key that held [old] when the second
    object brings [v] for it: the merge of two objects, [old] for an
    undefined [v], and [v] otherwise. *)
Definition merged_value (old v : jsval) : jsval :=
  if isObject v && isObject old then deepMerge old v
  else match v with
       | JUndefined => old
       | _ => v
       end.

End ConfigVocabulary.

Section GraphqlVocabulary.
Import Js Http Graphql Auth.

(** A failure that [tryQuery] reads as "not authenticated". *)
Definition auth_failure (e : GqlFailure) : bool :=
  let msg := toLowerCase (failure_message e) in
  includes msg "unauthenticated" || includes msg "unauthorized"
  || includes msg "forbidden" || includes msg "not authenticated".

(** The probes of [whoami], in order. *)
Definition probed_fields : list string := ["me"; "currentUser"; "viewer"].

(** The markdown of a document that the realtime layer no longer has. *)
Definition reports_missing (markdown : string) : bool :=
  includes (toLowerCase markdown) "doc with id"
  && includes (toLowerCase markdown) "not found".

End GraphqlVocabulary.

Section RealtimeProtocolVocabulary.
Import Js Yjs.

(** The join with which an operation on the workspace of [ro] starts. *)
Definition join_event (ro : RealtimeOptions) : tevent :=
  TEmit "space:join" (join_payload (workspaceId ro) (version_of ro)).

(** What the [finally] block of an operation adds to the trace. *)
Definition closing_of {A} (ro : RealtimeOptions) (r : result A) : list tevent :=
  match r with
  | Hang => []
  | _ => match transport ro with
         | Some _ => []
         | None => [TClose]
         end
  end.

(** A run of an operation that joins the workspace before anything
    else, and does nothing more when the join is not answered. *)
Definition joins_first {A} (t : RealtimeTransport) (ro : RealtimeOptions)
    (st : state) (run : result A * state) : Prop :=
  let st0 := entered ro st in
  let answer := emit t (trace st0) "space:join"
                  (join_payload (workspaceId ro) (version_of ro)) in
  exists rest : list tevent,
    trace (snd run) = (trace st0 ++ join_event ro :: rest)%list
    /\ (forall e : exn,
          answer = Rejects e ->
          fst run = Fail e /\ rest = closing_of ro (fst run))
    /\ (answer = Silent -> fst run = Hang /\ rest = []).

(** A computation that starts with the join of the workspace [ws], and
    ends there when the join is not answered. *)
Definition after_join {A} (t : RealtimeTransport) (ws ver : string) (m : M A)
    : Prop :=
  forall st : state,
    let join := TEmit "space:join" (join_payload ws ver) in
    match emit t (trace st) "space:join" (join_payload ws ver) with
    | Resolves _ =>
        exists es, trace (snd (m st)) = (trace st ++ join :: es)%list
    | Rejects e => m st = (Fail e, record join st)
    | Silent => m st = (Hang, record join st)
    end.

(** The entries of the catalog of a workspace root document. *)
Definition catalog (rootDoc : ydoc) : list yval :=
  match ymap_get (getMap rootDoc "meta") "pages" with
  | Some (YArray l) => l
  | _ => []
  end.

(** A field of an entry of the catalog. *)
Definition entry_field (entry : yval) (k : string) : option yval :=
  match entry with
  | YMap m => ymap_get m k
  | _ => None
  end.

(** The membership test of the catalog. *)
Definition listed (docId : string) (pages : list yval) : bool :=
  existsb (fun e => is_this_id docId (entry_id e)) pages.

(** An answer to the load of the root document that brings the
    snapshot [b64]. *)
Definition root_snapshot (res : jsval) (b64 : string) : Prop :=
  truthy res = true /\ is_object_type res = true /\ has_prop res "error" = false
  /\ b64 <> ""
  /\ (if truthy (get_prop res "missing") then get_prop res "missing"
      else get_prop res "state") = JStr b64.

End RealtimeProtocolVocabulary.

(* ================================================================== *)
(** * Sample inputs *)
(* ================================================================== *)

(** A server that is unavailable twice, then answers with an empty
    body. *)
Definition flaky_net : Http.network :=
  {| Http.exchange_at := fun att =>
       if att <=? 2 then Http.Responds 503 [] "Service Unavailable"
       else Http.Responds 200 [("Content-Type", Http.HOne "application/json")] "";
     Http.jitter_at := fun _ => 0 |}.

Definition with_attempts (n : Z) : Http.RequestOptions :=
  {| Http.timeoutMs := None; Http.maxAttempts := Some n;
     Http.retryOnStatus := None; Http.responseType := None |}.

(** A server whose headers never arrive within the deadline. *)
Definition headers_timeout : Http.thrown :=
  {| Http.t_code := Js.JStr "UND_ERR_HEADERS_TIMEOUT";
     Http.t_statusCode := Js.JUndefined;
     Http.t_message := Js.JStr "Headers timeout" |}.

Definition stalled_net : Http.network :=
  {| Http.exchange_at := fun _ => Http.Fails headers_timeout;
     Http.jitter_at := fun _ => 0 |}.

(** A server that answers every attempt with 200 and a JSON body. *)
Definition json_net (body : string) : Http.network :=
  {| Http.exchange_at := fun _ =>
       Http.Responds 200 [("Content-Type", Http.HOne "application/json")] body;
     Http.jitter_at := fun _ => 0 |}.

(** The configuration file, the environment and the flags of the
    repository's test of [loadConfig]. *)
Definition sample_file : Js.jsval :=
  Js.JObj [("apiBaseUrl", Js.JStr "https://file-base");
           ("profile", Js.JStr "default");
           ("profiles",
            Js.JObj [("default", Js.JObj [("apiBaseUrl", Js.JStr "https://file-default");
                                          ("token", Js.JStr "file-token")]);
                     ("alt", Js.JObj [("apiBaseUrl", Js.JStr "https://file-alt");
                                      ("cookie", Js.JStr "file-cookie")])]);
           ("extra", Js.JObj [("nested", Js.JBool true)])].

Definition sample_env : Credentials.ProcessEnv :=
  fun var =>
    if String.eqb var "AFFINE_PROFILE" then Some "alt"
    else if String.eqb var "AFFINE_API_BASE_URL" then Some "https://env-base"
    else if String.eqb var "AFFINE_TOKEN" then Some "env-token"
    else None.

Definition sample_flags : Config.LoadConfigOptions :=
  {| Config.profile := None;
     Config.overrides := Some [("apiBaseUrl", Js.JStr "https://override");
                               ("extra", Js.JObj [("flag", Js.JNum 1)])] |}.

(** A server that rejects a query with 400 and the GraphQL errors in
    the body. *)
Definition rejected_query_body : string :=
  RefJson.json_text "{'errors':[{'message':'Cannot query field x'}]}".

Definition rejecting_net : Http.network :=
  {| Http.exchange_at := fun _ =>
       Http.Responds 400 [("Content-Type", Http.HOne "application/json")]
         rejected_query_body;
     Http.jitter_at := fun _ => 0 |}.

(** A host that refuses every connection. *)
Definition connection_refused : Http.thrown :=
  {| Http.t_code := Js.JStr "ECONNREFUSED";
     Http.t_statusCode := Js.JUndefined;
     Http.t_message := Js.JStr "connect ECONNREFUSED 127.0.0.1:3010" |}.

Definition refusing_net : Http.network :=
  {| Http.exchange_at := fun _ => Http.Fails connection_refused;
     Http.jitter_at := fun _ => 0 |}.

(** A server that answers a tool call with one event stream. *)
Definition sse_net (body : string) : Http.network :=
  {| Http.exchange_at := fun _ =>
       Http.Responds 200 [("Content-Type", Http.HOne "text/event-stream")] body;
     Http.jitter_at := fun _ => 0 |}.

Definition sse_response (body : string) : Http.HttpResponse :=
  {| Http.res_status := 200;
     Http.res_headers := [("content-type", "text/event-stream")];
     Http.res_data := Http.DataText body;
     Http.res_rawBody := body |}.

Definition two_newlines : string :=
  String Mcp.LF (String Mcp.LF EmptyString).

Definition tool_not_found_stream : string :=
  RefJson.json_text
    "data: {'jsonrpc':'2.0','id':'1','error':{'code':-32601,'message':'tool X not found'}}"
  ++ two_newlines.

Definition tool_not_found_envelope : list (string * Js.jsval) :=
  [("jsonrpc", Js.JStr "2.0"); ("id", Js.JStr "1");
   ("error", Js.JObj [("code", Js.JNum (-32601));
                      ("message", Js.JStr "tool X not found")])].

Definition null_error_stream : string :=
  RefJson.json_text "data: {'jsonrpc':'2.0','id':'1','error':null,'result':7}"
  ++ two_newlines.

Definition progress_stream : string :=
  RefJson.json_text "data: {'jsonrpc':'2.0','method':'notifications/progress'}"
  ++ two_newlines.

(** The indexed search answers with no rows while a [keyword_search]
    tool is available. *)
Definition empty_index_deps : Search.deps :=
  {| Search.searchDocsByKeyword := Js.Return (Some []);
     Search.toolsList := fun _ =>
       Js.Return [{| Search.tool_name := "keyword_search" |}];
     Search.keywordSearch :=
       Js.Return [Js.JObj [("docId", Js.JStr "m1"); ("title", Js.JStr "From MCP");
                           ("snippet", Js.JStr "snippet")]];
     Search.listRecentlyUpdatedDocs :=
       Js.Return {| Search.edges :=
                      Some [{| Search.node_id := "d1";
                               Search.node_title := Some "Hello world" |};
                            {| Search.node_id := "d2";
                               Search.node_title := Some "Another doc" |}] |};
     Search.listDocs := Js.Throw (Search.Rejected "unused");
     Search.readDocument := fun _ => Js.Throw (Search.Rejected "unused") |}.

(** The indexed search throws and the tool finds one document. *)
Definition failing_index_deps : Search.deps :=
  {| Search.searchDocsByKeyword := Js.Throw (Search.Rejected "GraphQL unavailable");
     Search.toolsList := fun _ =>
       Js.Return [{| Search.tool_name := "other" |};
                  {| Search.tool_name := "keyword_search" |}];
     Search.keywordSearch :=
       Js.Return [Js.JObj [("docId", Js.JStr "m1"); ("title", Js.JStr "From MCP");
                           ("snippet", Js.JStr "snippet")]];
     Search.listRecentlyUpdatedDocs := Js.Throw (Search.Rejected "unused");
     Search.listDocs := Js.Throw (Search.Rejected "unused");
     Search.readDocument := fun _ => Js.Throw (Search.Rejected "unused") |}.

(** An index that lags: it knows the document d1 only, while the text
    of d2 holds the query too. *)
Definition indexed_row : Search.SearchDoc :=
  {| Search.sd_docId := Js.JStr "d1"; Search.sd_title := Js.JStr "Roadmap";
     Search.sd_highlight := Js.JStr "the roadmap";
     Search.sd_createdAt := Js.JNull; Search.sd_updatedAt := Js.JNull |}.

Definition lagging_index_deps : Search.deps :=
  {| Search.searchDocsByKeyword := Js.Return (Some [indexed_row]);
     Search.toolsList := fun _ =>
       Js.Return [{| Search.tool_name := "read_document" |}];
     Search.keywordSearch := Js.Throw (Search.Rejected "unused");
     Search.listRecentlyUpdatedDocs :=
       Js.Return {| Search.edges :=
                      Some [{| Search.node_id := "d1";
                               Search.node_title := Some "Roadmap" |};
                            {| Search.node_id := "d2";
                               Search.node_title := Some "Notes" |}] |};
     Search.listDocs := Js.Throw (Search.Rejected "unused");
     Search.readDocument := fun _ => Js.Return "See the Roadmap for Q3" |}.

(** A transport that accepts every emit. *)
Definition quiet_transport : Yjs.RealtimeTransport :=
  {| Yjs.connect := Js.Return tt;
     Yjs.emit := fun _ _ _ => Yjs.Resolves (Js.JObj [("accepted", Js.JBool true)]) |}.

(** A world whose draws spell [aaaa...], then [bbbb...], then
    [cccc...]. *)
Definition sample_world : Yjs.world :=
  {| Yjs.socket := quiet_transport;
     Yjs.pull_timer_first := false;
     Yjs.rand := fun n => (n / 20)%nat;
     Yjs.now := fun _ => 1700000000000 |}.

Definition supplied (t : Yjs.RealtimeTransport) : Yjs.RealtimeOptions :=
  {| Yjs.workspaceId := "ws-1"; Yjs.clientVersion := None; Yjs.transport := Some t |}.

Definition own : Yjs.RealtimeOptions :=
  {| Yjs.workspaceId := "ws-1"; Yjs.clientVersion := None; Yjs.transport := None |}.

Definition create_with (ro : Yjs.RealtimeOptions) : Yjs.CreateDocOptions :=
  {| Yjs.create_base := ro; Yjs.title := "Test Page";
     Yjs.content := Some "First paragraph" |}.

Definition append_with (ro : Yjs.RealtimeOptions) : Yjs.AppendTextOptions :=
  {| Yjs.append_base := ro; Yjs.append_docId := "doc-1";
     Yjs.text := "Second paragraph" |}.

Definition delete_with (ro : Yjs.RealtimeOptions) : Yjs.DeleteDocRealtimeOptions :=
  {| Yjs.delete_base := ro; Yjs.delete_docId := "doc-1" |}.

(** A transport that answers one event in its own way and accepts the
    others. *)
Definition answering (event : string) (r : Yjs.reply) : Yjs.RealtimeTransport :=
  {| Yjs.connect := Js.Return tt;
     Yjs.emit := fun _ ev _ =>
       if String.eqb ev event then r
       else Yjs.Resolves (Js.JObj [("accepted", Js.JBool true);
                                   ("timestamp", Js.JNum 42)]) |}.

Definition quota_ack : Js.jsval := Js.JObj [("error", Js.JStr "quota exceeded")].

Definition null_error_ack : Js.jsval := Js.JObj [("error", Js.JNull)].

Definition null_error_transport : Yjs.RealtimeTransport :=
  {| Yjs.connect := Js.Return tt;
     Yjs.emit := fun _ _ _ => Yjs.Resolves null_error_ack |}.

Definition timed_out : Yjs.reply :=
  Yjs.Rejects (Yjs.JsError "operation has timed out" None).

(** A server that cannot be reached: the connection of a transport of
    one's own is refused. *)
Definition unreachable_world : Yjs.world :=
  {| Yjs.socket := {| Yjs.connect := Js.Throw (Yjs.JsError "realtime connect timeout" None);
                      Yjs.emit := fun _ _ _ => Yjs.Silent |};
     Yjs.pull_timer_first := false;
     Yjs.rand := fun n => (n / 20)%nat;
     Yjs.now := fun _ => 1700000000000 |}.

Definition after_connect : Yjs.state :=
  {| Yjs.trace := [Yjs.TConnect]; Yjs.draws := 0; Yjs.ticks := 0 |}.

(** A document as [createDoc] leaves it, a document that has a
    paragraph and no page, and the answer of a server that sends a
    snapshot. *)
Definition stored_page : Yjs.ydoc :=
  Yjs.scaffold "page:doc-1" "note:doc-1" (Some "p:first") (Some "Test Page")
    (Some "First paragraph").

Definition stored_paragraph : Yjs.ydoc :=
  Yjs.setMap [] "blocks" [("p:first", Yjs.paragraph_block "p:first" "First paragraph")].

Definition snapshot_reply : Yjs.reply :=
  Yjs.Resolves (Js.JObj [("missing", Js.JStr "c25hcHNob3Q=")]).

(** A workspace root document whose catalog lists one document. *)
Definition stored_root : Yjs.ydoc :=
  Yjs.setMap [] "meta"
    [("pages", Yjs.YArray [Yjs.doc_meta "doc-0" (Some "Older page") 1600000000000])].

(* ================================================================== *)
(** * Properties of the redaction *)
(* ================================================================== *)

Section RedactionProperties.
Import Js Credentials.

Lemma length_append (a b : string) :
  String.length (a ++ b) = (String.length a + String.length b)%nat.
Proof. induction a as [|c a IH]; simpl; [reflexivity | now rewrite IH]. Qed.

Lemma length_repeat_star (n : nat) : String.length (repeat "*" n) = n.
Proof. induction n as [|n IH]; simpl; [reflexivity | now rewrite IH]. Qed.

Lemma get_repeat_star (n i : nat) :
  (i < n)%nat -> String.get i (repeat "*" n) = Some "*"%char.
Proof.
  revert i; induction n as [|n IH]; intros i Hi; [lia|].
  destruct i as [|i]; simpl; [reflexivity | apply IH; lia].
Qed.

Lemma length_substring (s : string) (n m : nat) :
  (n + m <= String.length s)%nat -> String.length (substring n m s) = m.
Proof.
  revert n m; induction s as [|c s IH]; intros n m H; simpl in *.
  - destruct n, m; simpl in *; try reflexivity; lia.
  - destruct n as [|n].
    + destruct m as [|m]; simpl; [reflexivity|]. rewrite IH; [reflexivity | simpl; lia].
    + apply IH; lia.
Qed.

Lemma get_append_right (a b : string) (i : nat) :
  (String.length a <= i)%nat ->
  String.get i (a ++ b) = String.get (i - String.length a) b.
Proof.
  intros H.
  rewrite (append_correct2 a b (i - String.length a)).
  f_equal; lia.
Qed.

Lemma redactValue_long (value : jsval) :
  let s := secret_text value in
  (6 < String.length s)%nat ->
  redactValue value None =
    substring 0 4 s ++ repeat "*" (String.length s - 6)
      ++ substring (String.length s - 2) 2 s.
Proof.
  intros s Hlen. unfold redactValue, secret_text in *. simpl or_default.
  fold s. unfold len.
  destruct (Z.of_nat (String.length s) =? 0) eqn:E0; [apply Z.eqb_eq in E0; lia|].
  destruct (Z.of_nat (String.length s) <=? 4 + 2) eqn:E6; [apply Z.leb_le in E6; lia|].
  unfold slice, len.
  assert (H4 : (4 <? 0) = false) by reflexivity.
  assert (H0 : (0 <? 0) = false) by reflexivity.
  assert (H2 : (- (2) <? 0) = true) by reflexivity.
  rewrite H4, H0, H2.
  f_equal; [f_equal; lia | f_equal; [f_equal; lia | f_equal; lia]].
Qed.

(** C10.  With the default options [redactValue] lets through at most the
    first four and the last two code units of the text it is given: a
    null, undefined or empty value gives the empty string; a text of at
    most six code units gives a run of ['*'] of the same length; a longer
    text gives its four-unit head, a run of ['*'] over the middle and its
    two-unit tail.  Hence every position from 4 up to length-2 of the
    output holds the mask, the output has the length of the text, and two
    texts with the same length, head and tail are redacted to the same
    string, whatever their middles are. *)
Theorem redactValue_default_reveals_head_and_tail :
  (forall value : jsval,
     let s := secret_text value in
     let n := String.length s in
     redactValue value None =
       (if (n =? 0)%nat then ""
        else if (n <=? 6)%nat then repeat "*" n
        else substring 0 4 s ++ repeat "*" (n - 6) ++ substring (n - 2) 2 s)
     /\ String.length (redactValue value None) = n
     /\ (forall i : nat, (4 <= i)%nat -> (i < n - 2)%nat ->
           String.get i (redactValue value None) = Some "*"%char))
  /\ redactValue JNull None = ""
  /\ redactValue JUndefined None = ""
  /\ redactValue (JStr "") None = ""
  /\ (forall v1 v2 : jsval,
        visible_part (secret_text v1) = visible_part (secret_text v2) ->
        (6 < String.length (secret_text v1))%nat ->
        redactValue v1 None = redactValue v2 None).
Proof.
  split; [|split; [reflexivity|split; [reflexivity|split; [reflexivity|]]]].
  - intros value s n.
    assert (Hshape : redactValue value None =
      (if (n =? 0)%nat then ""
       else if (n <=? 6)%nat then repeat "*" n
       else substring 0 4 s ++ repeat "*" (n - 6) ++ substring (n - 2) 2 s)).
    { destruct (n =? 0)%nat eqn:E0.
      - apply Nat.eqb_eq in E0. unfold redactValue; simpl or_default.
        fold (secret_text value); fold s. unfold len. fold n. rewrite E0. reflexivity.
      - apply Nat.eqb_neq in E0.
        destruct (n <=? 6)%nat eqn:E6.
        + apply Nat.leb_le in E6. unfold redactValue; simpl or_default.
          fold (secret_text value); fold s. unfold len. fold n.
          destruct (Z.of_nat n =? 0) eqn:Z0; [apply Z.eqb_eq in Z0; lia|].
          destruct (Z.of_nat n <=? 4 + 2) eqn:Z6; [|apply Z.leb_gt in Z6; lia].
          f_equal; lia.
        + apply Nat.leb_gt in E6. apply redactValue_long. exact E6. }
    split; [exact Hshape|]. rewrite Hshape.
    destruct (n =? 0)%nat eqn:E0.
    { apply Nat.eqb_eq in E0. split; [simpl; lia | intros; lia]. }
    destruct (n <=? 6)%nat eqn:E6.
    { apply Nat.leb_le in E6. split; [apply length_repeat_star | intros; lia]. }
    apply Nat.leb_gt in E6.
    assert (H4 : String.length (substring 0 4 s) = 4%nat)
      by (apply length_substring; fold n; lia).
    assert (H2 : String.length (substring (n - 2) 2 s) = 2%nat)
      by (apply length_substring; fold n; lia).
    split.
    + rewrite !length_append, H4, H2, length_repeat_star. lia.
    + intros i Hlo Hhi.
      rewrite get_append_right by (rewrite H4; exact Hlo).
      rewrite H4, <- append_correct1 by (rewrite length_repeat_star; lia).
      apply get_repeat_star. lia.
  - intros v1 v2 Hvis Hlen.
    unfold visible_part in Hvis. injection Hvis as Hhead Hn Htail.
    rewrite !redactValue_long by lia.
    rewrite Hhead, Htail, Hn. reflexivity.
Qed.

End RedactionProperties.

(* ================================================================== *)
(** * Properties of the HTTP engine *)
(* ================================================================== *)

Section HttpProperties.
Import Js Http.
Context {J : JsonLib}.

Lemma defaultRetryOnStatus_spec (st : Z) :
  defaultRetryOnStatus st = true <->
  st = 408 \/ st = 429 \/ 500 <= st < 600.
Proof.
  unfold defaultRetryOnStatus.
  rewrite !orb_true_iff, andb_true_iff, !Z.eqb_eq, Z.leb_le, Z.ltb_lt.
  tauto.
Qed.

Lemma maxAttempts_of_pos (opts : RequestOptions) : 1 <= maxAttempts_of opts.
Proof. unfold maxAttempts_of. lia. Qed.

(** A status outside [200,300) ends the [try] block with the response
    error, or falls through to the backoff. *)
Lemma on_exchange_status (opts : RequestOptions) (att st : Z)
    (hs : list (string * header_value)) (raw : string) :
  ~ (200 <= st < 300) ->
  on_exchange opts att (Responds st hs raw) =
    if negb (retryOnStatus_of opts st) || (att =? maxAttempts_of opts)
    then Done (Throw (new_ResponseError ("HTTP " ++ string_of_Z st) st att
                        (Some raw) (Some (lower_headers hs))
                        (retryOnStatus_of opts st)))
    else Again.
Proof.
  intros Hst. unfold on_exchange, try_block.
  destruct ((200 <=? st) && (st <? 300)) eqn:E.
  - apply andb_true_iff in E. destruct E as [E1 E2].
    apply Z.leb_le in E1. apply Z.ltb_lt in E2. lia.
  - cbn [retryable new_ResponseError].
    destruct (negb (retryOnStatus_of opts st) || (att =? maxAttempts_of opts)) eqn:E';
      [|reflexivity].
    unfold catch_block. cbn [retryable new_ResponseError]. rewrite E'. reflexivity.
Qed.

Lemma attempts_again (opts : RequestOptions) (net : network) (left : nat)
    (att : Z) (log : list event) :
  on_exchange opts att (exchange_at net att) = Again ->
  attempts opts net (S left) att log =
    attempts opts net left (att + 1)
      (log ++ [EvExchange att; EvSleep (backoff_ms net att)])%list.
Proof. intros E. simpl. rewrite E. reflexivity. Qed.

Lemma attempts_done (opts : RequestOptions) (net : network) (left : nat)
    (att : Z) (log : list event) (r : outcome HttpError HttpResponse) :
  on_exchange opts att (exchange_at net att) = Done r ->
  attempts opts net (S left) att log = (r, (log ++ [EvExchange att])%list).
Proof. intros E. simpl. rewrite E. reflexivity. Qed.

(** C3.  Under the default status policy a response whose status is not
    in [200,300) is retried exactly when the status is 408, 429 or in
    [500,600) and the attempt is not the last one allowed.  Against a
    server that answers 503 to the attempts 1 and 2 and a 2xx to the
    attempt 3, [request] with three attempts returns that 2xx response,
    and with two attempts it throws a [ResponseError] with
    [retryable = true] and [status = 503]. *)
Theorem retry_on_status_boundary :
  (forall (opts : RequestOptions) (att st : Z)
          (hs : list (string * header_value)) (raw : string),
      retryOnStatus opts = None ->
      ~ (200 <= st < 300) ->
      (on_exchange opts att (Responds st hs raw) = Again <->
       (st = 408 \/ st = 429 \/ 500 <= st < 600) /\ att <> maxAttempts_of opts))
  /\
  (forall (opts : RequestOptions) (net : network) (st : Z)
          (h1 h2 h3 : list (string * header_value)) (r1 r2 r3 : string)
          (data : body_data),
      retryOnStatus opts = None ->
      exchange_at net 1 = Responds 503 h1 r1 ->
      exchange_at net 2 = Responds 503 h2 r2 ->
      exchange_at net 3 = Responds st h3 r3 ->
      200 <= st < 300 ->
      parse_body opts r3 = Some data ->
      (maxAttempts opts = Some 3 ->
       fst (request opts net) =
         Return {| res_status := st; res_headers := lower_headers h3;
                   res_data := data; res_rawBody := r3 |})
      /\
      (maxAttempts opts = Some 2 ->
       exists err : HttpError,
         fst (request opts net) = Throw err
         /\ name err = ResponseErrorName
         /\ retryable err = true
         /\ status err = Some 503
         /\ attempt err = 2)).
Proof.
  split.
  - intros opts att st hs raw Hdef Hst.
    rewrite (on_exchange_status opts att st hs raw Hst).
    unfold retryOnStatus_of. rewrite Hdef. cbn [or_else].
    rewrite <- defaultRetryOnStatus_spec.
    destruct (defaultRetryOnStatus st); destruct (att =? maxAttempts_of opts) eqn:E;
      cbn [negb orb].
    + apply Z.eqb_eq in E. split; [discriminate | intros [_ Hne]; contradiction].
    + apply Z.eqb_neq in E. split; [intros _; split; [reflexivity | exact E] | reflexivity].
    + split; [discriminate | intros [Hf _]; discriminate].
    + split; [discriminate | intros [Hf _]; discriminate].
  - intros opts net st h1 h2 h3 r1 r2 r3 data Hdef E1 E2 E3 Hst Hparse.
    assert (H503 : forall att hs raw,
               on_exchange opts att (Responds 503 hs raw) =
               if att =? maxAttempts_of opts
               then Done (Throw (new_ResponseError ("HTTP " ++ string_of_Z 503) 503 att
                                   (Some raw) (Some (lower_headers hs)) true))
               else Again).
    { intros att hs raw. rewrite on_exchange_status by lia.
      unfold retryOnStatus_of. rewrite Hdef. reflexivity. }
    split; intros Hmax.
    + assert (Hm : maxAttempts_of opts = 3)
        by (unfold maxAttempts_of; rewrite Hmax; reflexivity).
      unfold request. rewrite Hm. change (Z.to_nat 3) with 3%nat.
      rewrite attempts_again by (rewrite E1, H503, Hm; reflexivity).
      change (1 + 1) with 2.
      rewrite attempts_again by (rewrite E2, H503, Hm; reflexivity).
      change (2 + 1) with 3.
      erewrite attempts_done; [reflexivity|].
      rewrite E3.
      unfold on_exchange, try_block.
      replace ((200 <=? st) && (st <? 300)) with true
        by (symmetry; apply andb_true_iff; split; [apply Z.leb_le | apply Z.ltb_lt]; lia).
      rewrite Hparse. reflexivity.
    + assert (Hm : maxAttempts_of opts = 2)
        by (unfold maxAttempts_of; rewrite Hmax; reflexivity).
      unfold request. rewrite Hm. change (Z.to_nat 2) with 2%nat.
      rewrite attempts_again by (rewrite E1, H503, Hm; reflexivity).
      change (1 + 1) with 2.
      erewrite attempts_done; [|rewrite E2, H503, Hm; reflexivity].
      eexists. split; [reflexivity|]. cbn. repeat split; reflexivity.
Qed.

Lemma wrap_raw_deadline (opts : RequestOptions) (att : Z) (e : thrown) :
  deadline_exceeded e ->
  wrap_raw opts att e = new_TimeoutError "Request timed out" e att.
Proof.
  intros [E | E]; unfold wrap_raw, error_code; rewrite E; reflexivity.
Qed.

Lemma on_exchange_deadline (opts : RequestOptions) (att : Z) (e : thrown) :
  deadline_exceeded e ->
  on_exchange opts att (Fails e) =
    if att =? maxAttempts_of opts
    then Done (Throw (new_TimeoutError "Request timed out" e att))
    else Again.
Proof.
  intros Hd. unfold on_exchange, try_block, catch_block.
  rewrite (wrap_raw_deadline opts att e Hd). reflexivity.
Qed.

Lemma wrap_raw_attempt (opts : RequestOptions) (att : Z) (e : thrown) :
  attempt (wrap_raw opts att e) = att.
Proof.
  unfold wrap_raw. destruct (is_timeout_code (error_code e)); [reflexivity|].
  destruct (t_statusCode e); try reflexivity.
  destruct (n =? 0); reflexivity.
Qed.

(** Every error that one turn of the loop throws carries the number of
    that attempt. *)
Lemma on_exchange_attempt (opts : RequestOptions) (att : Z) (ex : exchange)
    (err : HttpError) :
  on_exchange opts att ex = Done (Throw err) -> attempt err = att.
Proof.
  unfold on_exchange, try_block, catch_block.
  destruct ex as [st hs raw | e].
  - destruct ((200 <=? st) && (st <? 300)).
    + destruct (parse_body opts raw); [discriminate|].
      cbn. intros E. injection E as <-. reflexivity.
    + cbn [retryable new_ResponseError].
      destruct (negb (retryOnStatus_of opts st) || (att =? maxAttempts_of opts)) eqn:E';
        [|discriminate].
      cbn [retryable new_ResponseError]. rewrite E'.
      intros E. injection E as <-. reflexivity.
  - destruct (negb (retryable (wrap_raw opts att e)) || (att =? maxAttempts_of opts));
      [|discriminate].
    intros E. injection E as <-. apply wrap_raw_attempt.
Qed.

(** The last attempt allowed always ends the call. *)
Lemma on_exchange_final (opts : RequestOptions) (ex : exchange) :
  on_exchange opts (maxAttempts_of opts) ex <> Again.
Proof.
  unfold on_exchange, try_block, catch_block. rewrite Z.eqb_refl.
  destruct ex as [st hs raw | e].
  - destruct ((200 <=? st) && (st <? 300)).
    + destruct (parse_body opts raw); [discriminate|].
      cbn [retryable new_ResponseError negb orb]. discriminate.
    + cbn [retryable new_ResponseError].
      destruct (retryOnStatus_of opts st); cbn; discriminate.
  - destruct (retryable (wrap_raw opts (maxAttempts_of opts) e)); cbn; discriminate.
Qed.

(** An error thrown by the loop is the error of one of its turns. *)
Lemma attempts_throw_origin (opts : RequestOptions) (net : network) :
  forall (left : nat) (att : Z) (log log' : list event) (err : HttpError),
    (0 < left)%nat ->
    att + Z.of_nat left = maxAttempts_of opts + 1 ->
    attempts opts net left att log = (Throw err, log') ->
    on_exchange opts (attempt err) (exchange_at net (attempt err)) = Done (Throw err).
Proof.
  induction left as [|left IH]; intros att log log' err Hpos Hsum Hrun; [lia|].
  simpl in Hrun.
  destruct (on_exchange opts att (exchange_at net att)) as [r|] eqn:E.
  - injection Hrun as -> _.
    rewrite (on_exchange_attempt _ _ _ _ E). exact E.
  - assert (Hne : att <> maxAttempts_of opts).
    { intros ->. exact (on_exchange_final _ _ E). }
    eapply (IH (att + 1)); [| |exact Hrun]; lia.
Qed.

Lemma attempts_all_deadlines (opts : RequestOptions) (net : network) :
  (forall att, 1 <= att <= maxAttempts_of opts ->
     exists e, exchange_at net att = Fails e /\ deadline_exceeded e) ->
  forall (left : nat) (att : Z) (log : list event),
    (0 < left)%nat -> 1 <= att ->
    att + Z.of_nat left = maxAttempts_of opts + 1 ->
    exists e, exchange_at net (maxAttempts_of opts) = Fails e
      /\ fst (attempts opts net left att log) =
           Throw (new_TimeoutError "Request timed out" e (maxAttempts_of opts)).
Proof.
  intros Hall. induction left as [|left IH]; intros att log Hpos Hatt Hsum; [lia|].
  destruct (Hall att ltac:(lia)) as [e [Ee Hd]].
  simpl. rewrite Ee, (on_exchange_deadline opts att e Hd).
  destruct (att =? maxAttempts_of opts) eqn:E.
  - apply Z.eqb_eq in E. subst att. exists e. split; [exact Ee | reflexivity].
  - apply Z.eqb_neq in E. apply IH; lia.
Qed.

(** C6.  An attempt whose deadline is exceeded before the headers or the
    body arrive is classified as a [TimeoutError] with [retryable = true]
    and the code [ETIMEDOUT]: whenever [request] throws the error of such
    an attempt, that error is the [TimeoutError] and not a
    [NetworkError]; and when the deadline is exceeded at every attempt,
    [request] does throw it, for the last attempt allowed. *)
Theorem deadline_raises_TimeoutError :
  (forall (opts : RequestOptions) (net : network) (err : HttpError) (e : thrown),
      fst (request opts net) = Throw err ->
      exchange_at net (attempt err) = Fails e ->
      deadline_exceeded e ->
      err = new_TimeoutError "Request timed out" e (attempt err)
      /\ name err = TimeoutErrorName
      /\ retryable err = true
      /\ code err = Some "ETIMEDOUT")
  /\
  (forall (opts : RequestOptions) (net : network),
      (forall att, 1 <= att <= maxAttempts_of opts ->
         exists e, exchange_at net att = Fails e /\ deadline_exceeded e) ->
      exists err : HttpError,
        fst (request opts net) = Throw err
        /\ name err = TimeoutErrorName
        /\ retryable err = true
        /\ code err = Some "ETIMEDOUT"
        /\ attempt err = maxAttempts_of opts).
Proof.
  split.
  - intros opts net err e Hrun Hex Hd.
    pose proof (maxAttempts_of_pos opts) as Hpos.
    destruct (request opts net) as [r log'] eqn:Ereq. simpl in Hrun. subst r.
    unfold request in Ereq.
    pose proof (attempts_throw_origin opts net (Z.to_nat (maxAttempts_of opts))
                  1 [] log' err ltac:(lia) ltac:(lia) Ereq) as Horigin.
    rewrite Hex, (on_exchange_deadline _ _ _ Hd) in Horigin.
    destruct (attempt err =? maxAttempts_of opts); [|discriminate].
    injection Horigin as Herr.
    split; [symmetry; exact Herr|]. rewrite <- Herr. repeat split; reflexivity.
  - intros opts net Hall.
    pose proof (maxAttempts_of_pos opts) as Hpos.
    destruct (attempts_all_deadlines opts net Hall
                (Z.to_nat (maxAttempts_of opts)) 1 [] ltac:(lia) ltac:(lia) ltac:(lia))
      as [e [_ Hrun]].
    eexists. split; [exact Hrun|]. repeat split; reflexivity.
Qed.

End HttpProperties.

Lemma deadline_raises_TimeoutError_witness :
  Http.name (Http.new_TimeoutError "Request timed out" headers_timeout 1)
    = Http.TimeoutErrorName
  /\ exists err : Http.HttpError,
       fst (Http.request (J := RefJson.json) (with_attempts 1) stalled_net) = Js.Throw err
       /\ Http.name err = Http.TimeoutErrorName
       /\ Http.retryable err = true
       /\ Http.code err = Some "ETIMEDOUT"
       /\ Http.attempt err = 1.
Proof.
  split.
  - apply (proj1 (deadline_raises_TimeoutError (J := RefJson.json))
             (with_attempts 1) stalled_net
             (Http.new_TimeoutError "Request timed out" headers_timeout 1)
             headers_timeout eq_refl eq_refl (or_introl eq_refl)).
  - apply (proj2 (deadline_raises_TimeoutError (J := RefJson.json))
             (with_attempts 1) stalled_net).
    intros att _. exists headers_timeout. split; [reflexivity | left; reflexivity].
Defined.

Lemma retry_on_status_boundary_witness :
  Http.on_exchange (J := RefJson.json) (with_attempts 3) 1
    (Http.Responds 503 [] "Service Unavailable") = Http.Again
  /\ fst (Http.request (J := RefJson.json) (with_attempts 3) flaky_net) =
       Js.Return {| Http.res_status := 200;
                    Http.res_headers := [("content-type", "application/json")];
                    Http.res_data := Http.DataJson Js.JUndefined;
                    Http.res_rawBody := "" |}.
Proof.
  split.
  - apply (proj1 (retry_on_status_boundary (J := RefJson.json)) (with_attempts 3) 1 503 []
             "Service Unavailable"); [reflexivity | lia | split; [lia | discriminate]].
  - apply (proj1 (proj2 (retry_on_status_boundary (J := RefJson.json))
                    (with_attempts 3) flaky_net 200
                    [] [] [("Content-Type", Http.HOne "application/json")]
                    "Service Unavailable" "Service Unavailable" ""
                    (Http.DataJson Js.JUndefined)
                    eq_refl eq_refl eq_refl eq_refl (conj (Z.le_refl 200) eq_refl)
                    eq_refl)).
    reflexivity.
Defined.

(* ================================================================== *)
(** * Properties of the tool client *)
(* ================================================================== *)

Section McpProperties.
Import Js Http Mcp.
Context {J : JsonLib}.

Lemma sse_line_chunk (last : option jsval) (line : string) :
  sse_line last line =
    match data_chunk line with
    | Some json => match JSON_parse json with Some v => Some v | None => last end
    | None => last
    end.
Proof.
  unfold sse_line, data_chunk.
  destruct (startsWith line "data:"); cbn [negb]; [|reflexivity].
  destruct (String.eqb (trim (slice line 5 None)) ""); reflexivity.
Qed.

Lemma fold_unparsed (lines : list string) (acc : option jsval) :
  unparsed lines -> fold_left sse_line lines acc = acc.
Proof.
  revert acc. induction lines as [|l lines IH]; intros acc Hun; [reflexivity|].
  simpl. rewrite IH.
  - rewrite sse_line_chunk. destruct (data_chunk l) as [json|] eqn:E; [|reflexivity].
    rewrite (Hun l json (or_introl eq_refl) E). reflexivity.
  - intros line json Hin. apply Hun. right. exact Hin.
Qed.

Lemma fold_last_parsed (lines : list string) :
  forall (acc : option jsval) (v : jsval),
    fold_left sse_line lines acc = Some v ->
    (acc = Some v /\ unparsed lines)
    \/ exists before line after json,
         lines = (before ++ line :: after)%list
         /\ data_chunk line = Some json
         /\ JSON_parse json = Some v
         /\ unparsed after.
Proof.
  induction lines as [|l lines IH]; intros acc v Hfold.
  - left. split; [exact Hfold | intros ? ? []].
  - simpl in Hfold. destruct (IH _ _ Hfold) as [[Hacc Hun] | Hex].
    + rewrite sse_line_chunk in Hacc.
      destruct (data_chunk l) as [json|] eqn:E.
      * destruct (JSON_parse json) as [v'|] eqn:P.
        -- right. exists [], l, lines, json. injection Hacc as ->. auto.
        -- left. split; [exact Hacc|].
           intros line j [<- | Hin] Hc; [congruence | exact (Hun line j Hin Hc)].
      * left. split; [exact Hacc|].
        intros line j [<- | Hin] Hc; [congruence | exact (Hun line j Hin Hc)].
    + right. destruct Hex as (before & line & after & json & -> & Hc & Hp & Hun).
      exists (l :: before), line, after, json. auto.
Qed.

(** [parseSsePayload] keeps the value of the last [data:] line that
    parses. *)
Lemma parseSsePayload_last (text : string) (v : jsval) :
  parseSsePayload text = Some v <->
  exists before line after json,
    split_lines text = (before ++ line :: after)%list
    /\ data_chunk line = Some json
    /\ JSON_parse json = Some v
    /\ unparsed after.
Proof.
  unfold parseSsePayload. split.
  - intros Hfold. destruct (fold_last_parsed _ _ _ Hfold) as [[Hnone _] | Hex];
      [discriminate | exact Hex].
  - intros (before & line & after & json & -> & Hc & Hp & Hun).
    rewrite fold_left_app. simpl. rewrite fold_unparsed by exact Hun.
    rewrite sse_line_chunk, Hc, Hp. reflexivity.
Qed.

Lemma parseSsePayload_none (text : string) :
  parseSsePayload text = None <-> unparsed (split_lines text).
Proof.
  unfold parseSsePayload. split.
  - intros Hnone line json Hin Hc.
    destruct (JSON_parse json) as [v|] eqn:P; [|reflexivity].
    apply in_split in Hin. destruct Hin as (before & after & Hsplit).
    rewrite Hsplit, fold_left_app in Hnone. simpl in Hnone.
    rewrite sse_line_chunk, Hc, P in Hnone.
    assert (Hsome : forall ls w, exists w', fold_left sse_line ls (Some w) = Some w').
    { induction ls as [|x ls IH]; intros w; [exists w; reflexivity|].
      simpl. rewrite sse_line_chunk.
      destruct (data_chunk x); [destruct (JSON_parse s)|]; apply IH. }
    destruct (Hsome after v) as [w' Hw']. congruence.
  - intros Hun. apply fold_unparsed. exact Hun.
Qed.

Lemma unwrapRpc_object (m : list (string * jsval)) :
  unwrapRpc (Some (JObj m)) =
    if truthy (get_prop (JObj m) "error")
    then Throw (RpcFailure (rpc_error_of (get_prop (JObj m) "error")))
    else if has_prop (JObj m) "result" then Return (get_prop (JObj m) "result")
    else Return (JObj m).
Proof.
  assert (Hguard : has_prop (JObj m) "error" && truthy (get_prop (JObj m) "error")
                   = truthy (get_prop (JObj m) "error")).
  { unfold has_prop, get_prop. destruct (assoc "error" m); reflexivity. }
  unfold unwrapRpc, rpc_error_of. cbn [payload_value truthy is_object_type typeof andb].
  rewrite Hguard. reflexivity.
Qed.

Lemma unwrapRpc_not_object (payload : option jsval) :
  (forall m, payload <> Some (JObj m)) ->
  unwrapRpc payload = Return (payload_value payload).
Proof.
  intros Hno. unfold unwrapRpc.
  destruct payload as [[| |b|n|s|l|m]|]; cbn; try reflexivity.
  - destruct b; reflexivity.
  - destruct (negb (n =? 0)); reflexivity.
  - destruct (negb (String.eqb s "")); reflexivity.
  - exfalso. exact (Hno m eq_refl).
Qed.

(** C7, as the code has it.  For a tool call answered by an event
    stream, the client keeps the value of the last [data:] line whose
    text parses, whatever the lines before and after it hold.  When that
    envelope is an object whose [error] field is truthy, [callTool]
    throws the JSON-RPC error with the [code] of that field and its
    [message] (or the text [MCP error] when the message is missing or
    empty): an error with code -32601 and message [tool X not found] is
    thrown as such.  Otherwise it returns the [result] field when the
    envelope has one, and the envelope itself when it has none. *)
Theorem sse_envelope_is_unwrapped :
  forall (timeout : option Z) (net : network) (res : HttpResponse),
    fst (request (rpc_options timeout) net) = Return res ->
    isEventStream res = true ->
    callTool timeout net = unwrapRpc (parseSsePayload (body_text res))
    /\ (forall v : jsval,
          parseSsePayload (body_text res) = Some v <->
          exists before line after json,
            split_lines (body_text res) = (before ++ line :: after)%list
            /\ data_chunk line = Some json
            /\ JSON_parse json = Some v
            /\ unparsed after)
    /\ (forall m : list (string * jsval),
          parseSsePayload (body_text res) = Some (JObj m) ->
          (truthy (get_prop (JObj m) "error") = true ->
           callTool timeout net =
             Throw (RpcFailure (rpc_error_of (get_prop (JObj m) "error"))))
          /\ (forall (e : list (string * jsval)) (c : Z) (msg : string),
                get_prop (JObj m) "error" = JObj e ->
                get_prop (JObj e) "code" = JNum c ->
                get_prop (JObj e) "message" = JStr msg ->
                msg <> "" ->
                callTool timeout net =
                  Throw (RpcFailure {| rpc_message := msg; rpc_code := JNum c;
                                       rpc_data := get_prop (JObj e) "data" |}))
          /\ (truthy (get_prop (JObj m) "error") = false ->
               has_prop (JObj m) "result" = true ->
               callTool timeout net = Return (get_prop (JObj m) "result"))
          /\ (truthy (get_prop (JObj m) "error") = false ->
               has_prop (JObj m) "result" = false ->
               callTool timeout net = Return (JObj m))).
Proof.
  intros timeout net res Hreq Hsse.
  assert (Hcall : callTool timeout net = unwrapRpc (parseSsePayload (body_text res))).
  { unfold callTool, rpc. rewrite Hreq. unfold decode_rpc. rewrite Hsse. reflexivity. }
  split; [exact Hcall|]. split; [intros v; apply parseSsePayload_last|].
  intros m Hm. rewrite Hcall, Hm, unwrapRpc_object.
  split; [intros ->; reflexivity|]. split.
  - intros e c msg He Hc Hmsg Hne. rewrite He. cbn [truthy].
    unfold rpc_error_of. rewrite Hc, Hmsg. cbn [truthy to_String].
    destruct (String.eqb msg "") eqn:E; [apply String.eqb_eq in E; contradiction|].
    reflexivity.
  - split; intros -> ->; reflexivity.
Qed.

End McpProperties.

Lemma sse_envelope_is_unwrapped_witness :
  Mcp.callTool (J := RefJson.json) None (sse_net tool_not_found_stream) =
    Js.Throw (Mcp.RpcFailure {| Mcp.rpc_message := "tool X not found";
                                Mcp.rpc_code := Js.JNum (-32601);
                                Mcp.rpc_data := Js.JUndefined |}).
Proof.
  assert (Hreq : fst (Http.request (J := RefJson.json) (Mcp.rpc_options None)
                        (sse_net tool_not_found_stream))
                 = Js.Return (sse_response tool_not_found_stream))
    by (vm_compute; reflexivity).
  assert (Hsse : Mcp.isEventStream (sse_response tool_not_found_stream) = true)
    by (vm_compute; reflexivity).
  destruct (sse_envelope_is_unwrapped (J := RefJson.json) None
              (sse_net tool_not_found_stream)
              (sse_response tool_not_found_stream) Hreq Hsse)
    as (_ & _ & Hobj).
  assert (Hparse : Mcp.parseSsePayload (J := RefJson.json)
                     (Mcp.body_text (sse_response tool_not_found_stream))
                   = Some (Js.JObj tool_not_found_envelope))
    by (vm_compute; reflexivity).
  destruct (Hobj tool_not_found_envelope Hparse) as (_ & Herr & _).
  apply (Herr [("code", Js.JNum (-32601)); ("message", Js.JStr "tool X not found")]
              (-32601) "tool X not found" eq_refl eq_refl eq_refl).
  discriminate.
Defined.

(** C7 as stated does not hold: an envelope that carries an [error]
    field whose value is null is not rejected, its [result] is returned;
    and an envelope with neither field is returned whole, where its
    [result] field is undefined. *)
Lemma error_field_not_always_rejected :
  Mcp.parseSsePayload (J := RefJson.json) null_error_stream =
    Some (Js.JObj [("jsonrpc", Js.JStr "2.0"); ("id", Js.JStr "1");
                   ("error", Js.JNull); ("result", Js.JNum 7)])
  /\ Js.has_prop (Js.JObj [("jsonrpc", Js.JStr "2.0"); ("id", Js.JStr "1");
                           ("error", Js.JNull); ("result", Js.JNum 7)]) "error" = true
  /\ Mcp.callTool (J := RefJson.json) None (sse_net null_error_stream) =
       Js.Return (Js.JNum 7)
  /\ Mcp.parseSsePayload (J := RefJson.json) progress_stream =
       Some (Js.JObj [("jsonrpc", Js.JStr "2.0");
                      ("method", Js.JStr "notifications/progress")])
  /\ Mcp.callTool (J := RefJson.json) None (sse_net progress_stream) =
       Js.Return (Js.JObj [("jsonrpc", Js.JStr "2.0");
                           ("method", Js.JStr "notifications/progress")])
  /\ Js.get_prop (Js.JObj [("jsonrpc", Js.JStr "2.0");
                           ("method", Js.JStr "notifications/progress")]) "result"
     = Js.JUndefined.
Proof. vm_compute. repeat split; reflexivity. Qed.

(* ================================================================== *)
(** * Properties of the keyword search resolver *)
(* ================================================================== *)

Section SearchProperties.
Import Js Search.

Lemma no_tool_search_app (l1 l2 : list call) :
  no_tool_search l1 -> no_tool_search l2 -> no_tool_search (l1 ++ l2).
Proof. unfold no_tool_search. intros H1 H2 Hin. apply in_app_or in Hin. tauto. Qed.

Lemma scan_content_log (d : deps) (q : string) (seen : list string)
    (remaining : option nat) :
  forall (nodes : list DocNode) (matches : list jsval) (log : list call),
    exists reads,
      snd (scan_content d q seen remaining nodes matches log) = (log ++ reads)%list
      /\ no_tool_search reads.
Proof.
  induction nodes as [|node nodes IH]; intros matches log.
  - exists []. simpl. rewrite app_nil_r. split; [reflexivity | intros []].
  - simpl. destruct (mem_string (node_id node) seen); [apply IH|].
    assert (Hstep : forall ms, exists reads,
               snd (scan_content d q seen remaining nodes ms
                      (log ++ [CallReadDocument (node_id node)])) = (log ++ reads)%list
               /\ no_tool_search reads).
    { intros ms. destruct (IH ms (log ++ [CallReadDocument (node_id node)])%list)
        as (reads & -> & Hno).
      exists (CallReadDocument (node_id node) :: reads). rewrite <- app_assoc.
      split; [reflexivity|]. intros [Hc | Hin]; [discriminate | exact (Hno Hin)]. }
    destruct (readDocument d (node_id node)) as [markdown|e]; [|apply Hstep].
    destruct (indexOf (toLowerCase markdown) q) as [idx|]; [|apply Hstep].
    match goal with |- context [if ?c then _ else _] => destruct c end; [|apply Hstep].
    exists [CallReadDocument (node_id node)]. split; [reflexivity|].
    intros [Hc | []]. discriminate.
Qed.

Lemma merge_matches_source (src : KeywordSearchSource) (its matches : list jsval) :
  src <> mcp -> fst (merge_matches src its matches) <> mcp.
Proof.
  intros Hsrc. unfold merge_matches. destruct matches as [|m ms]; [exact Hsrc|].
  cbn [fst]. destruct ((List.length its =? 0)%nat && negb (is_mcp src));
    [discriminate | exact Hsrc].
Qed.

(** The content scan never calls the search tool and never turns a
    source into [mcp]. *)
Lemma content_scan_keeps (d : deps) (q : string) (maxItems : option Z)
    (docsConn : option DocConnection) (src : KeywordSearchSource)
    (its : list jsval) (log : list call) :
  exists extra,
    snd (content_scan d q maxItems docsConn src its log) = (log ++ extra)%list
    /\ no_tool_search extra
    /\ (src <> mcp -> fst (fst (content_scan d q maxItems docsConn src its log)) <> mcp).
Proof.
  unfold content_scan.
  assert (Hone : no_tool_search [CallToolsList])
    by (intros [Hc | []]; discriminate).
  assert (Htwo : no_tool_search [CallToolsList; CallListRecentlyUpdatedDocs])
    by (intros [Hc | [Hc | []]]; discriminate).
  destruct (next_tools d log) as [tools|e];
    [|exists [CallToolsList]; simpl; auto].
  destruct (has_tool tools "read_document");
    [|exists [CallToolsList]; simpl; auto].
  assert (Hscan : forall conn extra2,
    no_tool_search extra2 ->
    let scanned := scan_content d q (seen_ids its) (remaining_of maxItems its)
                     (conn_edges conn) [] (log ++ extra2)%list in
    exists extra,
      snd (merge_matches src its (fst scanned), snd scanned) = (log ++ extra)%list
      /\ no_tool_search extra
      /\ (src <> mcp ->
           fst (fst (merge_matches src its (fst scanned), snd scanned)) <> mcp)).
  { intros conn extra2 Hno2 scanned. subst scanned.
    destruct (scan_content_log d q (seen_ids its) (remaining_of maxItems its)
                (conn_edges conn) [] (log ++ extra2)%list) as (reads & Hlog & Hno).
    exists (extra2 ++ reads)%list. cbn [fst snd]. rewrite Hlog, app_assoc.
    split; [reflexivity|]. split; [apply no_tool_search_app; assumption|].
    apply merge_matches_source. }
  destruct docsConn as [conn|].
  - apply (Hscan conn [CallToolsList] Hone).
  - destruct (listRecentlyUpdatedDocs d) as [conn|e].
    + rewrite <- app_assoc.
      apply (Hscan conn [CallToolsList; CallListRecentlyUpdatedDocs] Htwo).
    + exists [CallToolsList; CallListRecentlyUpdatedDocs]. simpl.
      rewrite <- app_assoc. auto.
Qed.

Lemma title_scan_log (d : deps) (q : string) :
  exists rest,
    snd (title_scan d q) = CallListRecentlyUpdatedDocs :: rest
    /\ no_tool_search (snd (title_scan d q)).
Proof.
  unfold title_scan.
  destruct (listRecentlyUpdatedDocs d) as [conn|e].
  - exists []. split; [reflexivity|]. intros [Hc | []]; discriminate.
  - destruct (listDocs d) as [conn|e'];
      (exists [CallListDocs]; split; [reflexivity|];
       intros [Hc | [Hc | []]]; discriminate).
Qed.

(** The last step of the resolver, from the state after step 3. *)
Lemma after_title_scan (d : deps) (query_ q : string) (first : option Z)
    (src3 : KeywordSearchSource) (items3 : list jsval)
    (docsConn : option DocConnection) (log3 : list call)
    (run : outcome exn KeywordSearchResult * list call) :
  run = (let maxItems := match first with
                         | Some f => if 0 <? f then Some f else None
                         | None => None
                         end in
         let shouldScanContent :=
           ((List.length items3 =? 0)%nat || is_graphql src3)
           && match maxItems with
              | None => true
              | Some m => Z.of_nat (List.length items3) <? m
              end in
         if shouldScanContent then
           let '(src4, items4, log4) :=
             content_scan d q maxItems docsConn src3 items3 log3 in
           (Return {| query := query_; source := src4; items := items4 |}, log4)
         else
           (Return {| query := query_; source := src3; items := items3 |}, log3)) ->
  src3 <> mcp ->
  exists extra,
    snd run = (log3 ++ extra)%list
    /\ no_tool_search extra
    /\ (forall res, fst run = Return res -> source res <> mcp).
Proof.
  intros -> Hsrc. cbv zeta.
  match goal with |- context [if ?c then _ else _] => destruct c end.
  - match goal with |- context [content_scan ?a ?b ?c ?e ?f ?g ?h] =>
      destruct (content_scan_keeps a b c e f g h) as (extra & Hlog & Hno & Hs);
      destruct (content_scan a b c e f g h) as [[src4 items4] log4]
    end.
    cbn [fst snd] in *. exists extra. split; [exact Hlog|]. split; [exact Hno|].
    intros res Hres. injection Hres as <-. cbn. auto.
  - exists []. cbn [fst snd]. rewrite app_nil_r. split; [reflexivity|].
    split; [intros []|]. intros res Hres. injection Hres as <-. exact Hsrc.
Qed.

(** C2, as the code has it.  When the indexed search returns without
    throwing, the resolver skips the tool tier: it never calls the
    [keyword_search] tool and never reports the source [mcp]; with an
    empty indexed result its next call is the listing of the recently
    updated documents, for the title scan.  The tool tier runs when the
    indexed search throws: the tools are then listed and, when
    [keyword_search] is among them, it is called, and a result of it
    that is not empty is reported with the source [mcp]. *)
Theorem tool_tier_follows_a_throw_only :
  forall (d : deps) (query_ : string) (first : option Z),
    (forall r : option (list SearchDoc),
        searchDocsByKeyword d = Return r ->
        no_tool_search (snd (keywordSearchWithFallback d query_ first))
        /\ (forall res, fst (keywordSearchWithFallback d query_ first) = Return res ->
                        source res <> mcp)
        /\ (r = None \/ r = Some [] ->
             exists rest,
               snd (keywordSearchWithFallback d query_ first) =
                 CallSearchDocs :: CallListRecentlyUpdatedDocs :: rest))
    /\
    (forall (e : exn) (tools : list McpTool) (found : list jsval),
        searchDocsByKeyword d = Throw e ->
        toolsList d 0 = Return tools ->
        has_tool tools "keyword_search" = true ->
        keywordSearch d = Return found ->
        found <> [] ->
        keywordSearchWithFallback d query_ first =
          (Return {| query := query_; source := mcp; items := found |},
           [CallSearchDocs; CallToolsList; CallKeywordSearch])).
Proof.
  intros d query_ first. split.
  - intros r Hr.
    assert (Hfirst : no_tool_search [CallSearchDocs])
      by (intros [Hc | []]; discriminate).
    unfold keywordSearchWithFallback, indexed_then_tool. rewrite Hr.
    destruct (map gql_item match r with Some l => l | None => [] end)
      as [|it its] eqn:Eits.
    + destruct (title_scan_log d (toLowerCase query_)) as (rest & Hlog & Hno).
      destruct (title_scan d (toLowerCase query_)) as [[[conn found]|e] l];
        cbn [snd] in Hlog, Hno; subst l.
      * match goal with |- context [snd ?run] =>
          destruct (after_title_scan d query_ (toLowerCase query_) first fallback found
                      (Some conn) _ run eq_refl ltac:(discriminate))
            as (extra & Hl & Hnx & Hs)
        end.
        split; [|split; [exact Hs|]].
        -- rewrite Hl. apply no_tool_search_app; [|exact Hnx].
           apply (no_tool_search_app [CallSearchDocs]); assumption.
        -- intros _. rewrite Hl. eexists. reflexivity.
      * cbn [fst snd]. split; [|split; [discriminate|]].
        -- apply (no_tool_search_app [CallSearchDocs]); assumption.
        -- intros _. eexists. reflexivity.
    + match goal with |- context [snd ?run] =>
        destruct (after_title_scan d query_ (toLowerCase query_) first graphql
                    (it :: its) None [CallSearchDocs] run eq_refl ltac:(discriminate))
          as (extra & Hl & Hnx & Hs)
      end.
      split; [|split; [exact Hs|]].
      * rewrite Hl. apply no_tool_search_app; assumption.
      * intros [-> | ->]; discriminate.
  - intros e tools found He Htools Hhas Hkw Hne.
    unfold keywordSearchWithFallback, indexed_then_tool, next_tools.
    rewrite He. cbn [filter is_tools_call List.length]. rewrite Htools, Hhas, Hkw.
    destruct found as [|it its]; [contradiction|].
    cbv zeta. cbn [List.length Nat.eqb orb is_graphql andb]. reflexivity.
Qed.

End SearchProperties.

Lemma tool_tier_follows_a_throw_only_witness :
  no_tool_search
    (snd (Search.keywordSearchWithFallback empty_index_deps "hello" None))
  /\ Search.keywordSearchWithFallback failing_index_deps "query" None =
       (Js.Return {| Search.query := "query"; Search.source := Search.mcp;
                     Search.items :=
                       [Js.JObj [("docId", Js.JStr "m1"); ("title", Js.JStr "From MCP");
                                 ("snippet", Js.JStr "snippet")]] |},
        [Search.CallSearchDocs; Search.CallToolsList; Search.CallKeywordSearch]).
Proof.
  split.
  - apply (proj1 (tool_tier_follows_a_throw_only empty_index_deps "hello" None)
             (Some []) eq_refl).
  - apply (proj2 (tool_tier_follows_a_throw_only failing_index_deps "query" None)
             (Search.Rejected "GraphQL unavailable") _ _ eq_refl eq_refl eq_refl eq_refl).
    discriminate.
Defined.

(** C2 as stated does not hold: the indexed search returns an empty
    result without throwing and a [keyword_search] tool is available, yet
    the resolver neither lists the tools nor calls the tool; it goes to
    the title scan and reports the source [fallback]. *)
Lemma empty_index_skips_tool_tier :
  Search.searchDocsByKeyword empty_index_deps = Js.Return (Some [])
  /\ Search.toolsList empty_index_deps 0 =
       Js.Return [{| Search.tool_name := "keyword_search" |}]
  /\ Search.keywordSearchWithFallback empty_index_deps "hello" None =
       (Js.Return {| Search.query := "hello"; Search.source := Search.fallback;
                     Search.items :=
                       [Js.JObj [("docId", Js.JStr "d1");
                                 ("title", Js.JStr "Hello world")]] |},
        [Search.CallSearchDocs; Search.CallListRecentlyUpdatedDocs]).
Proof. vm_compute. repeat split; reflexivity. Qed.

(* ================================================================== *)
(** * Properties of the realtime document layer *)
(* ================================================================== *)

Section TreeShape.
Import Js Yjs.
Context {Y : YjsLib}.

Lemma getMap_setMap_fresh (name : string) (m : ymap) :
  getMap (setMap [] name m) name = m.
Proof. simpl. rewrite String.eqb_refl. reflexivity. Qed.

Lemma flavour_page_block (pageId noteId : string) (title : option string) :
  flavour_of (page_block pageId noteId title) = Some "affine:page".
Proof.
  unfold page_block. destruct title as [t|]; [|reflexivity].
  destruct (String.eqb t ""); reflexivity.
Qed.

Lemma children_page_block (pageId noteId : string) (title : option string) :
  children (page_block pageId noteId title) = [ystr noteId].
Proof.
  unfold page_block. destruct title as [t|]; [|reflexivity].
  destruct (String.eqb t ""); reflexivity.
Qed.

(** The blocks of a scaffold whose ids are distinct. *)
Lemma scaffold_blocks (pageId noteId : string) (paraId title content : option string) :
  pageId <> noteId ->
  (forall p, paraId = Some p -> p <> pageId /\ p <> noteId) ->
  getMap (scaffold pageId noteId paraId title content) "blocks" =
    ((pageId, page_block pageId noteId title)
     :: (noteId, note_block noteId paraId)
     :: match paraId with
        | Some p => [(p, paragraph_block p (match content with
                                            | Some c => c
                                            | None => ""
                                            end))]
        | None => []
        end)%list.
Proof.
  intros Hpn Hpara. unfold scaffold. rewrite getMap_setMap_fresh.
  cbn [ymap_set].
  destruct (String.eqb noteId pageId) eqn:E1;
    [apply String.eqb_eq in E1; congruence|].
  destruct paraId as [p|]; [|reflexivity].
  destruct (Hpara p eq_refl) as [Hp1 Hp2].
  cbn [ymap_set].
  destruct (String.eqb p pageId) eqn:E2; [apply String.eqb_eq in E2; congruence|].
  destruct (String.eqb p noteId) eqn:E3; [apply String.eqb_eq in E3; congruence|].
  reflexivity.
Qed.

(** C1.  Whenever the ids drawn for the blocks are pairwise distinct,
    replaying the update of [buildInitialPageUpdate(title, content)]
    gives a block map with exactly one block of flavour [affine:page];
    its children sequence is the id of one block, of flavour
    [affine:note]; when the content is a string that is not empty the
    children sequence of the note is the id of one block, of flavour
    [affine:paragraph], whose [prop:text] is the content; and when the
    content is absent or empty the note has no children. *)
Theorem initial_page_tree_shape :
  forall (w : world) (title content : option string) (st : state),
    let pageId := rand_chars w (draws st) 20 in
    let noteId := rand_chars w (draws st + 20) 20 in
    let paraId := rand_chars w (draws st + 20 + 20) 20 in
    pageId <> noteId ->
    (given content = true -> paraId <> pageId /\ paraId <> noteId) ->
    exists (u : update) (st' : state) (d : ydoc) (page note : yval),
      buildInitialPageUpdate w title content st = (Ok u, st')
      /\ applyUpdate u = Some d
      /\ filter (has_flavour "affine:page") (getMap d "blocks") = [(pageId, page)]
      /\ children page = [ystr noteId]
      /\ ymap_get (getMap d "blocks") noteId = Some note
      /\ flavour_of note = Some "affine:note"
      /\ (given content = true ->
           exists para,
             children note = [ystr paraId]
             /\ ymap_get (getMap d "blocks") paraId = Some para
             /\ flavour_of para = Some "affine:paragraph"
             /\ exists c, content = Some c /\ text_of para = Some c)
      /\ (given content = false -> children note = []).
Proof.
  intros w title content st pageId noteId paraId Hpn Hpara.
  set (para := if given content then Some paraId else None).
  assert (Hids : forall p, para = Some p -> p <> pageId /\ p <> noteId).
  { unfold para. intros p Hp. destruct (given content); [|discriminate].
    injection Hp as <-. apply Hpara. reflexivity. }
  exists (encodeStateAsUpdate (scaffold pageId noteId para title content)).
  exists {| trace := trace st;
            draws := if given content then (draws st + 20 + 20 + 20)%nat
                     else (draws st + 20 + 20)%nat;
            ticks := ticks st |}.
  exists (scaffold pageId noteId para title content).
  exists (page_block pageId noteId title), (note_block noteId para).
  split.
  { unfold buildInitialPageUpdate, bind, randId, ret. cbn [draws]. fold pageId noteId.
    unfold para. destruct (given content); cbn [draws]; fold paraId; reflexivity. }
  split; [apply apply_encode|].
  rewrite (scaffold_blocks _ _ _ _ _ Hpn Hids).
  assert (Hnote_page : String.eqb noteId pageId = false)
    by (apply String.eqb_neq; congruence).
  split.
  { cbn [filter]. unfold has_flavour at 1. cbn [snd].
    rewrite flavour_page_block. cbn [String.eqb Ascii.eqb Bool.eqb andb].
    unfold has_flavour at 1. cbn.
    destruct para; reflexivity. }
  split; [apply children_page_block|].
  split; [cbn [ymap_get]; rewrite Hnote_page, String.eqb_refl; reflexivity|].
  split; [reflexivity|].
  split.
  - intros Hgiven. unfold para in *. rewrite Hgiven in *.
    destruct (Hids paraId eq_refl) as [Hp1 Hp2].
    exists (paragraph_block paraId (match content with Some c => c | None => "" end)).
    split; [reflexivity|]. split.
    { cbn [ymap_get].
      destruct (String.eqb paraId pageId) eqn:E1; [apply String.eqb_eq in E1; congruence|].
      destruct (String.eqb paraId noteId) eqn:E2; [apply String.eqb_eq in E2; congruence|].
      rewrite String.eqb_refl. reflexivity. }
    split; [reflexivity|].
    destruct content as [c|]; [exists c; split; reflexivity | discriminate].
  - intros Hgiven. unfold para. rewrite Hgiven. reflexivity.
Qed.

End TreeShape.

Lemma initial_page_tree_shape_witness :
  exists (u : Yjs.update (YjsLib := RefYjs.yjs)) (st' : Yjs.state),
    Yjs.buildInitialPageUpdate (Y := RefYjs.yjs) sample_world
      (Some "My Page") (Some "Hello world") Yjs.init = (Yjs.Ok u, st')
    /\ Yjs.ymap_get (Yjs.getMap u "blocks") "cccccccccccccccccccc" =
         Some (Yjs.paragraph_block "cccccccccccccccccccc" "Hello world").
Proof.
  destruct (initial_page_tree_shape (Y := RefYjs.yjs) sample_world
              (Some "My Page") (Some "Hello world") Yjs.init)
    as (u & st' & d & page & note & Hrun & _).
  - vm_compute. discriminate.
  - intros _. split; vm_compute; discriminate.
  - exists u, st'. split; [exact Hrun|].
    vm_compute in Hrun. injection Hrun as <- _. reflexivity.
Defined.

Section Realtime.
Import Js Yjs.
Context {J : JsonLib} {Y : YjsLib}.

Lemma emits_only_ret {A} (a : A) : emits_only (ret a).
Proof. intros st. exists []. rewrite app_nil_r. split; [reflexivity | constructor]. Qed.

Lemma emits_only_throw {A} (e : exn) : emits_only (@throw A e).
Proof. intros st. exists []. rewrite app_nil_r. split; [reflexivity | constructor]. Qed.

Lemma emits_only_bind {A B} (m : M A) (k : A -> M B) :
  emits_only m -> (forall a, emits_only (k a)) -> emits_only (bind m k).
Proof.
  intros Hm Hk st. unfold bind. destruct (Hm st) as (es & Hes & Hall).
  destruct (m st) as [[a|e|] st1]; cbn [snd] in Hes.
  - destruct (Hk a st1) as (es' & Hes' & Hall').
    exists (es ++ es')%list. rewrite Hes', Hes, app_assoc.
    split; [reflexivity | apply Forall_app; split; assumption].
  - exists es. split; assumption.
  - exists es. split; assumption.
Qed.

Lemma emits_only_try_catch {A} (m : M A) (h : exn -> M A) :
  emits_only m -> (forall e, emits_only (h e)) -> emits_only (try_catch m h).
Proof.
  intros Hm Hh st. unfold try_catch. destruct (Hm st) as (es & Hes & Hall).
  destruct (m st) as [[a|e|] st1]; cbn [snd] in Hes.
  - exists es. split; assumption.
  - destruct (Hh e st1) as (es' & Hes' & Hall').
    exists (es ++ es')%list. rewrite Hes', Hes, app_assoc.
    split; [reflexivity | apply Forall_app; split; assumption].
  - exists es. split; assumption.
Qed.

Lemma emits_only_do_emit (t : RealtimeTransport) (ev : string) (p : jsval) :
  emits_only (do_emit t ev p).
Proof.
  intros st. exists [TEmit ev p]. split; [reflexivity | repeat constructor].
Qed.

Lemma emits_only_do_emit_withTimeout (w : world) (t : RealtimeTransport)
    (ev : string) (p : jsval) :
  emits_only (do_emit_withTimeout w t ev p).
Proof.
  intros st. exists [TEmit ev p]. split; [reflexivity | repeat constructor].
Qed.

Lemma emits_only_randId (w : world) (n : nat) : emits_only (randId w n).
Proof. intros st. exists []. rewrite app_nil_r. split; [reflexivity | constructor]. Qed.

Lemma emits_only_Date_now (w : world) : emits_only (Date_now w).
Proof. intros st. exists []. rewrite app_nil_r. split; [reflexivity | constructor]. Qed.

Create HintDb emits.

Hint Resolve emits_only_ret emits_only_throw emits_only_do_emit
  emits_only_do_emit_withTimeout emits_only_randId emits_only_Date_now : emits.

(** Decomposition of a computation into its steps, each of which only
    emits. *)
Ltac emits :=
  repeat first
    [ solve [auto with emits]
    | apply emits_only_bind; [|intros ?]
    | apply emits_only_try_catch; [|intros ?]
    | match goal with
      | |- emits_only (match ?x with _ => _ end) => destruct x
      | |- emits_only (if ?c then _ else _) => destruct c
      end ].

Lemma emits_only_ensureAckOk (ack : jsval) (op : string) :
  emits_only (ensureAckOk ack op).
Proof. unfold ensureAckOk. emits. Qed.

Lemma emits_only_joinWorkspace (t : RealtimeTransport) (ws v : string) :
  emits_only (joinWorkspace t ws v).
Proof. unfold joinWorkspace. emits. Qed.

Hint Resolve emits_only_ensureAckOk emits_only_joinWorkspace : emits.

Lemma emits_only_append_entry (w : world) (t : RealtimeTransport)
    (ws docId : string) (title : option string) (snapshot : jsval) :
  emits_only (append_entry w t ws docId title snapshot).
Proof. unfold append_entry. emits. Qed.

Hint Resolve emits_only_append_entry : emits.

Lemma emits_only_load_root_snapshot (t : RealtimeTransport) (ws : string) :
  emits_only (load_root_snapshot t ws).
Proof. unfold load_root_snapshot. emits. Qed.

Hint Resolve emits_only_load_root_snapshot : emits.

Lemma emits_only_appendDocMeta (w : world) (t : RealtimeTransport)
    (ws docId : string) (title : option string) :
  emits_only (appendDocMetaToWorkspaceRoot w t ws docId title).
Proof. unfold appendDocMetaToWorkspaceRoot. emits. Qed.

Lemma emits_only_pull_document (w : world) (t : RealtimeTransport) (ws docId : string) :
  emits_only (pull_document w t ws docId).
Proof. unfold pull_document. emits. Qed.

Lemma emits_only_note_to_extend (docId : string) (doc : ydoc) (hp : bool) :
  emits_only (note_to_extend docId doc hp).
Proof. unfold note_to_extend. emits. Qed.

Hint Resolve emits_only_appendDocMeta emits_only_pull_document
  emits_only_note_to_extend : emits.

Lemma emits_only_createDoc_update (w : world) (opts : CreateDocOptions)
    (t : RealtimeTransport) :
  emits_only (createDoc_update w opts t).
Proof. unfold createDoc_update. emits. Qed.

Lemma emits_only_appendText_update (w : world) (opts : AppendTextOptions)
    (t : RealtimeTransport) :
  emits_only (appendText_update w opts t).
Proof. unfold appendText_update. emits. Qed.

Hint Resolve emits_only_createDoc_update emits_only_appendText_update : emits.

Lemma emits_only_createDoc_try (w : world) (opts : CreateDocOptions)
    (t : RealtimeTransport) :
  emits_only (createDoc_try w opts t).
Proof. unfold createDoc_try. emits. Qed.

Lemma emits_only_appendText_try (w : world) (opts : AppendTextOptions)
    (t : RealtimeTransport) :
  emits_only (appendText_try w opts t).
Proof. unfold appendText_try. emits. Qed.

Lemma emits_only_deleteDocRealtime_try (opts : DeleteDocRealtimeOptions)
    (t : RealtimeTransport) :
  emits_only (deleteDocRealtime_try opts t).
Proof. unfold deleteDocRealtime_try. emits. Qed.

Lemma emits_never_close (es : list tevent) :
  Forall is_emit es -> filter closes es = [].
Proof.
  induction 1 as [|ev es Hev _ IH]; [reflexivity|].
  destruct ev; try contradiction. simpl. exact IH.
Qed.

Lemma guarded_supplied {A} (w : world) (ro : RealtimeOptions)
    (body : RealtimeTransport -> M A) (t : RealtimeTransport) (st : state) :
  (forall t', emits_only (body t')) ->
  transport ro = Some t ->
  fst (guarded w ro body st) = fst (body t st)
  /\ exists es,
       trace (snd (guarded w ro body st)) = (trace st ++ es)%list
       /\ Forall is_emit es.
Proof.
  intros Hbody Ht. unfold guarded, ensureTransport, needClose, bind. rewrite Ht.
  unfold ret, finally, close_if.
  destruct (Hbody t st) as (es & Hes & Hall).
  destruct (body t st) as [[a|e|] st1]; cbn [fst snd] in *; (split; [reflexivity|]);
    exists es; split; assumption.
Qed.

Lemma guarded_own {A} (w : world) (ro : RealtimeOptions)
    (body : RealtimeTransport -> M A) (st : state) :
  (forall t', emits_only (body t')) ->
  transport ro = None ->
  match connect (socket w) with
  | Throw e =>
      guarded w ro body st = (Fail e, record TConnect st)
  | Return _ =>
      fst (guarded w ro body st) = fst (body (socket w) (record TConnect st))
      /\ exists es,
           Forall is_emit es
           /\ trace (snd (guarded w ro body st)) =
                match fst (guarded w ro body st) with
                | Hang => (trace st ++ TConnect :: es)%list
                | _ => (trace st ++ TConnect :: es ++ [TClose])%list
                end
  end.
Proof.
  intros Hbody Ht. unfold guarded, ensureTransport, needClose, bind. rewrite Ht.
  destruct (connect (socket w)) as [u|e]; [|reflexivity].
  unfold finally, close_if, do_close.
  destruct (Hbody (socket w) (record TConnect st)) as (es & Hes & Hall).
  destruct (body (socket w) (record TConnect st)) as [[a|e|] st1];
    cbn [fst snd record trace] in *; (split; [reflexivity|]);
    exists es; (split; [exact Hall|]); rewrite Hes, <- !app_assoc; reflexivity.
Qed.

(** What the three operations do with [close], given how each of them
    is guarded. *)
Lemma guarded_close_discipline {A} (w : world) (ro : RealtimeOptions)
    (body : RealtimeTransport -> M A) (st : state) :
  (forall t', emits_only (body t')) ->
  let run := guarded w ro body st in
  (forall t, transport ro = Some t ->
     filter closes (trace (snd run)) = filter closes (trace st))
  /\ (transport ro = None ->
       forall u, connect (socket w) = Return u ->
       fst run <> Hang ->
       exists es,
         trace (snd run) = (trace st ++ TConnect :: es ++ [TClose])%list
         /\ filter closes es = [])
  /\ (transport ro = None ->
       forall e, connect (socket w) = Throw e ->
       run = (Fail e, record TConnect st)).
Proof.
  intros Hbody run. subst run. split; [|split].
  - intros t Ht. destruct (guarded_supplied w ro body t st Hbody Ht) as (_ & es & -> & Hall).
    rewrite filter_app, (emits_never_close es Hall), app_nil_r. reflexivity.
  - intros Hnone u Hu Hrun. pose proof (guarded_own w ro body st Hbody Hnone) as Hown.
    rewrite Hu in Hown. destruct Hown as (_ & es & Hall & Htr).
    exists es. split; [|apply emits_never_close; exact Hall].
    destruct (fst (guarded w ro body st)); [exact Htr | exact Htr | contradiction].
  - intros Hnone e He. pose proof (guarded_own w ro body st Hbody Hnone) as Hown.
    rewrite He in Hown. exact Hown.
Qed.

(** ** How the operations run *)

Lemma ensureAckOk_run (ack : jsval) (op : string) (st : state) :
  ensureAckOk ack op st =
    match failure_text ack with
    | None => (Ok tt, st)
    | Some msg => (Fail (ack_failure op msg ack), st)
    end.
Proof.
  unfold ensureAckOk, failure_text, ack_failure.
  destruct (extractRealtimeError ack) as [msg|]; [|reflexivity].
  destruct (String.eqb msg ""); reflexivity.
Qed.

Lemma guarded_result {A} (w : world) (ro : RealtimeOptions)
    (body : RealtimeTransport -> M A) (t : RealtimeTransport) (st : state) :
  transport_in_use w ro = Some t ->
  fst (guarded w ro body st) = fst (body t (entered ro st))
  /\ exists closing,
       trace (snd (guarded w ro body st)) =
         (trace (snd (body t (entered ro st))) ++ closing)%list.
Proof.
  unfold transport_in_use, guarded, ensureTransport, entered, needClose, bind.
  destruct (transport ro) as [t'|].
  - intros Ht. injection Ht as ->. unfold ret, finally, close_if.
    destruct (body t st) as [[a|e|] st1]; cbn [fst snd];
      (split; [reflexivity | exists []; rewrite app_nil_r; reflexivity]).
  - destruct (connect (socket w)) as [u|e]; [|discriminate].
    intros Ht. injection Ht as <-. unfold finally, close_if, do_close.
    destruct (body (socket w) (record TConnect st)) as [[a|e|] st1]; cbn [fst snd];
      (split; [reflexivity|]).
    + exists [TClose]. reflexivity.
    + exists [TClose]. reflexivity.
    + exists []. rewrite app_nil_r. reflexivity.
Qed.

(** A block of which every failure is caught ends well unless it waits
    for ever. *)
Lemma try_catch_swallow (m : M unit) (st : state) :
  fst (try_catch m (fun _ => ret tt) st) =
    match fst (m st) with
    | Hang => Hang
    | _ => Ok tt
    end.
Proof.
  unfold try_catch, ret. destruct (m st) as [[[]|e|] st1]; reflexivity.
Qed.

Lemma do_emit_settles (t : RealtimeTransport) (ev : string) (p : jsval) (st : state) :
  never_silent t -> fst (do_emit t ev p st) <> Hang.
Proof.
  intros Hns. unfold do_emit. cbn [fst].
  destruct (emit t (trace st) ev p) eqn:E; cbn; try discriminate.
  exfalso. exact (Hns _ _ _ E).
Qed.

Lemma append_entry_settles (w : world) (t : RealtimeTransport)
    (ws docId : string) (title : option string) (snapshot : jsval) (st : state) :
  never_silent t ->
  fst (append_entry w t ws docId title snapshot st) <> Hang.
Proof.
  intros Hns. unfold append_entry.
  destruct (match snapshot with JStr b64 => Some (fromBase64 b64) | _ => Buffer_from snapshot end)
    as [buf|]; [|discriminate].
  destruct (byteLength buf =? 0)%nat; [discriminate|].
  destruct (applyUpdate buf) as [rootDoc|]; [|discriminate].
  destruct (match ymap_get (getMap rootDoc "meta") "pages" with
            | Some (YArray l) => (l, getMap rootDoc "meta")
            | _ => ([], ymap_set (getMap rootDoc "meta") "pages" (YArray []))
            end) as [pages meta1].
  destruct (existsb _ pages); [discriminate|].
  unfold bind, Date_now.
  match goal with |- context [do_emit t ?ev ?p ?s] =>
    pose proof (do_emit_settles t ev p s Hns) as Hse;
    destruct (do_emit t ev p s) as [[a|e|] s1]
  end; cbn [fst] in *; try discriminate. contradiction.
Qed.

Lemma load_root_snapshot_result (t : RealtimeTransport) (ws : string) (st : state) :
  (forall e, fst (load_root_snapshot t ws st) <> Fail e)
  /\ (never_silent t -> fst (load_root_snapshot t ws st) <> Hang).
Proof.
  unfold load_root_snapshot, try_catch, bind, do_emit.
  destruct (emit t (trace st) "space:load-doc" (JObj (doc_payload ws ws))) as [res|e|] eqn:E;
    cbn [settle].
  - destruct (negb (truthy res) || negb (is_object_type res) || has_prop res "error");
      unfold ret; split; discriminate.
  - unfold ret. split; discriminate.
  - split; [discriminate|]. intros Hns. exfalso. exact (Hns _ _ _ E).
Qed.

(** The catalogue step never throws; it returns unless an emit of it
    is never answered. *)
Lemma catalog_step_result (w : world) (t : RealtimeTransport)
    (ws docId : string) (title : option string) (st : state) :
  (forall e, fst (appendDocMetaToWorkspaceRoot w t ws docId title st) <> Fail e)
  /\ (never_silent t ->
       fst (appendDocMetaToWorkspaceRoot w t ws docId title st) = Ok tt).
Proof.
  unfold appendDocMetaToWorkspaceRoot, bind.
  destruct (load_root_snapshot_result t ws st) as [Hnf Hnh].
  destruct (load_root_snapshot t ws st) as [[loaded|e|] st1]; cbn [fst] in *.
  - destruct loaded as [snapshotB64|]; [|unfold ret; split; [discriminate | reflexivity]].
    destruct (negb (truthy snapshotB64));
      [unfold ret; split; [discriminate | reflexivity]|].
    rewrite try_catch_swallow.
    pose proof (append_entry_settles w t ws docId title snapshotB64 st1) as Hst.
    destruct (fst (append_entry w t ws docId title snapshotB64 st1));
      (split; [discriminate|]); intros Hns; try reflexivity.
    exfalso. exact (Hst Hns eq_refl).
  - exfalso. exact (Hnf e eq_refl).
  - split; [discriminate|]. intros Hns. exfalso. exact (Hnh Hns eq_refl).
Qed.

(** The payload of a push, field by field. *)
Lemma push_payload_fields (ws docId : string) (u : update) :
  push_payload ws docId u =
    JObj [("spaceType", JStr "workspace");
          ("spaceId", JStr ws);
          ("docId", JStr docId);
          ("update", JStr (toBase64 u))].
Proof. reflexivity. Qed.

(** The fields of a paragraph block. *)
Lemma paragraph_block_fields (paraId txt : string) :
  flavour_of (paragraph_block paraId txt) = Some "affine:paragraph"
  /\ text_of (paragraph_block paraId txt) = Some txt
  /\ children (paragraph_block paraId txt) = [].
Proof. repeat split; reflexivity. Qed.

Lemma joinWorkspace_run (t : RealtimeTransport) (ws v : string) (st : state) :
  joinWorkspace t ws v st =
    (match emit t (trace st) "space:join" (join_payload ws v) with
     | Resolves _ => Ok tt
     | Rejects e => Fail e
     | Silent => Hang
     end,
     record (TEmit "space:join" (join_payload ws v)) st).
Proof.
  unfold joinWorkspace, bind, do_emit, ret.
  destruct (emit t (trace st) "space:join" (join_payload ws v)); reflexivity.
Qed.

(** Once the join is answered, [createDoc] has its update: the document
    id is the next twenty draws. *)
Lemma createDoc_update_run (w : world) (opts : CreateDocOptions)
    (t : RealtimeTransport) (st0 : state) (v : jsval) :
  let join := join_payload (workspaceId (create_base opts))
                (version_of (create_base opts)) in
  emit t (trace st0) "space:join" join = Resolves v ->
  exists u st1,
    createDoc_update w opts t st0 = (Ok (rand_chars w (draws st0) 20, u), st1)
    /\ trace st1 = (trace st0 ++ [TEmit "space:join" join])%list.
Proof.
  intros join Hjoin. unfold createDoc_update, bind.
  rewrite joinWorkspace_run. fold join. rewrite Hjoin.
  unfold randId at 1. cbn [draws record trace ticks].
  destruct (given (content opts)); unfold bind, Date_now, randId, ret;
    cbn [draws trace ticks]; eexists; eexists; split; reflexivity.
Qed.

(** The second half of [createDoc], from the answer to its push. *)
Lemma createDoc_try_after_update (w : world) (opts : CreateDocOptions)
    (t : RealtimeTransport) (st0 st1 : state) (docId : string) (u : update) :
  let ws := workspaceId (create_base opts) in
  let push := push_payload ws docId u in
  createDoc_update w opts t st0 = (Ok (docId, u), st1) ->
  fst (createDoc_try w opts t st0) =
    match emit t (trace st1) "space:push-doc-update" push with
    | Resolves ack =>
        match failure_text ack with
        | Some msg => Fail (ack_failure "space:push-doc-update" msg ack)
        | None =>
            match fst (appendDocMetaToWorkspaceRoot w t ws docId (Some (title opts))
                         (record (TEmit "space:push-doc-update" push) st1)) with
            | Ok _ => Ok {| created_docId := docId;
                            created_timestamp := opt_prop ack "timestamp" |}
            | Fail e => Fail e
            | Hang => Hang
            end
        end
    | Rejects e => Fail e
    | Silent => Hang
    end.
Proof.
  intros ws push Hupd. unfold createDoc_try, bind. rewrite Hupd. cbn [fst snd].
  fold ws. fold push. unfold do_emit.
  destruct (emit t (trace st1) "space:push-doc-update" push) as [ack|e|];
    cbn [settle]; try reflexivity.
  rewrite ensureAckOk_run. destruct (failure_text ack); [reflexivity|].
  destruct (appendDocMetaToWorkspaceRoot w t ws docId (Some (title opts))
              (record (TEmit "space:push-doc-update" push) st1)) as [[[]|e|] st2];
    reflexivity.
Qed.

(** The second half of [appendText], from the answer to its push. *)
Lemma appendText_try_after_update (w : world) (opts : AppendTextOptions)
    (t : RealtimeTransport) (st0 st1 : state) (u : update) :
  let push := push_payload (workspaceId (append_base opts)) (append_docId opts) u in
  appendText_update w opts t st0 = (Ok u, st1) ->
  appendText_try w opts t st0 =
    (match emit t (trace st1) "space:push-doc-update" push with
     | Resolves ack =>
         match failure_text ack with
         | Some msg => Fail (ack_failure "space:push-doc-update" msg ack)
         | None => Ok {| accepted := accepted_of ack;
                         appended_timestamp := opt_prop ack "timestamp" |}
         end
     | Rejects e => Fail e
     | Silent => Hang
     end,
     record (TEmit "space:push-doc-update" push) st1).
Proof.
  intros push Hupd. unfold appendText_try, bind. rewrite Hupd. fold push.
  unfold do_emit.
  destruct (emit t (trace st1) "space:push-doc-update" push) as [ack|e|];
    cbn [settle]; try reflexivity.
  rewrite ensureAckOk_run. destruct (failure_text ack); reflexivity.
Qed.

Lemma deleteDocRealtime_try_run (opts : DeleteDocRealtimeOptions)
    (t : RealtimeTransport) (st0 : state) (v : jsval) :
  let ws := workspaceId (delete_base opts) in
  let join := join_payload ws (version_of (delete_base opts)) in
  let target := JObj (doc_payload ws (delete_docId opts)) in
  emit t (trace st0) "space:join" join = Resolves v ->
  fst (deleteDocRealtime_try opts t st0) =
    match emit t (trace st0 ++ [TEmit "space:join" join])%list "space:delete-doc" target with
    | Resolves ack =>
        match failure_text ack with
        | Some msg => Fail (ack_failure "space:delete-doc" msg ack)
        | None => Ok true
        end
    | Rejects e => Fail e
    | Silent => Hang
    end.
Proof.
  intros ws join target Hjoin. unfold deleteDocRealtime_try, bind.
  rewrite joinWorkspace_run. fold ws. fold join. rewrite Hjoin.
  unfold do_emit. cbn [record trace]. fold target.
  destruct (emit t (trace st0 ++ [TEmit "space:join" join])%list "space:delete-doc" target)
    as [ack|e|]; cbn [settle]; try reflexivity.
  rewrite ensureAckOk_run. destruct (failure_text ack); reflexivity.
Qed.

(** What the catalog step swallows.  When the push of the initial update
    of [createDoc] is acknowledged without error, nothing that happens in
    the best-effort entry into the workspace root document makes the
    operation throw: whatever the transport answers to the emits of that
    step (a rejection, an acknowledgement with an error, a snapshot that
    cannot be replayed), [createDoc] returns the new document id, as
    soon as those emits are answered at all. *)
Theorem catalog_failures_are_swallowed :
  forall (w : world) (opts : CreateDocOptions) (st st1 : state)
         (t : RealtimeTransport) (docId : string) (u : update) (ack : jsval),
    transport_in_use w (create_base opts) = Some t ->
    createDoc_update w opts t (entered (create_base opts) st) = (Ok (docId, u), st1) ->
    emit t (trace st1) "space:push-doc-update"
      (push_payload (workspaceId (create_base opts)) docId u) = Resolves ack ->
    failure_text ack = None ->
    (forall e, fst (createDoc w opts st) <> Fail e)
    /\ (never_silent t ->
         fst (createDoc w opts st) =
           Ok {| created_docId := docId;
                 created_timestamp := opt_prop ack "timestamp" |}).
Proof.
  intros w opts st st1 t docId u ack Huse Hupd Hpush Hclean.
  destruct (guarded_result w (create_base opts) (createDoc_try w opts) t st Huse)
    as [Hres _].
  change (guarded w (create_base opts) (createDoc_try w opts) st)
    with (createDoc w opts st) in Hres.
  rewrite Hres, (createDoc_try_after_update w opts t _ st1 docId u Hupd), Hpush, Hclean.
  match goal with |- context [appendDocMetaToWorkspaceRoot ?a ?b ?c ?d ?e ?f] =>
    destruct (catalog_step_result a b c d e f) as [Hnf Hok]
  end.
  split.
  - intros e He.
    match type of He with match ?x with _ => _ end = _ => destruct x eqn:E end;
      try discriminate.
    injection He as <-. exact (Hnf _ eq_refl).
  - intros Hns. rewrite (Hok Hns). reflexivity.
Qed.

(** C4, as the code has it.  The acknowledgement of the push of
    [createDoc] and [appendText] and of the delete of
    [deleteDocRealtime] is rejected when it is an object whose [error]
    field is truthy and yields a text that is not empty: the field
    itself when it is a string, its [message] when that is a string,
    else its JSON text; the operation then throws
    [realtime <op> failed: <text>] with the acknowledgement attached and
    reports no acceptance.  An acknowledgement without such a field, as
    [{}] or [{accepted: true}], is a success. *)
Theorem ack_error_is_raised :
  (forall (m : list (string * jsval)) (s : string),
      get_prop (JObj m) "error" = JStr s -> s <> "" ->
      failure_text (JObj m) = Some s)
  /\ (forall (m e : list (string * jsval)) (msg : string),
        get_prop (JObj m) "error" = JObj e ->
        get_prop (JObj e) "message" = JStr msg -> msg <> "" ->
        failure_text (JObj m) = Some msg)
  /\ (forall (m e : list (string * jsval)),
        get_prop (JObj m) "error" = JObj e ->
        is_string (get_prop (JObj e) "message") = false ->
        JSON_stringify (JObj e) <> "" ->
        failure_text (JObj m) = Some (JSON_stringify (JObj e)))
  /\ (forall m : list (string * jsval),
        truthy (get_prop (JObj m) "error") = false ->
        failure_text (JObj m) = None)
  /\ failure_text (JObj []) = None
  /\ failure_text (JObj [("accepted", JBool true)]) = None
  /\ failure_text (JObj [("error", JStr "quota exceeded")]) = Some "quota exceeded"
  /\ (forall (w : world) (opts : CreateDocOptions) (st st1 : state)
             (t : RealtimeTransport) (docId : string) (u : update)
             (ack : jsval) (msg : string),
        transport_in_use w (create_base opts) = Some t ->
        createDoc_update w opts t (entered (create_base opts) st) = (Ok (docId, u), st1) ->
        emit t (trace st1) "space:push-doc-update"
          (push_payload (workspaceId (create_base opts)) docId u) = Resolves ack ->
        failure_text ack = Some msg ->
        fst (createDoc w opts st) = Fail (ack_failure "space:push-doc-update" msg ack))
  /\ (forall (w : world) (opts : AppendTextOptions) (st st1 : state)
             (t : RealtimeTransport) (u : update) (ack : jsval),
        transport_in_use w (append_base opts) = Some t ->
        appendText_update w opts t (entered (append_base opts) st) = (Ok u, st1) ->
        emit t (trace st1) "space:push-doc-update"
          (push_payload (workspaceId (append_base opts)) (append_docId opts) u)
          = Resolves ack ->
        fst (appendText w opts st) =
          match failure_text ack with
          | Some msg => Fail (ack_failure "space:push-doc-update" msg ack)
          | None => Ok {| accepted := accepted_of ack;
                          appended_timestamp := opt_prop ack "timestamp" |}
          end)
  /\ (forall (w : world) (opts : DeleteDocRealtimeOptions) (st : state)
             (t : RealtimeTransport) (v ack : jsval),
        transport_in_use w (delete_base opts) = Some t ->
        let st0 := entered (delete_base opts) st in
        let ws := workspaceId (delete_base opts) in
        let join := join_payload ws (version_of (delete_base opts)) in
        emit t (trace st0) "space:join" join = Resolves v ->
        emit t (trace st0 ++ [TEmit "space:join" join])%list "space:delete-doc"
          (JObj (doc_payload ws (delete_docId opts))) = Resolves ack ->
        fst (deleteDocRealtime w opts st) =
          match failure_text ack with
          | Some msg => Fail (ack_failure "space:delete-doc" msg ack)
          | None => Ok true
          end).
Proof.
  repeat match goal with |- _ /\ _ => split end; try reflexivity.
  - intros m s He Hs. apply String.eqb_neq in Hs.
    unfold failure_text, extractRealtimeError.
    cbn [truthy is_object_type typeof negb orb]. rewrite He. cbn [truthy].
    rewrite Hs. cbn [negb]. rewrite Hs. reflexivity.
  - intros m e msg He Hm Hne. apply String.eqb_neq in Hne.
    unfold failure_text, extractRealtimeError.
    cbn [truthy is_object_type typeof negb orb]. rewrite He. cbn [truthy negb].
    rewrite Hm, Hne. reflexivity.
  - intros m e He Hm Hne. apply String.eqb_neq in Hne.
    unfold failure_text, extractRealtimeError.
    cbn [truthy is_object_type typeof negb orb]. rewrite He. cbn [truthy negb].
    destruct (get_prop (JObj e) "message"); try discriminate;
      rewrite Hne; reflexivity.
  - intros m He. unfold failure_text, extractRealtimeError.
    cbn [truthy is_object_type typeof negb orb]. rewrite He. reflexivity.
  - intros w opts st st1 t docId u ack msg Huse Hupd Hpush Hmsg.
    destruct (guarded_result w (create_base opts) (createDoc_try w opts) t st Huse)
      as [Hres _].
    change (guarded w (create_base opts) (createDoc_try w opts) st)
      with (createDoc w opts st) in Hres.
    rewrite Hres, (createDoc_try_after_update w opts t _ st1 docId u Hupd), Hpush, Hmsg.
    reflexivity.
  - intros w opts st st1 t u ack Huse Hupd Hpush.
    destruct (guarded_result w (append_base opts) (appendText_try w opts) t st Huse)
      as [Hres _].
    change (guarded w (append_base opts) (appendText_try w opts) st)
      with (appendText w opts st) in Hres.
    rewrite Hres, (appendText_try_after_update w opts t _ st1 u Hupd). cbn [fst].
    rewrite Hpush. reflexivity.
  - intros w opts st t v ack Huse st0 ws join Hjoin Hdel.
    destruct (guarded_result w (delete_base opts) (deleteDocRealtime_try opts) t st Huse)
      as [Hres _].
    change (guarded w (delete_base opts) (deleteDocRealtime_try opts) st)
      with (deleteDocRealtime w opts st) in Hres.
    rewrite Hres. fold st0.
    rewrite (deleteDocRealtime_try_run opts t st0 v Hjoin). fold ws join.
    rewrite Hdel. reflexivity.
Qed.

(** ** The append without a snapshot *)

Lemma pull_document_degraded (w : world) (t : RealtimeTransport)
    (ws docId : string) (st : state) :
  degraded w (emit t (trace st) "space:load-doc" (JObj (doc_payload ws docId))) ->
  pull_document w t ws docId st =
    (Ok ([], false), record (TEmit "space:load-doc" (JObj (doc_payload ws docId))) st).
Proof.
  intros Hdeg. unfold pull_document, try_catch, bind, do_emit_withTimeout.
  destruct (emit t (trace st) "space:load-doc" (JObj (doc_payload ws docId)))
    as [pulled|e|]; [| |reflexivity].
  - destruct (pull_timer_first w) eqn:Etimer; [reflexivity|].
    destruct Hdeg as [Hf | Hno]; [congruence|].
    cbn [settle]. unfold has_snapshot in Hno.
    destruct (snapshot_of pulled) as [b64|]; [|reflexivity].
    destruct (String.eqb b64 ""); [reflexivity|].
    destruct (byteLength (fromBase64 b64) =? 0)%nat; [reflexivity | discriminate].
  - destruct (pull_timer_first w); reflexivity.
Qed.

Lemma append_paragraph_fresh (docId suffix txt : string) :
  append_paragraph [] ("note:" ++ docId) ("p:" ++ suffix) txt =
    Some (degraded_blocks ("note:" ++ docId) ("p:" ++ suffix) txt).
Proof.
  assert (Hnp : String.eqb ("note:" ++ docId) ("p:" ++ suffix) = false) by reflexivity.
  unfold append_paragraph, degraded_blocks, stub_note.
  cbn [ymap_set ymap_get]. rewrite Hnp. cbn [yval_truthy negb].
  cbn [ymap_get]. rewrite Hnp, String.eqb_refl.
  change (ymap_get _ "sys:children") with (Some (YArray [])).
  cbn [ymap_set]. rewrite Hnp, String.eqb_refl. reflexivity.
Qed.

(** C5.  When the pull of [appendText] fails, times out or brings no
    snapshot, the operation goes on: the note id is [note:] followed by
    the document id; the update it builds holds, in one transaction on an
    empty document, the new paragraph, a block of flavour
    [affine:paragraph] without children whose [prop:text] is the text, and
    a stub of that note whose only child is the paragraph; its next emit
    is [space:push-doc-update] with the workspace, the document id and
    the base64 text of that update, and its outcome is the one of the
    push alone. *)
Theorem degraded_append_pushes_stub :
  forall (w : world) (opts : AppendTextOptions) (st : state)
         (t : RealtimeTransport) (v : jsval),
    let ro := append_base opts in
    let ws := workspaceId ro in
    let docId := append_docId opts in
    let st0 := entered ro st in
    let join := TEmit "space:join" (join_payload ws (version_of ro)) in
    let load := TEmit "space:load-doc" (JObj (doc_payload ws docId)) in
    let noteId := "note:" ++ docId in
    let paraId := "p:" ++ toString36 (now w (ticks st)) ++ rand_chars w (draws st) 6 in
    let doc := setMap [] "blocks" (degraded_blocks noteId paraId (text opts)) in
    let push := JObj [("spaceType", JStr "workspace");
                      ("spaceId", JStr ws);
                      ("docId", JStr docId);
                      ("update", JStr (toBase64 (encodeStateAsUpdate doc)))] in
    transport_in_use w ro = Some t ->
    emit t (trace st0) "space:join" (join_payload ws (version_of ro)) = Resolves v ->
    degraded w (emit t (trace st0 ++ [join])%list "space:load-doc"
                  (JObj (doc_payload ws docId))) ->
    exists st2,
      appendText_update w opts t st0 = (Ok (encodeStateAsUpdate doc), st2)
      /\ trace st2 = (trace st0 ++ [join; load])%list
      /\ applyUpdate (encodeStateAsUpdate doc) = Some doc
      /\ (exists note,
            ymap_get (getMap doc "blocks") noteId = Some note
            /\ flavour_of note = Some "affine:note"
            /\ children note = [ystr paraId])
      /\ (exists para,
            ymap_get (getMap doc "blocks") paraId = Some para
            /\ para = paragraph_block paraId (text opts)
            /\ flavour_of para = Some "affine:paragraph"
            /\ text_of para = Some (text opts)
            /\ children para = [])
      /\ (exists closing,
            trace (snd (appendText w opts st)) =
              (trace st2 ++ TEmit "space:push-doc-update" push :: closing)%list)
      /\ fst (appendText w opts st) =
           match emit t (trace st2) "space:push-doc-update" push with
           | Resolves ack =>
               match failure_text ack with
               | Some msg => Fail (ack_failure "space:push-doc-update" msg ack)
               | None => Ok {| accepted := accepted_of ack;
                               appended_timestamp := opt_prop ack "timestamp" |}
               end
           | Rejects e => Fail e
           | Silent => Hang
           end.
Proof.
  intros w opts st t v ro ws docId st0 join load noteId paraId doc push Huse Hjoin Hdeg.
  assert (Hticks : ticks st0 = ticks st /\ draws st0 = draws st).
  { unfold st0, entered. destruct (transport ro); split; reflexivity. }
  destruct Hticks as [Hticks Hdraws].
  set (st2 := {| trace := (trace st0 ++ [join; load])%list;
                 draws := (draws st + 6)%nat; ticks := S (ticks st) |}).
  assert (Hupd : appendText_update w opts t st0 = (Ok (encodeStateAsUpdate doc), st2)).
  { unfold appendText_update, bind. rewrite joinWorkspace_run.
    fold ro ws docId. rewrite Hjoin.
    rewrite pull_document_degraded by exact Hdeg.
    cbn [fst snd note_to_extend]. unfold ret at 1. fold noteId.
    replace (String.eqb noteId "") with false by reflexivity.
    unfold Date_now, randId. cbn [record trace draws ticks getMap].
    rewrite Hticks, Hdraws. fold paraId.
    unfold paraId at 1. unfold noteId at 1.
    rewrite append_paragraph_fresh. fold noteId paraId. unfold ret.
    unfold st2. rewrite <- app_assoc. reflexivity. }
  exists st2. split; [exact Hupd|]. split; [reflexivity|].
  split; [apply apply_encode|].
  assert (Hnp : String.eqb noteId paraId = false) by reflexivity.
  split.
  { eexists. unfold doc. rewrite getMap_setMap_fresh. unfold degraded_blocks.
    cbn [ymap_get]. rewrite Hnp, String.eqb_refl.
    split; [reflexivity|]. split; reflexivity. }
  split.
  { exists (paragraph_block paraId (text opts)).
    split; [|split; [reflexivity | apply paragraph_block_fields]].
    unfold doc. rewrite getMap_setMap_fresh. unfold degraded_blocks.
    cbn [ymap_get]. rewrite String.eqb_refl. reflexivity. }
  destruct (guarded_result w ro (appendText_try w opts) t st Huse) as [Hres [closing Htr]].
  change (guarded w ro (appendText_try w opts) st) with (appendText w opts st) in Hres, Htr.
  fold st0 in Hres, Htr.
  rewrite (appendText_try_after_update w opts t st0 st2 _ Hupd) in Hres, Htr.
  cbn [fst snd] in Hres, Htr. fold ro ws docId in Hres, Htr.
  rewrite push_payload_fields in Hres, Htr. fold push in Hres, Htr.
  split; [|exact Hres].
  exists closing. rewrite Htr. cbn [record trace]. rewrite <- app_assoc. reflexivity.
Qed.

(** C9, as the code has it.  Each of [createDoc], [appendText] and
    [deleteDocRealtime] leaves a transport supplied by the caller
    unclosed, whether it returns, throws or waits for ever; and when it
    has opened a transport of its own, [connect] having succeeded, it
    closes that transport exactly once, as its last action, before it
    returns or throws. *)
Theorem close_follows_ownership :
  forall (w : world) (st : state),
    (forall opts, close_discipline w st (create_base opts) (createDoc w opts st))
    /\ (forall opts, close_discipline w st (append_base opts) (appendText w opts st))
    /\ (forall opts,
          close_discipline w st (delete_base opts) (deleteDocRealtime w opts st)).
Proof.
  intros w st. split; [|split]; intros opts.
  - destruct (guarded_close_discipline w (create_base opts) (createDoc_try w opts) st
                (emits_only_createDoc_try w opts)) as (Hs & Ho & _).
    split; [exact Hs | exact Ho].
  - destruct (guarded_close_discipline w (append_base opts) (appendText_try w opts) st
                (emits_only_appendText_try w opts)) as (Hs & Ho & _).
    split; [exact Hs | exact Ho].
  - destruct (guarded_close_discipline w (delete_base opts) (deleteDocRealtime_try opts) st
                (emits_only_deleteDocRealtime_try opts)) as (Hs & Ho & _).
    split; [exact Hs | exact Ho].
Qed.

End Realtime.

(* ================================================================== *)
(** * The operations on concrete transports *)
(* ================================================================== *)

Lemma answering_never_silent (event : string) (r : Yjs.reply) :
  r <> Yjs.Silent -> never_silent (answering event r).
Proof.
  intros Hr h ev p. unfold answering. cbn [Yjs.emit].
  destruct (String.eqb ev event); [exact Hr | discriminate].
Qed.

Lemma ack_error_is_raised_witness :
  fst (Yjs.appendText (J := RefJson.json) (Y := RefYjs.yjs) sample_world
         (append_with (supplied (answering "space:push-doc-update"
                                   (Yjs.Resolves quota_ack)))) Yjs.init)
    = Yjs.Fail (Yjs.JsError "realtime space:push-doc-update failed: quota exceeded"
                  (Some quota_ack))
  /\ fst (Yjs.createDoc (J := RefJson.json) (Y := RefYjs.yjs) sample_world
            (create_with (supplied (answering "space:push-doc-update"
                                      (Yjs.Resolves quota_ack)))) Yjs.init)
      = Yjs.Fail (Yjs.JsError "realtime space:push-doc-update failed: quota exceeded"
                    (Some quota_ack))
  /\ Js.includes "realtime space:push-doc-update failed: quota exceeded"
       "quota exceeded" = true.
Proof.
  pose proof (ack_error_is_raised (J := RefJson.json) (Y := RefYjs.yjs))
    as (_ & _ & _ & _ & _ & _ & Htext & Hcreate & Happend & _).
  set (t := answering "space:push-doc-update" (Yjs.Resolves quota_ack)).
  split; [|split; [|reflexivity]].
  - destruct (Yjs.appendText_update (Y := RefYjs.yjs) sample_world
                (append_with (supplied t)) t
                (entered (Yjs.append_base (append_with (supplied t))) Yjs.init))
      as [[u|e|] st1] eqn:Hupd; [|vm_compute in Hupd; discriminate ..].
    rewrite (Happend sample_world (append_with (supplied t)) Yjs.init st1 t u quota_ack
               eq_refl Hupd eq_refl).
    unfold quota_ack. rewrite Htext. reflexivity.
  - destruct (Yjs.createDoc_update (Y := RefYjs.yjs) sample_world
                (create_with (supplied t)) t
                (entered (Yjs.create_base (create_with (supplied t))) Yjs.init))
      as [[[docId u]|e|] st1] eqn:Hupd; [|vm_compute in Hupd; discriminate ..].
    rewrite (Hcreate sample_world (create_with (supplied t)) Yjs.init st1 t docId u
               quota_ack "quota exceeded" eq_refl Hupd eq_refl Htext).
    reflexivity.
Defined.

(** C4 as stated does not hold.  An acknowledgement that carries an
    [error] field whose value is null is taken for a success: with it
    [createDoc] returns its document id and [appendText] reports
    [accepted = true].  And the acknowledgement of the join is not looked
    at: with [{error: "quota exceeded"}] for the join alone, the three
    operations succeed. *)
Lemma error_field_not_always_raised :
  Js.has_prop null_error_ack "error" = true
  /\ fst (Yjs.createDoc (J := RefJson.json) (Y := RefYjs.yjs) sample_world
            (create_with (supplied null_error_transport)) Yjs.init)
      = Yjs.Ok {| Yjs.created_docId := "aaaaaaaaaaaaaaaaaaaa";
                  Yjs.created_timestamp := Js.JUndefined |}
  /\ fst (Yjs.appendText (J := RefJson.json) (Y := RefYjs.yjs) sample_world
            (append_with (supplied null_error_transport)) Yjs.init)
      = Yjs.Ok {| Yjs.accepted := true; Yjs.appended_timestamp := Js.JUndefined |}
  /\ fst (Yjs.deleteDocRealtime (J := RefJson.json) sample_world
            (delete_with (supplied null_error_transport)) Yjs.init)
      = Yjs.Ok true
  /\ fst (Yjs.createDoc (J := RefJson.json) (Y := RefYjs.yjs) sample_world
            (create_with (supplied (answering "space:join" (Yjs.Resolves quota_ack))))
            Yjs.init)
      = Yjs.Ok {| Yjs.created_docId := "aaaaaaaaaaaaaaaaaaaa";
                  Yjs.created_timestamp := Js.JNum 42 |}
  /\ fst (Yjs.appendText (J := RefJson.json) (Y := RefYjs.yjs) sample_world
            (append_with (supplied (answering "space:join" (Yjs.Resolves quota_ack))))
            Yjs.init)
      = Yjs.Ok {| Yjs.accepted := true; Yjs.appended_timestamp := Js.JNum 42 |}
  /\ fst (Yjs.deleteDocRealtime (J := RefJson.json) sample_world
            (delete_with (supplied (answering "space:join" (Yjs.Resolves quota_ack))))
            Yjs.init)
      = Yjs.Ok true.
Proof. vm_compute. repeat split; reflexivity. Qed.

Lemma degraded_append_pushes_stub_witness :
  fst (Yjs.appendText (J := RefJson.json) (Y := RefYjs.yjs) sample_world
         (append_with (supplied (answering "space:load-doc"
                                   (Yjs.Rejects (Yjs.JsError "load failed" None)))))
         Yjs.init)
    = Yjs.Ok {| Yjs.accepted := true; Yjs.appended_timestamp := Js.JNum 42 |}.
Proof.
  set (t := answering "space:load-doc" (Yjs.Rejects (Yjs.JsError "load failed" None))).
  destruct (degraded_append_pushes_stub (J := RefJson.json) (Y := RefYjs.yjs)
              sample_world (append_with (supplied t)) Yjs.init t
              (Js.JObj [("accepted", Js.JBool true); ("timestamp", Js.JNum 42)])
              eq_refl eq_refl (or_intror I))
    as (st2 & _ & _ & _ & _ & _ & _ & Hres).
  rewrite Hres. reflexivity.
Defined.

Lemma catalog_failures_are_swallowed_witness :
  fst (Yjs.createDoc (J := RefJson.json) (Y := RefYjs.yjs) sample_world
         (create_with (supplied (answering "space:load-doc" timed_out))) Yjs.init)
    = Yjs.Ok {| Yjs.created_docId := "aaaaaaaaaaaaaaaaaaaa";
                Yjs.created_timestamp := Js.JNum 42 |}.
Proof.
  set (t := answering "space:load-doc" timed_out).
  destruct (createDoc_update_run (Y := RefYjs.yjs) sample_world
              (create_with (supplied t)) t Yjs.init
              (Js.JObj [("accepted", Js.JBool true); ("timestamp", Js.JNum 42)]) eq_refl)
    as (u & st1 & Hupd & _).
  apply (proj2 (catalog_failures_are_swallowed (J := RefJson.json) (Y := RefYjs.yjs)
                  sample_world (create_with (supplied t)) Yjs.init st1 t
                  "aaaaaaaaaaaaaaaaaaaa" u
                  (Js.JObj [("accepted", Js.JBool true); ("timestamp", Js.JNum 42)])
                  eq_refl Hupd eq_refl eq_refl)).
  apply answering_never_silent. discriminate.
Defined.

Lemma close_follows_ownership_witness :
  filter closes
    (Yjs.trace (snd (Yjs.createDoc (J := RefJson.json) (Y := RefYjs.yjs) sample_world
                       (create_with (supplied quiet_transport)) Yjs.init))) = []
  /\ exists es,
       Yjs.trace (snd (Yjs.deleteDocRealtime (J := RefJson.json) sample_world
                         (delete_with own) Yjs.init))
         = (Yjs.TConnect :: es ++ [Yjs.TClose])%list
       /\ filter closes es = [].
Proof.
  destruct (close_follows_ownership (J := RefJson.json) (Y := RefYjs.yjs)
              sample_world Yjs.init) as (Hcreate & _ & Hdelete).
  split.
  - apply (proj1 (Hcreate (create_with (supplied quiet_transport))) quiet_transport eq_refl).
  - apply (proj2 (Hdelete (delete_with own)) eq_refl tt eq_refl).
    vm_compute. discriminate.
Defined.

(** C9 as stated does not hold: an operation that builds its own
    transport and whose [connect] is rejected throws without a [close]
    of that transport. *)
Lemma refused_connection_is_not_closed :
  Yjs.createDoc (J := RefJson.json) (Y := RefYjs.yjs) unreachable_world
    (create_with own) Yjs.init
    = (Yjs.Fail (Yjs.JsError "realtime connect timeout" None), after_connect)
  /\ Yjs.appendText (J := RefJson.json) (Y := RefYjs.yjs) unreachable_world
       (append_with own) Yjs.init
     = (Yjs.Fail (Yjs.JsError "realtime connect timeout" None), after_connect)
  /\ Yjs.deleteDocRealtime (J := RefJson.json) unreachable_world
       (delete_with own) Yjs.init
     = (Yjs.Fail (Yjs.JsError "realtime connect timeout" None), after_connect)
  /\ filter closes (Yjs.trace after_connect) = [].
Proof. vm_compute. repeat split; reflexivity. Qed.

(** C8.  The catalog step has no timer: where the load of the workspace
    root document is never answered, [createDoc] does not return the id
    of the document that it has pushed.  On a transport that
    acknowledges the join and the push and leaves [space:load-doc]
    unanswered, the update is built under the id [aaaaaaaaaaaaaaaaaaaa],
    its push is acknowledged without error, the load of the root
    document is the last event, and the operation is left waiting. *)
Theorem unanswered_catalog_load_blocks_createDoc :
  exists (u : Yjs.update (YjsLib := RefYjs.yjs)) (st1 : Yjs.state),
    Yjs.createDoc_update (Y := RefYjs.yjs) sample_world
      (create_with (supplied (answering "space:load-doc" Yjs.Silent)))
      (answering "space:load-doc" Yjs.Silent) Yjs.init
    = (Yjs.Ok ("aaaaaaaaaaaaaaaaaaaa", u), st1)
    /\ Yjs.emit (answering "space:load-doc" Yjs.Silent) (Yjs.trace st1)
         "space:push-doc-update"
         (Js.JObj [("spaceType", Js.JStr "workspace");
                   ("spaceId", Js.JStr "ws-1");
                   ("docId", Js.JStr "aaaaaaaaaaaaaaaaaaaa");
                   ("update", Js.JStr (Yjs.toBase64 u))])
       = Yjs.Resolves (Js.JObj [("accepted", Js.JBool true);
                                ("timestamp", Js.JNum 42)])
    /\ failure_text (J := RefJson.json)
         (Js.JObj [("accepted", Js.JBool true); ("timestamp", Js.JNum 42)]) = None
    /\ Yjs.createDoc (J := RefJson.json) (Y := RefYjs.yjs) sample_world
         (create_with (supplied (answering "space:load-doc" Yjs.Silent))) Yjs.init
       = (Yjs.Hang,
          {| Yjs.trace :=
               (Yjs.trace st1
                ++ [Yjs.TEmit "space:push-doc-update"
                      (Js.JObj [("spaceType", Js.JStr "workspace");
                                ("spaceId", Js.JStr "ws-1");
                                ("docId", Js.JStr "aaaaaaaaaaaaaaaaaaaa");
                                ("update", Js.JStr (Yjs.toBase64 u))]);
                    Yjs.TEmit "space:load-doc"
                      (Js.JObj (Yjs.doc_payload "ws-1" "ws-1"))])%list;
             Yjs.draws := 26; Yjs.ticks := 1 |}).
Proof.
  eexists. eexists. split; [vm_compute; reflexivity|].
  split; [reflexivity|]. split; [vm_compute; reflexivity|].
  vm_compute. reflexivity.
Qed.

(* ================================================================== *)
(** * Redaction of configurations and credentials from the environment *)
(* ================================================================== *)

Section NestedValues.
Import Js.

Variable P : jsval -> Prop.
Hypothesis Hleaf :
  forall v, match v with JArr _ | JObj _ => False | _ => True end -> P v.
Hypothesis Harr : forall items, Forall P items -> P (JArr items).
Hypothesis Hobj :
  forall props, Forall (fun kv => P (snd kv)) props -> P (JObj props).

(** Induction on plain data, with the hypothesis at hand for every item
    of an array and every value of an object. *)
Lemma jsval_nested_ind : forall v : jsval, P v.
Proof.
  fix IH 1. intros [ | | b | n | s | items | props].
  1-5: apply Hleaf; exact I.
  - apply Harr.
    refine ((fix each (l : list jsval) : Forall P l :=
               match l with
               | [] => Forall_nil _
               | x :: rest => Forall_cons _ (IH x) (each rest)
               end) items).
  - apply Hobj.
    refine ((fix each (l : list (string * jsval))
               : Forall (fun kv => P (snd kv)) l :=
               match l with
               | [] => Forall_nil _
               | kv :: rest => Forall_cons _ (IH (snd kv)) (each rest)
               end) props).
Qed.

End NestedValues.

Section ConfigRedaction.
Import Js Credentials.
Local Open Scope nat_scope.

Lemma redactValue_default_shape (value : jsval) :
  let s := secret_text value in
  let n := String.length s in
  redactValue value None =
    (if n =? 0 then ""
     else if n <=? 6 then repeat "*" n
     else substring 0 4 s ++ repeat "*" (n - 6) ++ substring (n - 2) 2 s).
Proof.
  intros s n.
  destruct (n =? 0) eqn:E0.
  - apply Nat.eqb_eq in E0. unfold redactValue; simpl or_default.
    fold (secret_text value); fold s. unfold len. fold n. rewrite E0. reflexivity.
  - apply Nat.eqb_neq in E0.
    destruct (n <=? 6) eqn:E6.
    + apply Nat.leb_le in E6. unfold redactValue; simpl or_default.
      fold (secret_text value); fold s. unfold len. fold n.
      destruct (Z.of_nat n =? 0)%Z eqn:Z0; [apply Z.eqb_eq in Z0; lia|].
      destruct (Z.of_nat n <=? 4 + 2)%Z eqn:Z6; [|apply Z.leb_gt in Z6; lia].
      f_equal; lia.
    + apply Nat.leb_gt in E6. apply redactValue_long. exact E6.
Qed.

Lemma length_redactValue (value : jsval) :
  String.length (redactValue value None) = String.length (secret_text value).
Proof.
  rewrite redactValue_default_shape. cbv zeta.
  set (s := secret_text value). set (n := String.length s).
  destruct (n =? 0) eqn:E0; [apply Nat.eqb_eq in E0; simpl; lia|].
  apply Nat.eqb_neq in E0.
  destruct (n <=? 6) eqn:E6; [apply length_repeat_star|].
  apply Nat.leb_gt in E6.
  rewrite !length_append, length_repeat_star.
  rewrite !length_substring by (fold n; lia). lia.
Qed.

Lemma redactValue_masked (value : jsval) : masked (redactValue value None).
Proof.
  unfold masked. rewrite length_redactValue.
  rewrite redactValue_default_shape. cbv zeta.
  set (s := secret_text value). set (n := String.length s).
  destruct (n =? 0) eqn:E0.
  { apply Nat.eqb_eq in E0. rewrite E0. split; [reflexivity | intros; lia]. }
  destruct (n <=? 6) eqn:E6.
  { apply Nat.leb_le in E6. split; [reflexivity | intros; lia]. }
  apply Nat.leb_gt in E6. split; [lia|].
  intros i H4 Hi.
  assert (L4 : String.length (substring 0 4 s) = 4)
    by (apply length_substring; fold n; lia).
  rewrite get_append_right by lia. rewrite L4.
  rewrite <- append_correct1 by (rewrite length_repeat_star; lia).
  apply get_repeat_star. lia.
Qed.

Lemma length_zero_empty (s : string) : String.length s = 0 -> s = "".
Proof. destruct s; [reflexivity | discriminate]. Qed.

Lemma get_beyond (s : string) (i : nat) :
  String.length s <= i -> String.get i s = None.
Proof.
  revert i; induction s as [|c s IH]; intros i H; [reflexivity|].
  destruct i as [|i]; simpl in *; [lia | apply IH; lia].
Qed.

(** A masked text is its own redaction. *)
Lemma redactValue_fixed (s : string) :
  masked s -> redactValue (JStr s) None = s.
Proof.
  intros [Hshort Hmid]. rewrite redactValue_default_shape. cbv zeta.
  change (secret_text (JStr s)) with s. set (n := String.length s) in *.
  destruct (n =? 0) eqn:E0.
  { apply Nat.eqb_eq in E0. symmetry. apply length_zero_empty. exact E0. }
  destruct (n <=? 6) eqn:E6.
  { apply Nat.leb_le in E6. symmetry. apply Hshort. exact E6. }
  apply Nat.leb_gt in E6. apply get_correct. intros i.
  assert (L4 : String.length (substring 0 4 s) = 4)
    by (apply length_substring; fold n; lia).
  assert (L2 : String.length (substring (n - 2) 2 s) = 2)
    by (apply length_substring; fold n; lia).
  destruct (Nat.lt_ge_cases i 4) as [Hlt | Hge].
  - rewrite <- append_correct1 by lia.
    rewrite substring_correct1 by lia. f_equal; lia.
  - rewrite get_append_right by lia. rewrite L4.
    destruct (Nat.lt_ge_cases i (n - 2)) as [Hmidi | Htail].
    + rewrite <- append_correct1 by (rewrite length_repeat_star; lia).
      rewrite get_repeat_star by lia. symmetry. apply Hmid; lia.
    + rewrite get_append_right by (rewrite length_repeat_star; lia).
      rewrite length_repeat_star.
      destruct (Nat.lt_ge_cases i n) as [Hin | Hout].
      * rewrite substring_correct1 by lia. f_equal; lia.
      * rewrite substring_correct2 by lia. symmetry. apply get_beyond. fold n. lia.
Qed.

Lemma redact_entry_masked (v : jsval) :
  exists s : string, redact_entry v = JStr s /\ masked s.
Proof.
  destruct v; cbn [redact_entry]; eexists; (split; [reflexivity|]);
    apply redactValue_masked.
Qed.

Lemma redact_entry_again (v : jsval) :
  redact_entry (redact_entry v) = redact_entry v.
Proof.
  destruct (redact_entry_masked v) as (s & -> & Hs).
  cbn [redact_entry]. rewrite (redactValue_fixed s Hs). reflexivity.
Qed.

(** X1.  In the value that [redactConfigDeep] returns, every value under
    a sensitive key, at any depth of objects and arrays, is a masked
    text: it shows at most its first four and its last two code units. *)
Theorem redactConfigDeep_masks_every_secret :
  forall (obj : jsval) (keys : option (list string)),
    all_masked (or_default keys SENSITIVE_KEYS) (redactConfigDeep obj keys).
Proof.
  intros obj keys. induction obj using jsval_nested_ind.
  - destruct obj; try contradiction; exact I.
  - cbn [redactConfigDeep all_masked].
    induction H as [|x rest Hx _ IH]; cbn [map]; [exact I | split; assumption].
  - cbn [redactConfigDeep all_masked].
    induction H as [|[k x] rest Hx _ IH]; [exact I|]. cbn [snd] in Hx.
    split; [|exact IH].
    destruct (has_key (or_default keys SENSITIVE_KEYS) k);
      [apply redact_entry_masked | exact Hx].
Qed.

(** X2.  [redactConfigDeep] is idempotent: redacting a redacted value
    changes nothing. *)
Theorem redactConfigDeep_idempotent :
  forall (obj : jsval) (keys : option (list string)),
    redactConfigDeep (redactConfigDeep obj keys) keys = redactConfigDeep obj keys.
Proof.
  intros obj keys. induction obj using jsval_nested_ind.
  - destruct obj; try contradiction; reflexivity.
  - cbn [redactConfigDeep]. f_equal.
    induction H as [|x rest Hx _ IH]; cbn [map]; [reflexivity|].
    rewrite Hx. f_equal. exact IH.
  - cbn [redactConfigDeep]. f_equal.
    induction H as [|[k x] rest Hx _ IH]; [reflexivity|]. cbn [snd] in Hx.
    rewrite IH. f_equal. f_equal.
    destruct (has_key (or_default keys SENSITIVE_KEYS) k);
      [apply redact_entry_again | exact Hx].
Qed.


End ConfigRedaction.


Section CredentialEdges.
Import Js Credentials.

Lemma substring_all (s : string) : substring 0 (String.length s) s = s.
Proof. induction s as [|c s IH]; simpl; [reflexivity | now rewrite IH]. Qed.

(** X4.  With [suffix: 0] the tail that [redactValue] keeps is
    [str.slice(-0)], the whole text: for a text longer than the prefix,
    the result is the head, the run of masks, and then the complete
    value. *)
Theorem redactValue_suffix_zero_appends_the_value :
  forall (value : jsval) (p : Z) (m : option string),
    0 <= p < len (secret_text value) ->
    redactValue value (Some {| prefix := Some p; suffix := Some 0; mask := m |}) =
      substring 0 (Z.to_nat p) (secret_text value)
      ++ repeat (or_default m "*") (Z.to_nat (len (secret_text value) - p))
      ++ secret_text value.
Proof.
  intros value p m Hp. unfold redactValue. cbn [or_default prefix suffix mask].
  fold (secret_text value). set (s := secret_text value) in *.
  destruct (len s =? 0) eqn:E0; [apply Z.eqb_eq in E0; lia|].
  destruct (len s <=? p + 0) eqn:E1; [apply Z.leb_le in E1; lia|].
  unfold slice. change (- 0) with 0. change (0 <? 0) with false. cbv iota.
  destruct (p <? 0) eqn:Ep; [apply Z.ltb_lt in Ep; lia|].
  f_equal; [f_equal; lia|]. f_equal; [f_equal; lia|].
  replace (Z.to_nat (Z.min 0 (len s))) with 0%nat by lia.
  replace (Z.to_nat (Z.max (len s - Z.min 0 (len s)) 0)) with (String.length s)
    by (unfold len; lia).
  apply substring_all.
Qed.

Lemma trim_start_head (s : string) :
  match hd_error (list_ascii_of_string (trim_start s)) with
  | Some c => is_space c = false
  | None => True
  end.
Proof.
  induction s as [|c s IH]; [exact I|].
  cbn [trim_start]. destruct (is_space c) eqn:E; [exact IH|].
  cbn. exact E.
Qed.

Lemma drop_spaces_suffix (l : list ascii) :
  exists sp : list ascii, l = (sp ++ drop_spaces l)%list.
Proof.
  induction l as [|c l [sp IH]]; [exists []; reflexivity|].
  cbn [drop_spaces]. destruct (is_space c).
  - exists (c :: sp). cbn. f_equal. exact IH.
  - exists []. reflexivity.
Qed.

Lemma drop_spaces_head (l : list ascii) :
  match hd_error (drop_spaces l) with
  | Some c => is_space c = false
  | None => True
  end.
Proof.
  induction l as [|c l IH]; [exact I|].
  cbn [drop_spaces]. destruct (is_space c) eqn:E; [exact IH|]. cbn. exact E.
Qed.

Lemma trim_trimmed (s : string) : trimmed (trim s).
Proof.
  unfold trimmed, trim, rev_string. cbv zeta.
  rewrite list_ascii_of_string_of_list_ascii, rev_involutive.
  set (l := list_ascii_of_string (trim_start s)).
  split; [|apply drop_spaces_head].
  destruct (drop_spaces_suffix (rev l)) as [sp Hsp].
  assert (Hl : l = (rev (drop_spaces (rev l)) ++ rev sp)%list).
  { rewrite <- rev_app_distr, <- Hsp, rev_involutive. reflexivity. }
  pose proof (trim_start_head s) as Hhead. fold l in Hhead.
  destruct (rev (drop_spaces (rev l))) as [|c kept]; [exact I|].
  rewrite Hl in Hhead. exact Hhead.
Qed.

(** X5.  [readCredentialsFromEnv] returns the key [token] exactly when
    AFFINE_TOKEN is set to a text that holds more than white space, and
    the key [cookie] exactly when AFFINE_COOKIE is; what it returns
    under them is that text without the white space around it, so it is
    never empty and has no white space at either end. *)
Theorem readCredentialsFromEnv_trims :
  forall env : ProcessEnv,
    let out := readCredentialsFromEnv env in
    (forall key var : string,
        (key = "token" /\ var = "AFFINE_TOKEN")
        \/ (key = "cookie" /\ var = "AFFINE_COOKIE") ->
        (has_prop out key = true <->
         exists raw : string, env var = Some raw /\ trim raw <> "")
        /\ (forall raw : string,
              env var = Some raw -> trim raw <> "" ->
              get_prop out key = JStr (trim raw)))
    /\ (forall (key : string) (v : jsval),
          In (key, v) (spread out) ->
          exists s : string, v = JStr s /\ s <> "" /\ trimmed s).
Proof.
  intros env out. subst out. unfold readCredentialsFromEnv. cbv zeta.
  destruct (env "AFFINE_TOKEN") as [rt|] eqn:Et;
    destruct (env "AFFINE_COOKIE") as [rc|] eqn:Ec; cbn [option_map];
    try (destruct (String.eqb (trim rt) "") eqn:Ert;
         [apply String.eqb_eq in Ert | apply String.eqb_neq in Ert]);
    try (destruct (String.eqb (trim rc) "") eqn:Erc;
         [apply String.eqb_eq in Erc | apply String.eqb_neq in Erc]).
  all: split.
  all: try (intros key v Hin; cbn in Hin;
            repeat match goal with
                   | H : _ \/ _ |- _ => destruct H
                   | H : False |- _ => contradiction
                   | H : (_, _) = (_, _) |- _ => injection H as <- <-
                   end;
            (eexists; split; [reflexivity | split; [assumption | apply trim_trimmed]])).
  all: intros key var [[-> ->] | [-> ->]]; cbn; rewrite ?Et, ?Ec;
    (split; [split; [intros H | intros (raw & Hraw & Hne)] | intros raw Hraw Hne]);
    try discriminate; try (injection Hraw as <-); try contradiction;
    try reflexivity; try (eexists; split; [reflexivity | assumption]).
Qed.

End CredentialEdges.

Lemma redactValue_suffix_zero_appends_the_value_witness :
  Credentials.redactValue (Js.JStr "abcdefghij")
    (Some {| Credentials.prefix := Some 4; Credentials.suffix := Some 0;
             Credentials.mask := None |})
  = "abcd******abcdefghij".
Proof.
  apply (redactValue_suffix_zero_appends_the_value (Js.JStr "abcdefghij") 4 None).
  vm_compute. split; [discriminate | reflexivity].
Defined.

(* ================================================================== *)
(** * The attempts of a request *)
(* ================================================================== *)

Section RequestAttempts.
Import Js Http.
Context {J : JsonLib}.

(** The run of the loop from any attempt on: it stops at the first
    attempt that does not ask for another one. *)
Lemma attempts_run (opts : RequestOptions) (net : network) :
  forall (left : nat) (att : Z) (log : list event),
    (0 < left)%nat ->
    att + Z.of_nat left = maxAttempts_of opts + 1 ->
    exists k : nat,
      (1 <= k <= left)%nat
      /\ snd (attempts opts net left att log) = (log ++ attempt_log net att k)%list
      /\ on_exchange opts (att + Z.of_nat k - 1)
           (exchange_at net (att + Z.of_nat k - 1))
         = Done (fst (attempts opts net left att log))
      /\ (forall a : Z, att <= a < att + Z.of_nat k - 1 ->
            on_exchange opts a (exchange_at net a) = Again).
Proof.
  induction left as [|left IH]; intros att log Hpos Hsum; [lia|].
  destruct (on_exchange opts att (exchange_at net att)) as [r|] eqn:E.
  - exists 1%nat. rewrite (attempts_done opts net left att log r E).
    cbn [fst snd attempt_log]. split; [lia|]. split; [reflexivity|].
    split; [|intros a Ha; lia].
    replace (att + Z.of_nat 1 - 1) with att by lia. exact E.
  - rewrite (attempts_again opts net left att log E).
    destruct left as [|left'].
    + exfalso. assert (Hfinal : att = maxAttempts_of opts) by lia.
      subst att. exact (on_exchange_final opts _ E).
    + destruct (IH (att + 1)
                  (log ++ [EvExchange att; EvSleep (backoff_ms net att)])%list
                  ltac:(lia) ltac:(lia))
        as (k & Hk & Hlog & Hdone & Hagain).
      exists (S k). split; [lia|]. split.
      * rewrite Hlog, <- app_assoc. cbn [app attempt_log].
        destruct k as [|k]; [lia | reflexivity].
      * split.
        -- replace (att + Z.of_nat (S k) - 1) with (att + 1 + Z.of_nat k - 1) by lia.
           exact Hdone.
        -- intros a Ha. destruct (Z.eq_dec a att) as [-> | Hne]; [exact E|].
           apply Hagain. lia.
Qed.

Lemma request_run (opts : RequestOptions) (net : network) :
  exists k : nat,
    1 <= Z.of_nat k <= maxAttempts_of opts
    /\ snd (request opts net) = attempt_log net 1 k
    /\ on_exchange opts (Z.of_nat k) (exchange_at net (Z.of_nat k))
       = Done (fst (request opts net))
    /\ (forall a : Z, 1 <= a < Z.of_nat k ->
          on_exchange opts a (exchange_at net a) = Again).
Proof.
  pose proof (maxAttempts_of_pos opts) as Hmax.
  destruct (attempts_run opts net (Z.to_nat (maxAttempts_of opts)) 1 []
              ltac:(lia) ltac:(lia))
    as (k & Hk & Hlog & Hdone & Hagain).
  exists k. split; [lia|]. split; [exact Hlog|]. split.
  - replace (Z.of_nat k) with (1 + Z.of_nat k - 1) by lia. exact Hdone.
  - intros a Ha. apply Hagain. lia.
Qed.

(** X6.  [request] makes the attempts 1, 2, ... in turn and stops at the
    first one that does not ask for a retry, which gives its result; it
    makes at most [maxAttempts] of them, sleeps once between two
    attempts and never after the last. *)
Theorem request_stops_at_first_settled_attempt :
  forall (opts : RequestOptions) (net : network),
    exists k : nat,
      1 <= Z.of_nat k <= maxAttempts_of opts
      /\ snd (request opts net) = attempt_log net 1 k
      /\ on_exchange opts (Z.of_nat k) (exchange_at net (Z.of_nat k))
         = Done (fst (request opts net))
      /\ (forall a : Z, 1 <= a < Z.of_nat k ->
            on_exchange opts a (exchange_at net a) = Again).
Proof.
  intros opts net. pose proof (maxAttempts_of_pos opts) as Hmax.
  destruct (attempts_run opts net (Z.to_nat (maxAttempts_of opts)) 1 []
              ltac:(lia) ltac:(lia))
    as (k & Hk & Hlog & Hdone & Hagain).
  exists k. split; [lia|]. split; [exact Hlog|]. split.
  - replace (Z.of_nat k) with (1 + Z.of_nat k - 1) by lia. exact Hdone.
  - intros a Ha. apply Hagain. lia.
Qed.

Lemma attempt_log_sleeps (net : network) (k : nat) :
  forall (from ms : Z),
    In (EvSleep ms) (attempt_log net from k) ->
    exists a : Z, from <= a < from + Z.of_nat k - 1 /\ ms = backoff_ms net a.
Proof.
  induction k as [|k IH]; intros from ms Hin; [destruct Hin|].
  cbn [attempt_log] in Hin. destruct k as [|k'].
  - destruct Hin as [Hin | []]. discriminate Hin.
  - destruct Hin as [Hin | [Hin | Hin]]; [discriminate Hin| |].
    + injection Hin as <-. exists from. split; [lia | reflexivity].
    + destruct (IH (from + 1) ms Hin) as (a & Ha & Hms).
      exists a. split; [lia | exact Hms].
Qed.

(** X7.  With the jitter that the code draws, from -50 to 49, every
    sleep of [request] follows an attempt [a] that is not the last one
    allowed and lasts between 200*2^(a-1) - 50 and 200*2^(a-1) + 49
    milliseconds, hence at least 150. *)
Theorem request_sleeps_follow_the_backoff :
  forall (opts : RequestOptions) (net : network),
    (forall a : Z, -50 <= jitter_at net a <= 49) ->
    forall ms : Z,
      In (EvSleep ms) (snd (request opts net)) ->
      exists a : Z,
        1 <= a < maxAttempts_of opts
        /\ ms = 200 * 2 ^ (a - 1) + jitter_at net a
        /\ 200 * 2 ^ (a - 1) - 50 <= ms <= 200 * 2 ^ (a - 1) + 49
        /\ 150 <= ms.
Proof.
  intros opts net Hjit ms Hin.
  destruct (request_run opts net) as (k & Hk & Hlog & _ & _).
  rewrite Hlog in Hin.
  destruct (attempt_log_sleeps net k 1 ms Hin) as (a & Ha & Hms).
  exists a. split; [lia|].
  assert (Hpow : 0 < 2 ^ (a - 1)) by (apply Z.pow_pos_nonneg; lia).
  specialize (Hjit a). unfold backoff_ms in Hms. cbv zeta in Hms.
  rewrite Z.max_r in Hms by lia. subst ms. repeat split; lia.
Qed.

Lemma on_exchange_throw_shape (opts : RequestOptions) (att : Z) (ex : exchange)
    (err : HttpError) :
  on_exchange opts att ex = Done (Throw err) ->
  name err <> HttpErrorName
  /\ attempt err = att
  /\ (retryable err = true -> att = maxAttempts_of opts).
Proof.
  unfold on_exchange, try_block, catch_block. cbv zeta.
  destruct ex as [st hs raw | e].
  - destruct ((200 <=? st) && (st <? 300)).
    + destruct (parse_body opts raw); [discriminate|].
      cbn. intros H. injection H as <-. cbn.
      split; [discriminate|]. split; [reflexivity | discriminate].
    + cbn [retryable new_ResponseError].
      destruct (retryOnStatus_of opts st) eqn:Er;
        destruct (att =? maxAttempts_of opts) eqn:Ea; cbn;
        try discriminate; intros H; injection H as <-; cbn;
        (split; [discriminate|]); (split; [reflexivity|]);
        first [intros _; apply Z.eqb_eq; exact Ea | discriminate].
  - unfold wrap_raw. cbv zeta.
    destruct (is_timeout_code (error_code e)).
    + cbn. destruct (att =? maxAttempts_of opts) eqn:Ea; [|discriminate].
      intros H. injection H as <-. cbn.
      split; [discriminate|]. split; [reflexivity|].
      intros _. apply Z.eqb_eq. exact Ea.
    + destruct (t_statusCode e) as [ | | b | st | s | l | m];
        try (cbn; destruct (att =? maxAttempts_of opts) eqn:Ea; [|discriminate];
             intros H; injection H as <-; cbn;
             split; [discriminate|]; split; [reflexivity|];
             intros _; apply Z.eqb_eq; exact Ea).
      destruct (st =? 0).
      * cbn. destruct (att =? maxAttempts_of opts) eqn:Ea; [|discriminate].
        intros H. injection H as <-. cbn.
        split; [discriminate|]. split; [reflexivity|].
        intros _. apply Z.eqb_eq. exact Ea.
      * cbn [retryable new_ResponseError].
        destruct (retryOnStatus_of opts st) eqn:Er;
          destruct (att =? maxAttempts_of opts) eqn:Ea; cbn;
          try discriminate; intros H; injection H as <-; cbn;
          (split; [discriminate|]); (split; [reflexivity|]);
          first [intros _; apply Z.eqb_eq; exact Ea | discriminate].
Qed.

(** X8.  An error that [request] throws is a timeout, network or
    response error, never the bare [HttpError] that follows the loop;
    it carries the number of the attempt that raised it, between 1 and
    [maxAttempts]; and a retryable error is only ever thrown by the
    last attempt allowed. *)
Theorem request_throws_classified_errors :
  forall (opts : RequestOptions) (net : network) (err : HttpError),
    fst (request opts net) = Throw err ->
    name err <> HttpErrorName
    /\ 1 <= attempt err <= maxAttempts_of opts
    /\ (retryable err = true -> attempt err = maxAttempts_of opts)
    /\ on_exchange opts (attempt err) (exchange_at net (attempt err)) = Done (Throw err).
Proof.
  intros opts net err Hthrow.
  destruct (request_run opts net) as (k & Hk & _ & Hdone & _).
  rewrite Hthrow in Hdone.
  destruct (on_exchange_throw_shape opts _ _ err Hdone) as (Hname & Hatt & Hretry).
  rewrite Hatt. repeat split; try lia; assumption.
Qed.

Lemma request_first_attempt (opts : RequestOptions) (net : network)
    (r : outcome HttpError HttpResponse) :
  on_exchange opts 1 (exchange_at net 1) = Done r ->
  request opts net = (r, [EvExchange 1]).
Proof.
  intros Hdone. unfold request.
  pose proof (maxAttempts_of_pos opts) as Hmax.
  destruct (Z.to_nat (maxAttempts_of opts)) as [|left] eqn:E; [lia|].
  apply (attempts_done opts net left 1 [] r Hdone).
Qed.

(** X9.  An answer with a status from 200 to 299 ends the call at the
    first attempt, with no sleep: with the decoded body when the body
    decodes, and otherwise, for a body that is not JSON, with a response
    error that is not retryable and holds the status, the headers and
    the body.  An empty body read as JSON is the value [undefined]. *)
Theorem request_success_is_never_retried :
  forall (opts : RequestOptions) (net : network) (st : Z)
         (hs : list (string * header_value)) (raw : string),
    exchange_at net 1 = Responds st hs raw ->
    200 <= st < 300 ->
    request opts net =
      (match parse_body opts raw with
       | Some data =>
           Return {| res_status := st; res_headers := lower_headers hs;
                     res_data := data; res_rawBody := raw |}
       | None =>
           Throw {| name := ResponseErrorName;
                    message := "Failed to parse JSON response";
                    cause := None; status := Some st; code := None;
                    attempt := 1; retryable := false;
                    response := Some (st, lower_headers hs, Some raw) |}
       end,
       [EvExchange 1])
    /\ (or_else (responseType opts) TypeJson = TypeJson -> raw = "" ->
        parse_body opts raw = Some (DataJson JUndefined))
    /\ (or_else (responseType opts) TypeJson = TypeText ->
        parse_body opts raw = Some (DataText raw)).
Proof.
  intros opts net st hs raw Hex Hst. split; [|split].
  - apply request_first_attempt. rewrite Hex.
    unfold on_exchange, try_block. cbv zeta.
    replace ((200 <=? st) && (st <? 300)) with true
      by (symmetry; apply andb_true_iff; split;
          [apply Z.leb_le | apply Z.ltb_lt]; lia).
    destruct (parse_body opts raw); reflexivity.
  - intros Hty ->. unfold parse_body. rewrite Hty. reflexivity.
  - intros Hty. unfold parse_body. rewrite Hty. reflexivity.
Qed.

Lemma on_exchange_connection_failure (opts : RequestOptions) (att : Z) (e : thrown) :
  connection_failure e ->
  on_exchange opts att (Fails e) =
    if att =? maxAttempts_of opts
    then Done (Throw (new_NetworkError
                        (if is_nullish (t_message e) then "Network error"
                         else to_String (t_message e))
                        e att (error_code e) true))
    else Again.
Proof.
  intros [Hcode Hstatus].
  unfold on_exchange, try_block, catch_block, wrap_raw. cbv zeta.
  rewrite Hcode.
  destruct (t_statusCode e) as [ | | b | st | s | l | m]; cbn; try reflexivity.
  subst st. reflexivity.
Qed.

(** X10.  When every attempt fails on the connection (the thrown value
    has no timeout code and no status), [request] makes all the
    [maxAttempts] attempts, sleeping between them, and then throws a
    retryable network error with the code and the message of the last
    failure, or the message [Network error] when it has none. *)
Theorem connection_failures_use_every_attempt :
  forall (opts : RequestOptions) (net : network),
    (forall att : Z, 1 <= att <= maxAttempts_of opts ->
       exists e : thrown, exchange_at net att = Fails e /\ connection_failure e) ->
    exists e : thrown,
      exchange_at net (maxAttempts_of opts) = Fails e
      /\ request opts net =
           (Throw {| name := NetworkErrorName;
                     message := if is_nullish (t_message e) then "Network error"
                                else to_String (t_message e);
                     cause := Some e; status := None; code := error_code e;
                     attempt := maxAttempts_of opts; retryable := true;
                     response := None |},
            attempt_log net 1 (Z.to_nat (maxAttempts_of opts))).
Proof.
  intros opts net Hall.
  pose proof (maxAttempts_of_pos opts) as Hmax.
  destruct (request_run opts net) as (k & Hk & Hlog & Hdone & _).
  assert (Hlast : Z.of_nat k = maxAttempts_of opts).
  { destruct (Hall (Z.of_nat k) Hk) as (e & He & Hfail).
    rewrite He, (on_exchange_connection_failure opts _ e Hfail) in Hdone.
    destruct (Z.of_nat k =? maxAttempts_of opts) eqn:E; [|discriminate].
    apply Z.eqb_eq. exact E. }
  destruct (Hall (maxAttempts_of opts) ltac:(lia)) as (e & He & Hfail).
  exists e. split; [exact He|].
  rewrite Hlast, He, (on_exchange_connection_failure opts _ e Hfail) in Hdone.
  rewrite Z.eqb_refl in Hdone. injection Hdone as Hres.
  rewrite (surjective_pairing (request opts net)), <- Hres, Hlog.
  replace (Z.to_nat (maxAttempts_of opts)) with k by lia. reflexivity.
Qed.

End RequestAttempts.

Lemma request_sleeps_follow_the_backoff_witness :
  exists a : Z,
    1 <= a < Http.maxAttempts_of (with_attempts 3)
    /\ 200 = 200 * 2 ^ (a - 1) + Http.jitter_at flaky_net a
    /\ 200 * 2 ^ (a - 1) - 50 <= 200 <= 200 * 2 ^ (a - 1) + 49
    /\ 150 <= 200.
Proof.
  apply (request_sleeps_follow_the_backoff (J := RefJson.json)
           (with_attempts 3) flaky_net).
  - intros a. cbn. lia.
  - vm_compute. right. left. reflexivity.
Defined.

Lemma request_throws_classified_errors_witness :
  exists err : Http.HttpError,
    fst (Http.request (J := RefJson.json) (with_attempts 2) flaky_net) = Js.Throw err
    /\ Http.name err <> Http.HttpErrorName
    /\ Http.attempt err = 2
    /\ Http.retryable err = true.
Proof.
  eexists. split; [vm_compute; reflexivity|].
  destruct (request_throws_classified_errors (J := RefJson.json)
              (with_attempts 2) flaky_net _ eq_refl) as (Hname & _ & _ & _).
  split; [exact Hname|]. split; reflexivity.
Defined.

Lemma request_success_is_never_retried_witness :
  Http.request (J := RefJson.json) (with_attempts 3)
    (json_net (RefJson.json_text "{'ok':true}"))
  = (Js.Return {| Http.res_status := 200;
                  Http.res_headers := [("content-type", "application/json")];
                  Http.res_data := Http.DataJson (Js.JObj [("ok", Js.JBool true)]);
                  Http.res_rawBody := RefJson.json_text "{'ok':true}" |},
     [Http.EvExchange 1]).
Proof.
  exact (proj1 (request_success_is_never_retried (J := RefJson.json)
                  (with_attempts 3) (json_net (RefJson.json_text "{'ok':true}")) 200
                  [("Content-Type", Http.HOne "application/json")]
                  (RefJson.json_text "{'ok':true}")
                  eq_refl ltac:(lia))).
Defined.

Lemma connection_failures_use_every_attempt_witness :
  exists e : Http.thrown,
    Http.exchange_at refusing_net (Http.maxAttempts_of (with_attempts 3)) = Http.Fails e
    /\ Http.request (J := RefJson.json) (with_attempts 3) refusing_net =
         (Js.Throw {| Http.name := Http.NetworkErrorName;
                      Http.message := if Js.is_nullish (Http.t_message e)
                                      then "Network error"
                                      else Js.to_String (Http.t_message e);
                      Http.cause := Some e; Http.status := None;
                      Http.code := Http.error_code e;
                      Http.attempt := Http.maxAttempts_of (with_attempts 3);
                      Http.retryable := true; Http.response := None |},
          attempt_log refusing_net 1 (Z.to_nat (Http.maxAttempts_of (with_attempts 3)))).
Proof.
  apply (connection_failures_use_every_attempt (J := RefJson.json)
           (with_attempts 3) refusing_net).
  intros att _. exists connection_refused. split; [reflexivity|].
  split; [reflexivity | exact I].
Defined.

(* ================================================================== *)
(** * The head of a request: address, credentials and their log *)
(* ================================================================== *)

Section RequestHead.
Import Js Http.
Local Open Scope nat_scope.

Lemma endsWith_slash_append (b : string) : endsWith (b ++ "/") "/" = true.
Proof.
  unfold endsWith. rewrite length_append. cbn [String.length].
  replace (1 <=? String.length b + 1) with true
    by (symmetry; apply Nat.leb_le; lia).
  replace (String.length b + 1 - 1) with (String.length b) by lia.
  cbn [andb]. induction b as [|c b IH]; [reflexivity|].
  cbn [append String.length substring]. exact IH.
Qed.

Lemma substring_append_left (a b : string) :
  substring 0 (String.length a) (a ++ b) = a.
Proof. induction a as [|c a IH]; cbn; [destruct b; reflexivity | now rewrite IH]. Qed.

Lemma replace_final_slash_append (b r : string) :
  replace_final_slash (b ++ "/") r = b ++ r.
Proof.
  unfold replace_final_slash. rewrite endsWith_slash_append.
  rewrite length_append. cbn [String.length].
  replace (String.length b + 1 - 1) with (String.length b) by lia.
  rewrite substring_append_left. reflexivity.
Qed.

Lemma replace_final_slash_none (b r : string) :
  endsWith b "/" = false -> replace_final_slash b r = b.
Proof. intros H. unfold replace_final_slash. rewrite H. reflexivity. Qed.

Lemma append_assoc (a b c : string) : (a ++ b) ++ c = a ++ (b ++ c).
Proof. induction a as [|x a IH]; cbn; [reflexivity | now rewrite IH]. Qed.

Lemma endsWith_cons (c : ascii) (p : string) :
  p <> "" -> endsWith (String c p) "/" = endsWith p "/".
Proof.
  intros Hp. destruct p as [|d p]; [contradiction|].
  unfold endsWith. cbn [String.length Nat.leb Nat.sub andb].
  replace (String.length p - 0) with (String.length p) by lia.
  reflexivity.
Qed.

Lemma endsWith_split (p : string) :
  endsWith p "/" = true -> p = substring 0 (String.length p - 1) p ++ "/".
Proof.
  unfold endsWith. cbn [String.length]. intros H.
  apply andb_true_iff in H as [Hlen Heq].
  apply Nat.leb_le in Hlen. apply String.eqb_eq in Heq.
  revert Hlen Heq. induction p as [|c p IH]; intros Hlen Heq; [cbn in Hlen; lia|].
  destruct p as [|d p].
  - cbn in *. exact Heq.
  - cbn [String.length] in *.
    replace (S (S (String.length p)) - 1) with (S (S (String.length p) - 1)) in * by lia.
    cbn [substring append] in *. f_equal. apply IH; [lia | exact Heq].
Qed.

(** The path part of [buildUrl] for a path that is not empty: the path
    behind one slash, whether it ends with a slash or not. *)
Lemma path_part (p : string) :
  p <> "" ->
  replace_final_slash ("/" ++ p) (if endsWith p "/" then "/" else "") = "/" ++ p.
Proof.
  intros Hp. change ("/" ++ p) with (String "/" p).
  unfold replace_final_slash. rewrite (endsWith_cons "/" p Hp).
  destruct (endsWith p "/") eqn:E; [|reflexivity].
  symmetry. apply endsWith_split. rewrite (endsWith_cons "/" p Hp). exact E.
Qed.

Lemma startsWith_slash (p : string) : startsWith ("/" ++ p) "/" = true.
Proof. destruct p; reflexivity. Qed.

(** X11.  [buildUrl] and the address of [postJson] join a base and a
    path with exactly one slash, whether or not the base ends with a
    slash and the path starts with one; [buildUrl] with an empty or
    missing path gives the base without its final slash, and with the
    path [/] the base followed by one slash. *)
Theorem one_slash_joins_base_and_path :
  forall b p : string,
    endsWith b "/" = false ->
    startsWith p "/" = false ->
    p <> "" ->
    let target base path :=
      {| url := None; baseUrl := Some base; path := Some path |} in
    buildUrl (target b p) = b ++ "/" ++ p
    /\ buildUrl (target (b ++ "/") p) = b ++ "/" ++ p
    /\ buildUrl (target b ("/" ++ p)) = b ++ "/" ++ p
    /\ buildUrl (target (b ++ "/") ("/" ++ p)) = b ++ "/" ++ p
    /\ buildUrl (target (b ++ "/") "") = b
    /\ buildUrl {| url := None; baseUrl := Some (b ++ "/"); path := None |} = b
    /\ buildUrl (target (b ++ "/") "/") = b ++ "/"
    /\ (b <> "" ->
        postJson_url p (Some b) = b ++ "/" ++ p
        /\ postJson_url p (Some (b ++ "/")) = b ++ "/" ++ p
        /\ postJson_url ("/" ++ p) (Some b) = b ++ "/" ++ p
        /\ postJson_url ("/" ++ p) (Some (b ++ "/")) = b ++ "/" ++ p).
Proof.
  intros b p Hb Hp Hne target. subst target.
  assert (Hdrop : drop_leading_slash p = p).
  { destruct p as [|c p]; [reflexivity|].
    unfold startsWith in Hp. cbn in Hp.
    destruct (Ascii.eqb_spec "/"%char c) as [<- | Hc].
    - exfalso. cbn in Hp. destruct p; discriminate Hp.
    - destruct c as [[] [] [] [] [] [] [] []]; try reflexivity.
      exfalso. apply Hc. reflexivity. }
  assert (Hdrop' : drop_leading_slash ("/" ++ p) = p) by reflexivity.
  assert (Hends : endsWith ("/" ++ p) "/" = endsWith p "/")
    by (apply (endsWith_cons "/" p Hne)).
  assert (Hpath := path_part p Hne).
  assert (Hnil : forall x : string, x ++ "" = x)
    by (intros x; induction x as [|c x IH]; cbn; [reflexivity | now rewrite IH]).
  unfold buildUrl. cbn [url baseUrl path nonempty or_else].
  rewrite Hdrop', Hdrop, Hends, Hpath.
  rewrite (replace_final_slash_none b "" Hb).
  rewrite (replace_final_slash_append b "").
  rewrite Hnil.
  repeat (split; [reflexivity|]).
  split; [change (b ++ "" = b); apply Hnil|].
  split; [change (b ++ "" = b); apply Hnil|].
  split; [reflexivity|].
  intros Hbne. unfold postJson_url. cbn [or_else].
  rewrite (replace_final_slash_none b "" Hb).
  rewrite (replace_final_slash_append b "").
  rewrite Hnil.
  rewrite Hp, startsWith_slash.
  replace (String.eqb b "") with false
    by (symmetry; apply String.eqb_neq; exact Hbne).
  cbn [negb]. repeat split; reflexivity.
Qed.
End RequestHead.

Section RequestHeaders.
Import Js Http.
Local Open Scope nat_scope.

Lemma header_set_same (h : Headers) (k v : string) :
  header (set_header h k v) k = Some v.
Proof.
  induction h as [|[k' v'] h IH]; cbn; [now rewrite String.eqb_refl|].
  destruct (String.eqb k k') eqn:E; cbn; [now rewrite String.eqb_refl|].
  rewrite E. exact IH.
Qed.

Lemma header_set_other (h : Headers) (k k' v : string) :
  k <> k' -> header (set_header h k v) k' = header h k'.
Proof.
  intros Hne. induction h as [|[k0 v0] h IH]; cbn.
  - replace (String.eqb k' k) with false
      by (symmetry; apply String.eqb_neq; congruence). reflexivity.
  - destruct (String.eqb k k0) eqn:E; cbn.
    + apply String.eqb_eq in E. subst k0.
      replace (String.eqb k' k) with false
        by (symmetry; apply String.eqb_neq; congruence). reflexivity.
    + destruct (String.eqb k' k0); [reflexivity | exact IH].
Qed.

Lemma header_set (h : Headers) (k k' v : string) :
  header (set_header h k v) k' = if String.eqb k k' then Some v else header h k'.
Proof.
  destruct (String.eqb k k') eqn:E.
  - apply String.eqb_eq in E. subst k'. apply header_set_same.
  - apply String.eqb_neq in E. apply header_set_other. exact E.
Qed.

Lemma normalize_fold (h acc : Headers) (name : string) :
  header (fold_left (fun out kv => set_header out (toLowerCase (fst kv)) (snd kv)) h acc)
         name
  = match given_header h name with
    | Some v => Some v
    | None => header acc name
    end.
Proof.
  revert acc. induction h as [|[k v] h IH]; intros acc; [reflexivity|].
  cbn [fold_left given_header fst snd]. rewrite IH.
  destruct (given_header h name); [reflexivity|].
  rewrite header_set. destruct (String.eqb (toLowerCase k) name); reflexivity.
Qed.

Lemma normalizeHeaders_header (h : option Headers) (name : string) :
  header (normalizeHeaders h) name = given_header (or_else h []) name.
Proof.
  unfold normalizeHeaders. rewrite normalize_fold.
  destruct (given_header (or_else h []) name); reflexivity.
Qed.

(** A header that is set where the caller left it out or empty. *)
Lemma header_default (hs : Headers) (cond : bool) (k v name : string) :
  header (if cond && negb (nonempty (header hs k)) then set_header hs k v else hs) name
  = if String.eqb k name
    then (if nonempty (header hs name) then header hs name
          else if cond then Some v else header hs name)
    else header hs name.
Proof.
  destruct (String.eqb k name) eqn:E.
  - apply String.eqb_eq in E. subst name.
    destruct cond; destruct (nonempty (header hs k)); cbn [andb negb];
      try reflexivity. apply header_set_same.
  - destruct (cond && negb (nonempty (header hs k))); [|reflexivity].
    rewrite header_set, E. reflexivity.
Qed.

(** X12.  The credentials never replace a header of the caller: the
    [authorization] header that [request] sends is the caller's, given
    under any letter case, when it is not empty, and [Bearer <token>]
    only otherwise; likewise the [cookie] header is the caller's, and
    the cookie of the options only when the caller gave none. *)
Theorem caller_headers_win_over_credentials :
  forall (headers : option Headers) (token cookie : option string) (has_json : bool),
    let sent := request_headers headers token cookie has_json in
    let given name := given_header (or_else headers []) name in
    header sent "authorization" =
      (if nonempty (given "authorization") then given "authorization"
       else if nonempty token then Some ("Bearer " ++ or_else token "")
       else given "authorization")
    /\ header sent "cookie" =
         (if nonempty (given "cookie") then given "cookie"
          else if nonempty cookie then cookie
          else given "cookie")
    /\ header sent "content-type" =
         (if nonempty (given "content-type") then given "content-type"
          else if has_json then Some "application/json"
          else given "content-type").
Proof.
  intros headers token cookie has_json sent given. subst sent given.
  unfold request_headers. cbv zeta.
  set (hs0 := normalizeHeaders headers).
  match goal with
  | |- context [if ?c then set_header hs0 ?k ?v else hs0] =>
      set (hs1 := if c then set_header hs0 k v else hs0)
  end.
  match goal with
  | |- context [if ?c then set_header hs1 ?k ?v else hs1] =>
      set (hs2 := if c then set_header hs1 k v else hs1)
  end.
  rewrite !header_default. cbn [String.eqb Ascii.eqb Bool.eqb].
  subst hs2. rewrite !header_default. cbn [String.eqb Ascii.eqb Bool.eqb].
  subst hs1. rewrite !header_default. cbn [String.eqb Ascii.eqb Bool.eqb].
  subst hs0. rewrite !normalizeHeaders_header.
  split; [reflexivity|]. split; [|reflexivity].
  destruct (nonempty (given_header (or_else headers []) "cookie")); [reflexivity|].
  destruct cookie as [c|]; [|reflexivity].
  cbn [nonempty or_else]. destruct (negb (String.eqb c "")); reflexivity.
Qed.

Lemma in_set_header (h : Headers) (k v k' v' : string) :
  In (k, v) (set_header h k' v') -> (k = k' /\ v = v') \/ In (k, v) h.
Proof.
  induction h as [|[k0 v0] h IH]; cbn.
  - intros [H | []]. injection H as <- <-. left. split; reflexivity.
  - destruct (String.eqb k' k0) eqn:E; cbn.
    + intros [H | H]; [injection H as <- <-; left; split; reflexivity|].
      right. right. exact H.
    + intros [H | H]; [right; left; exact H|].
      destruct (IH H) as [Hl | Hr]; [left; exact Hl | right; right; exact Hr].
Qed.

Lemma in_redact_fold (hs acc : Headers) (k v : string) :
  In (k, v)
     (fold_left (fun redacted kv =>
                   set_header redacted (fst kv)
                     (if masks_header (fst kv)
                      then Credentials.redactValue (JStr (snd kv)) None
                      else snd kv)) hs acc) ->
  In (k, v) acc \/ exists v0 : string, In (k, v0) hs /\ v = mask_of k v0.
Proof.
  revert acc. induction hs as [|[k0 v0] hs IH]; intros acc Hin; [left; exact Hin|].
  cbn [fold_left fst snd] in Hin. destruct (IH _ Hin) as [Hacc | (v1 & Hv1 & Hv)].
  - destruct (in_set_header _ _ _ _ _ Hacc) as [[-> ->] | Hold].
    + right. exists v0. split; [left; reflexivity | reflexivity].
    + left. exact Hold.
  - right. exists v1. split; [right; exact Hv1 | exact Hv].
Qed.

Lemma header_redact_fold (hs acc : Headers) (k : string) :
  header (fold_left (fun redacted kv =>
                       set_header redacted (fst kv)
                         (if masks_header (fst kv)
                          then Credentials.redactValue (JStr (snd kv)) None
                          else snd kv)) hs acc) k
  = match last_value hs k with
    | Some v => Some (mask_of k v)
    | None => header acc k
    end.
Proof.
  revert acc. induction hs as [|[k0 v0] hs IH]; intros acc; [reflexivity|].
  cbn [fold_left last_value fst snd]. rewrite IH.
  destruct (last_value hs k); [reflexivity|].
  rewrite header_set. destruct (String.eqb k0 k) eqn:E; [|reflexivity].
  apply String.eqb_eq in E. subst k0. reflexivity.
Qed.

Lemma header_none_not_in (h : Headers) (k : string) :
  header h k = None -> last_value h k = None.
Proof.
  induction h as [|[k0 v0] h IH]; cbn; [reflexivity|].
  rewrite (String.eqb_sym k k0).
  destruct (String.eqb k0 k); [discriminate|]. intros H. rewrite (IH H). reflexivity.
Qed.

Lemma keys_set_header (h : Headers) (k v k' : string) :
  In k' (map fst (set_header h k v)) -> k' = k \/ In k' (map fst h).
Proof.
  induction h as [|[k0 v0] h IH]; cbn.
  - intros [H | []]. left. congruence.
  - destruct (String.eqb k k0) eqn:E; cbn.
    + apply String.eqb_eq in E. subst k0. intros [H | H]; [left; congruence|].
      right. right. exact H.
    + intros [H | H]; [right; left; exact H|].
      destruct (IH H) as [Hl | Hr]; [left; exact Hl | right; right; exact Hr].
Qed.

Lemma nodup_set_header (h : Headers) (k v : string) :
  NoDup (map fst h) -> NoDup (map fst (set_header h k v)).
Proof.
  induction h as [|[k0 v0] h IH]; cbn; intros Hnd.
  - constructor; [intros [] | constructor].
  - inversion Hnd as [|? ? Hnotin Hrest]; subst.
    destruct (String.eqb k k0) eqn:E; cbn.
    + apply String.eqb_eq in E. subst k0. constructor; assumption.
    + constructor; [|apply IH; exact Hrest].
      intros Hin. destruct (keys_set_header _ _ _ _ Hin) as [-> | Hold].
      * rewrite String.eqb_refl in E. discriminate.
      * contradiction.
Qed.

Lemma nodup_normalize (h acc : Headers) :
  NoDup (map fst acc) ->
  NoDup (map fst (fold_left
                    (fun out kv => set_header out (toLowerCase (fst kv)) (snd kv))
                    h acc)).
Proof.
  revert acc. induction h as [|[k v] h IH]; intros acc Hnd; [exact Hnd|].
  cbn [fold_left]. apply IH. apply nodup_set_header. exact Hnd.
Qed.

Lemma nodup_request_headers (headers : option Headers) (token cookie : option string)
    (has_json : bool) :
  NoDup (map fst (request_headers headers token cookie has_json)).
Proof.
  unfold request_headers. cbv zeta.
  assert (H0 : NoDup (map fst (normalizeHeaders headers)))
    by (apply nodup_normalize; constructor).
  repeat match goal with
         | |- context [if ?c then set_header ?h ?k ?v else ?h] =>
             destruct c
         end;
    repeat apply nodup_set_header; exact H0.
Qed.

Lemma last_value_nodup (h : Headers) (k : string) :
  NoDup (map fst h) -> last_value h k = header h k.
Proof.
  induction h as [|[k0 v0] h IH]; cbn; intros Hnd; [reflexivity|].
  inversion Hnd as [|? ? Hnotin Hrest]; subst.
  rewrite (String.eqb_sym k k0).
  destruct (String.eqb k0 k) eqn:E.
  - apply String.eqb_eq in E. subst k0.
    assert (Hnone : header h k = None).
    { clear -Hnotin. induction h as [|[k1 v1] h IH]; cbn; [reflexivity|].
      destruct (String.eqb k k1) eqn:E1.
      - apply String.eqb_eq in E1. subst k1. exfalso. apply Hnotin. left. reflexivity.
      - apply IH. intros Hin. apply Hnotin. right. exact Hin. }
    rewrite (header_none_not_in h k Hnone). reflexivity.
  - rewrite (IH Hrest). destruct (header h k); reflexivity.
Qed.

Lemma substring_skip (a b : string) (i m : nat) :
  substring (String.length a + i) m (a ++ b) = substring i m b.
Proof. induction a as [|c a IH]; cbn; [reflexivity | exact IH]. Qed.

(** X13.  In the headers that [redactHeaders] hands to the log, every
    value under [authorization], [cookie] or another sensitive name, in
    any letter case, is a masked text, and every other entry is one of
    the headers it was given.  For a request that authenticates by
    token the logged [authorization] is [Bear], a run of masks and the
    last two code units of the token. *)
Theorem logged_headers_hide_credentials :
  (forall (hs : Headers) (k v : string),
      In (k, v) (redactHeaders hs) ->
      (masks_header k = true -> masked v)
      /\ (masks_header k = false -> In (k, v) hs))
  /\ (forall (headers : option Headers) (t : string) (cookie : option string)
             (has_json : bool),
        2 <= String.length t ->
        nonempty (given_header (or_else headers []) "authorization") = false ->
        header (redactHeaders (request_headers headers (Some t) cookie has_json))
               "authorization"
        = Some ("Bear" ++ repeat "*" (String.length t + 1)
                  ++ substring (String.length t - 2) 2 t)).
Proof.
  split.
  - intros hs k v Hin. unfold redactHeaders in Hin.
    destruct (in_redact_fold hs [] k v Hin) as [[] | (v0 & Hv0 & ->)].
    unfold mask_of. split; intros Hm; rewrite Hm.
    + apply redactValue_masked.
    + exact Hv0.
  - intros headers t cookie has_json Ht Hgiven.
    unfold redactHeaders. rewrite header_redact_fold.
    rewrite (last_value_nodup _ _ (nodup_request_headers headers (Some t) cookie has_json)).
    unfold request_headers. cbv zeta.
    set (hs0 := normalizeHeaders headers).
    match goal with
  | |- context [if ?c then set_header hs0 ?k ?v else hs0] =>
      set (hs1 := if c then set_header hs0 k v else hs0)
  end.
    match goal with
  | |- context [if ?c then set_header hs1 ?k ?v else hs1] =>
      set (hs2 := if c then set_header hs1 k v else hs1)
  end.
    rewrite !header_default. cbn [String.eqb Ascii.eqb Bool.eqb].
    subst hs2. rewrite !header_default. cbn [String.eqb Ascii.eqb Bool.eqb].
    subst hs1. rewrite !header_default. cbn [String.eqb Ascii.eqb Bool.eqb].
    subst hs0. rewrite !normalizeHeaders_header.
    rewrite Hgiven.
    assert (Htok : nonempty (Some t) = true).
    { cbn. destruct t; [cbn in Ht; lia | reflexivity]. }
    rewrite Htok. cbn [or_else header]. unfold mask_of.
    change (masks_header "authorization") with true. cbv iota. f_equal.
    rewrite redactValue_long
      by (change (secret_text (JStr ("Bearer " ++ t))) with ("Bearer " ++ t);
          rewrite length_append; cbn [String.length]; lia).
    change (secret_text (JStr ("Bearer " ++ t))) with ("Bearer " ++ t).
    rewrite length_append. cbn [String.length].
    f_equal. f_equal; [f_equal; lia|].
    replace (7 + String.length t - 2) with (String.length "Bearer " + (String.length t - 2))
      by (cbn [String.length]; lia).
    apply substring_skip.
Qed.

End RequestHeaders.

Lemma one_slash_joins_base_and_path_witness :
  Http.buildUrl {| Http.url := None;
                   Http.baseUrl := Some "https://app.affine.pro/";
                   Http.path := Some "/graphql" |}
  = "https://app.affine.pro/graphql".
Proof.
  exact (proj1 (proj2 (proj2 (proj2
           (one_slash_joins_base_and_path "https://app.affine.pro" "graphql"
              eq_refl eq_refl ltac:(discriminate)))))).
Defined.

(* ================================================================== *)
(** * The answers of the tool client *)
(* ================================================================== *)

Section ToolAnswers.
Import Js Http Mcp.
Context {J : JsonLib}.

Lemma is_match_object (v : jsval) :
  truthy (JObj [("snippet", JStr (to_String (if is_nullish v then JStr "" else v)))])
  && is_object_type
       (JObj [("snippet", JStr (to_String (if is_nullish v then JStr "" else v)))])
  = true.
Proof. reflexivity. Qed.

Lemma map_match_objects (l : list jsval) :
  Forall (fun m => truthy m && is_object_type m = true)
    (map (fun v =>
            if truthy v && is_object_type v then v
            else JObj [("snippet",
                        JStr (to_String (if is_nullish v then JStr "" else v)))])
         l).
Proof.
  induction l as [|v l IH]; cbn [map]; constructor; [|exact IH].
  destruct (truthy v && is_object_type v) eqn:E; [exact E | reflexivity].
Qed.

Lemma map_match_fixed (l : list jsval) :
  Forall (fun m => truthy m && is_object_type m = true) l ->
  map (fun v =>
         if truthy v && is_object_type v then v
         else JObj [("snippet",
                     JStr (to_String (if is_nullish v then JStr "" else v)))])
      l = l.
Proof.
  induction 1 as [|v l Hv _ IH]; cbn [map]; [reflexivity|].
  rewrite Hv, IH. reflexivity.
Qed.

Lemma text_of_item (v : jsval) :
  to_String (if is_nullish v then JStr "" else v)
  = if is_nullish v then "" else to_String v.
Proof. destruct v; reflexivity. Qed.

Lemma nth_error_map_item {A B} (f : A -> B) (l : list A) (i : nat) (v : A) :
  nth_error l i = Some v -> nth_error (map f l) i = Some (f v).
Proof.
  revert i. induction l as [|a l IH]; intros [|i] H; try discriminate H.
  - injection H as ->. reflexivity.
  - exact (IH i H).
Qed.

(** The answer brings the items [l]: the matches are their images. *)
Lemma normalizeMatches_brings (out : jsval) (l : list jsval) :
  brings out l ->
  normalizeMatches out
  = map (fun v =>
           if truthy v && is_object_type v then v
           else JObj [("snippet",
                       JStr (to_String (if is_nullish v then JStr "" else v)))])
        l.
Proof.
  unfold brings, normalizeMatches.
  intros [Hres | [[Hres Hitems] | [Hres [Hitems ->]]]].
  - destruct out as [| | b | n | str | a | props]; try discriminate Hres.
    cbn [truthy negb]. rewrite Hres. reflexivity.
  - destruct out as [| | b | n | str | a | props]; try discriminate Hitems.
    cbn [truthy negb]. rewrite Hitems.
    destruct (get_prop (JObj props) "results"); try reflexivity. discriminate Hres.
  - reflexivity.
Qed.

(** X14.  Every match that [normalizeMatches] returns is an object, and
    the matches are the items of the answer, one for one and in their
    order: an item that is an object is kept as it is, and any other
    item becomes the object whose only field, [snippet], is the text of
    the item, the empty text for null and undefined.  The items are the
    [results] of the answer when they are an array, else its [items],
    else the answer itself when it is an array; an answer that is falsy
    or brings no array gives no match.  Normalising a list of matches
    again changes nothing. *)
Theorem normalizeMatches_gives_objects :
  forall out : jsval,
    Forall (fun m => truthy m && is_object_type m = true) (normalizeMatches out)
    /\ normalizeMatches (JArr (normalizeMatches out)) = normalizeMatches out
    /\ (forall (props : list (string * jsval)) (l : list jsval),
          out = JObj props -> get_prop out "results" = JArr l ->
          List.length (normalizeMatches out) = List.length l)
    /\ (forall l : list jsval,
          out = JArr l -> List.length (normalizeMatches out) = List.length l)
    /\ (forall l : list jsval,
          brings out l ->
          List.length (normalizeMatches out) = List.length l
          /\ forall (i : nat) (v : jsval),
               nth_error l i = Some v ->
               (truthy v && is_object_type v = true ->
                nth_error (normalizeMatches out) i = Some v)
               /\ (truthy v && is_object_type v = false ->
                   nth_error (normalizeMatches out) i
                   = Some (JObj [("snippet",
                                  JStr (if is_nullish v then "" else to_String v))])))
    /\ (truthy out = false -> normalizeMatches out = [])
    /\ (is_array (get_prop out "results") = false ->
        is_array (get_prop out "items") = false ->
        is_array out = false ->
        normalizeMatches out = []).
Proof.
  intros out. split; [|split; [|split; [|split; [|split; [|split]]]]].
  - unfold normalizeMatches. destruct (negb (truthy out)); [constructor|].
    apply map_match_objects.
  - assert (Hobj : Forall (fun m => truthy m && is_object_type m = true)
                     (normalizeMatches out)).
    { unfold normalizeMatches. destruct (negb (truthy out)); [constructor|].
      apply map_match_objects. }
    unfold normalizeMatches at 1. cbn [truthy negb get_prop].
    apply map_match_fixed. exact Hobj.
  - intros props l -> Hres. unfold normalizeMatches. cbn [truthy negb].
    rewrite Hres. apply length_map.
  - intros l ->. unfold normalizeMatches. cbn [truthy negb get_prop].
    apply length_map.
  - intros l Hl. rewrite (normalizeMatches_brings out l Hl).
    split; [apply length_map|].
    intros i v Hv.
    rewrite (nth_error_map_item _ l i v Hv).
    split; intros Hobj; rewrite Hobj; [reflexivity|].
    rewrite text_of_item. reflexivity.
  - intros Hfalsy. unfold normalizeMatches. rewrite Hfalsy. reflexivity.
  - intros Hres Hitems Harr. unfold normalizeMatches.
    destruct (negb (truthy out)); [reflexivity|].
    destruct (get_prop out "results"); try discriminate Hres;
      destruct (get_prop out "items"); try discriminate Hitems;
      destruct out; try discriminate Harr; reflexivity.
Qed.

(** A run of the normalisation on an answer with mixed items. *)
Example normalizeMatches_mixed_items :
  normalizeMatches
    (JObj [("items", JArr [JObj [("docId", JStr "d1"); ("snippet", JStr "first")];
                           JStr "plain text"; JNull; JNum 7])])
  = [JObj [("docId", JStr "d1"); ("snippet", JStr "first")];
     JObj [("snippet", JStr "plain text")];
     JObj [("snippet", JStr "")];
     JObj [("snippet", JStr "7")]].
Proof. reflexivity. Qed.

(** X15.  A body that cannot be read is silent on an event stream and
    an error otherwise.  When no [data:] line of an event stream parses,
    [rpc] returns [undefined]: [toolsList] then gives no tool,
    [readDocument] the empty markdown and the searches no match.  When
    a body that is not an event stream is not JSON, all of them throw
    the error [Failed to parse JSON response]. *)
Theorem unreadable_body_silent_on_streams_only :
  forall (timeout : option Z) (net : network) (res : HttpResponse),
    fst (request (rpc_options timeout) net) = Return res ->
    (isEventStream res = true ->
     unparsed (split_lines (body_text res)) ->
     callTool timeout net = Return JUndefined
     /\ toolsList timeout net = Return []
     /\ readDocument timeout net = Return ""
     /\ keywordSearch timeout net = Return []
     /\ semanticSearch timeout net = Return [])
    /\ (isEventStream res = false ->
        JSON_parse (body_text res) = None ->
        callTool timeout net = Throw (ParseFailure "Failed to parse JSON response")
        /\ toolsList timeout net = Throw (ParseFailure "Failed to parse JSON response")
        /\ readDocument timeout net
           = Throw (ParseFailure "Failed to parse JSON response")
        /\ keywordSearch timeout net
           = Throw (ParseFailure "Failed to parse JSON response")
        /\ semanticSearch timeout net
           = Throw (ParseFailure "Failed to parse JSON response")).
Proof.
  intros timeout net res Hreq. split.
  - intros Hsse Hun.
    assert (Hcall : callTool timeout net = Return JUndefined).
    { unfold callTool, rpc. rewrite Hreq. unfold decode_rpc. rewrite Hsse.
      rewrite (proj2 (parseSsePayload_none (body_text res)) Hun). reflexivity. }
    unfold toolsList, readDocument, keywordSearch, semanticSearch.
    fold (callTool timeout net). rewrite Hcall. repeat split; reflexivity.
  - intros Hsse Hbad.
    assert (Hcall : callTool timeout net
                    = Throw (ParseFailure "Failed to parse JSON response")).
    { unfold callTool, rpc. rewrite Hreq. unfold decode_rpc. rewrite Hsse, Hbad.
      reflexivity. }
    unfold toolsList, readDocument, keywordSearch, semanticSearch.
    fold (callTool timeout net). rewrite Hcall. repeat split; reflexivity.
Qed.

End ToolAnswers.

Lemma unreadable_body_silent_on_streams_only_witness :
  Mcp.toolsList (J := RefJson.json) None (sse_net "event: ping") = Js.Return []
  /\ Mcp.readDocument (J := RefJson.json) None (sse_net "event: ping") = Js.Return "".
Proof.
  destruct (unreadable_body_silent_on_streams_only (J := RefJson.json)
              None (sse_net "event: ping") (sse_response "event: ping") eq_refl)
    as [Hsse _].
  destruct (Hsse eq_refl) as (_ & Htools & Hread & _).
  - intros line json [<- | []] Hchunk. discriminate Hchunk.
  - split; assumption.
Defined.

(* ================================================================== *)
(** * The GraphQL client and the helpers on it *)
(* ================================================================== *)

Section GraphqlClient.
Import Js Http Graphql.
Context {J : JsonLib}.

(** What the [catch] clause of [gql] throws. *)
Lemma on_post_error_rethrows (err : HttpError) :
  on_post_error err = Throw (Transport err).
Proof.
  unfold on_post_error.
  destruct (response err) as [[[st hs] [raw|]]|]; try reflexivity.
  destruct (diagnose raw); reflexivity.
Qed.

(** X16.  [gql] never reports the GraphQL errors of a failed response.
    When the POST fails, [gql] rethrows the error of the HTTP engine as
    it is, whatever the body of the failed response holds: the error
    that the [catch] clause builds from the GraphQL errors of the body is
    thrown inside a [try] whose [catch] drops it.  So an error with the
    messages of the server only ever comes from a response that the
    POST returned; and an answer with a status from 400 to 499, other
    than 408 and 429, makes [gql] throw at the first attempt the
    response error [HTTP <status>] of the engine, not retryable, which
    holds the body. *)
Theorem gql_rethrows_the_transport_error :
  forall (timeout : option Z) (net : network),
    (forall err : HttpError,
        postJson timeout net = Throw err ->
        gql timeout net = Throw (Transport err))
    /\ (forall failure : GqlFailure,
          gql timeout net = Throw failure ->
          match failure with
          | Transport err => postJson timeout net = Throw err
          | _ => exists res : HttpResponse, postJson timeout net = Return res
          end)
    /\ (forall (st : Z) (hs : list (string * header_value)) (raw : string),
          exchange_at net 1 = Responds st hs raw ->
          400 <= st < 500 -> st <> 408 -> st <> 429 ->
          gql timeout net
          = Throw (Transport
                     {| name := ResponseErrorName;
                        message := "HTTP " ++ string_of_Z st;
                        cause := None; status := Some st; code := None;
                        attempt := 1; retryable := false;
                        response := Some (st, lower_headers hs, Some raw) |})).
Proof.
  intros timeout net.
  assert (Hthrow : forall err : HttpError,
             postJson timeout net = Throw err ->
             gql timeout net = Throw (Transport err)).
  { intros err Hpost. unfold gql. rewrite Hpost. apply on_post_error_rethrows. }
  split; [exact Hthrow|]. split.
  - intros failure Hgql. unfold gql in Hgql.
    destruct (postJson timeout net) as [res|err] eqn:Hpost.
    + unfold on_envelope in Hgql.
      destruct (truthy (get_prop (if truthy (json_of res) then json_of res else JObj [])
                          "errors")
                && truthy (length_of
                             (get_prop (if truthy (json_of res) then json_of res
                                        else JObj []) "errors")));
        [|discriminate Hgql].
      destruct (get_prop (if truthy (json_of res) then json_of res else JObj [])
                  "errors");
        try (injection Hgql as <-; exists res; reflexivity).
      destruct (existsb is_nullish items);
        injection Hgql as <-; exists res; reflexivity.
    + rewrite on_post_error_rethrows in Hgql. injection Hgql as <-. reflexivity.
  - intros st hs raw Hex Hst H408 H429. apply Hthrow. unfold postJson.
    assert (Hretry : retryOnStatus_of (postJson_options timeout) st = false).
    { unfold retryOnStatus_of, postJson_options. cbn [retryOnStatus or_else].
      destruct (defaultRetryOnStatus st) eqn:E; [|reflexivity].
      apply defaultRetryOnStatus_spec in E. lia. }
    rewrite (request_first_attempt (postJson_options timeout) net
               (Throw (new_ResponseError ("HTTP " ++ string_of_Z st) st 1 (Some raw)
                         (Some (lower_headers hs)) false))).
    + reflexivity.
    + rewrite Hex, on_exchange_status by lia. rewrite Hretry. reflexivity.
Qed.

(** X17.  For a response that the POST returned, [gql] never returns
    null or undefined: it returns the [data] of the envelope, or an
    empty object when there is none or when the body is empty.  When
    the envelope holds a non-empty array of [errors], it throws the
    error whose message joins their messages with [; ]. *)
Theorem gql_returns_data_or_an_empty_object :
  forall (timeout : option Z) (net : network) (res : HttpResponse),
    postJson timeout net = Return res ->
    (forall result : jsval,
        gql timeout net = Return result -> is_nullish result = false)
    /\ (truthy (json_of res) = false -> gql timeout net = Return (JObj []))
    /\ (truthy (json_of res) = true ->
        (truthy (get_prop (json_of res) "errors") = false
         \/ get_prop (json_of res) "errors" = JArr []) ->
        gql timeout net =
          Return (if is_nullish (get_prop (json_of res) "data") then JObj []
                  else get_prop (json_of res) "data"))
    /\ (forall (er : jsval) (ers : list jsval),
          truthy (json_of res) = true ->
          get_prop (json_of res) "errors" = JArr (er :: ers) ->
          existsb is_nullish (er :: ers) = false ->
          gql timeout net =
            Throw (GraphqlErrors
                     (join_values "; "
                        (map (fun e => get_prop e "message") (er :: ers)))
                     (JArr (er :: ers)))).
Proof.
  intros timeout net res Hpost. unfold gql. rewrite Hpost.
  set (body := json_of res). unfold on_envelope. cbv zeta.
  split; [|split; [|split]].
  - intros result.
    destruct (truthy (get_prop (if truthy body then body else JObj []) "errors")
              && truthy (length_of
                           (get_prop (if truthy body then body else JObj []) "errors"))).
    + destruct (get_prop (if truthy body then body else JObj []) "errors");
        try discriminate. destruct (existsb is_nullish items); discriminate.
    + intros H. injection H as <-.
      destruct (get_prop (if truthy body then body else JObj []) "data"); reflexivity.
  - intros ->. reflexivity.
  - intros -> [Hfalse | Hnil].
    + rewrite Hfalse. reflexivity.
    + rewrite Hnil. reflexivity.
  - intros er ers -> Hers Hnone. rewrite Hers. cbn [truthy length_of List.length andb].
    replace (negb (Z.of_nat (S (List.length ers)) =? 0)) with true
      by (symmetry; apply negb_true_iff; apply Z.eqb_neq; lia).
    rewrite Hnone. reflexivity.
Qed.

(** The cross-check of [getDoc] never fails a lookup and never
    hides a document by failing: for a node that GraphQL found, a
    [read_document] that throws gives the node, and one that answers
    gives the node unless its markdown holds both [doc with id] and
    [not found], in any letter case, which gives [null].  A node that
    GraphQL did not find gives [null] without any cross-check. *)
Theorem getDoc_cross_check_is_best_effort :
  forall (E : Type) (data doc : jsval) (read : outcome E string),
    member (get_prop data "workspace") "doc" = Return doc ->
    (truthy doc = false -> getDoc (Return data) read = Return JNull)
    /\ (truthy doc = true ->
        (forall e : E, read = Throw e -> getDoc (Return data) read = Return doc)
        /\ (forall markdown : string,
              read = Return markdown ->
              getDoc (Return data) read =
                Return (if reports_missing markdown then JNull else doc))).
Proof.
  intros E data doc read Hdoc. unfold getDoc. rewrite Hdoc. split.
  - intros Hfalsy. destruct doc; cbn in *; try reflexivity; try discriminate;
      rewrite Hfalsy; reflexivity.
  - intros Htruthy.
    assert (Hdoc' : (if is_nullish doc then JNull else doc) = doc)
      by (destruct doc; try reflexivity; discriminate Htruthy).
    rewrite Hdoc', Htruthy. cbn [negb]. split.
    + intros e ->. reflexivity.
    + intros markdown ->. unfold reports_missing.
      destruct (includes (toLowerCase markdown) "doc with id"
                && includes (toLowerCase markdown) "not found"); reflexivity.
Qed.

Lemma length_substring_le (s : string) (n m : nat) :
  (String.length (substring n m s) <= m)%nat.
Proof.
  revert n m; induction s as [|c s IH]; intros n m.
  - destruct n, m; cbn; lia.
  - destruct n as [|n]; [destruct m as [|m]; cbn; [lia | specialize (IH 0%nat m); lia]|].
    cbn. apply IH.
Qed.

(** X18.  The text that [listComments] extracts from the content that
    [addComment] sends for a text is that text without the white space
    around it; and the title that [addComment] sends is never empty and
    has at most 80 code units: the first 80 of the text, or [Comment]
    for an empty text. *)
Theorem comment_text_round_trip :
  forall workspaceId docId text : string,
    comment_text (get_prop (comment_input workspaceId docId text) "content")
      = trim text
    /\ exists title : string,
         get_prop (comment_input workspaceId docId text) "docTitle" = JStr title
         /\ title <> ""
         /\ (String.length title <= 80)%nat
         /\ (text <> "" -> title = substring 0 80 text)
         /\ (text = "" -> title = "Comment").
Proof.
  intros workspaceId docId text. split.
  - unfold comment_text, comment_input. cbn. reflexivity.
  - unfold comment_input. cbn [get_prop assoc String.eqb Ascii.eqb Bool.eqb].
    assert (Hslice : slice text 0 (Some 80)
                     = substring 0 (Nat.min 80 (String.length text)) text).
    { unfold slice, len. cbn [Z.ltb Z.compare]. cbv zeta.
      change (0 <? 0) with false. change (80 <? 0) with false. cbv iota.
      f_equal; lia. }
    assert (Hfull : substring 0 (Nat.min 80 (String.length text)) text
                    = substring 0 80 text).
    { clear. generalize 80%nat as m. induction text as [|c t IH]; intros m.
      - destruct m; reflexivity.
      - destruct m as [|m]; [reflexivity|]. cbn. f_equal. apply IH. }
    rewrite Hslice, Hfull.
    destruct (String.eqb (substring 0 80 text) "") eqn:E.
    + exists "Comment". split; [reflexivity|]. split; [discriminate|].
      split; [cbn; lia|]. split; [|reflexivity].
      intros Hne. exfalso. apply String.eqb_eq in E.
      destruct text; [contradiction | discriminate E].
    + exists (substring 0 80 text). split; [reflexivity|].
      split; [apply String.eqb_neq; exact E|].
      split; [apply length_substring_le|]. split; [reflexivity|].
      intros ->. discriminate E.
Qed.

End GraphqlClient.

Section WhoAmI.
Import Js Graphql Auth.

Lemma tryQuery_next (answer : outcome GqlFailure jsval) (field : string) :
  tryQuery answer field = TryNext <->
  exists e : GqlFailure, answer = Throw e /\ auth_failure e = false.
Proof.
  unfold tryQuery, auth_failure. cbv zeta. destruct answer as [data | e].
  - split; [|intros (e & He & _); discriminate He].
    destruct (negb (truthy (get_prop data field))); discriminate.
  - split.
    + intros H. exists e. split; [reflexivity|].
      destruct (includes (toLowerCase (failure_message e)) "unauthenticated"
                || includes (toLowerCase (failure_message e)) "unauthorized"
                || includes (toLowerCase (failure_message e)) "forbidden"
                || includes (toLowerCase (failure_message e)) "not authenticated");
        [discriminate H | reflexivity].
    + intros (e' & He & Hauth). injection He as <-. rewrite Hauth. reflexivity.
Qed.

Lemma tryQuery_known (answer : outcome GqlFailure jsval) (field : string) (r : jsval) :
  tryQuery answer field = Known r ->
  r = JNull
  \/ exists id email : jsval,
       r = JObj [("id", id); ("email", email)] /\ email <> JUndefined.
Proof.
  unfold tryQuery. cbv zeta. destruct answer as [data | e].
  - destruct (negb (truthy (get_prop data field)));
      intros H; injection H as <-; [left; reflexivity|].
    right. eexists. eexists. split; [reflexivity|].
    destruct (get_prop (get_prop data field) "email"); discriminate.
  - destruct (_ || _); intros H; [injection H as <-; left; reflexivity | discriminate H].
Qed.

(** X19.  [whoami] probes the fields [me], [currentUser] and [viewer]
    in this order and stops at the first probe that is decisive; it
    throws exactly when each of the three queries fails with an error
    that is not an authentication failure.  What it returns is [null]
    (also for a failure whose message holds [unauthenticated],
    [unauthorized], [forbidden] or [not authenticated]) or the user,
    whose [email] is never undefined. *)
Theorem whoami_stops_at_the_first_decisive_probe :
  forall ask : string -> outcome GqlFailure jsval,
    (exists k : nat,
        (1 <= k <= 3)%nat
        /\ snd (whoami ask) = firstn k probed_fields
        /\ (forall (i : nat) (f : string),
              (i < k - 1)%nat -> nth_error probed_fields i = Some f ->
              tryQuery (ask f) f = TryNext))
    /\ ((exists msg : string, fst (whoami ask) = Throw msg) <->
        (forall f : string, In f probed_fields ->
           exists e : GqlFailure, ask f = Throw e /\ auth_failure e = false))
    /\ (forall r : jsval,
          fst (whoami ask) = Return r ->
          r = JNull
          \/ exists id email : jsval,
               r = JObj [("id", id); ("email", email)] /\ email <> JUndefined)
    /\ (forall e : GqlFailure,
          ask "me" = Throw e -> auth_failure e = true ->
          whoami ask = (Return JNull, ["me"])).
Proof.
  intros ask. unfold whoami, probed_fields.
  destruct (tryQuery (ask "me") "me") as [r1|] eqn:E1;
    [|destruct (tryQuery (ask "currentUser") "currentUser") as [r2|] eqn:E2;
      [|destruct (tryQuery (ask "viewer") "viewer") as [r3|] eqn:E3]];
    cbn [fst snd].
  - split; [exists 1%nat; split; [lia|]; split; [reflexivity|]; intros i f Hi; lia|].
    split; [split; [intros (msg & H); discriminate H|]|].
    + intros Hall. destruct (Hall "me" (or_introl eq_refl)) as (e & He & Hauth).
      assert (Hnext : tryQuery (ask "me") "me" = TryNext)
        by (apply tryQuery_next; exists e; split; assumption).
      congruence.
    + split.
      * intros r H. injection H as <-. exact (tryQuery_known _ _ _ E1).
      * intros e He Hauth. unfold tryQuery in E1. rewrite He in E1.
        cbv zeta in E1. unfold auth_failure in Hauth. cbv zeta in Hauth.
        rewrite Hauth in E1. injection E1 as <-. reflexivity.
  - split; [exists 2%nat; split; [lia|]; split; [reflexivity|];
            intros i f Hi Hf; destruct i as [|i]; [|lia];
            injection Hf as <-; exact E1|].
    split; [split; [intros (msg & H); discriminate H|]|].
    + intros Hall.
      destruct (Hall "currentUser" (or_intror (or_introl eq_refl))) as (e & He & Hauth).
      assert (Hnext : tryQuery (ask "currentUser") "currentUser" = TryNext)
        by (apply tryQuery_next; exists e; split; assumption).
      congruence.
    + split.
      * intros r H. injection H as <-. exact (tryQuery_known _ _ _ E2).
      * intros e He Hauth. exfalso.
        apply tryQuery_next in E1 as (e' & He' & Hauth'). congruence.
  - split; [exists 3%nat; split; [lia|]; split; [reflexivity|];
            intros i f Hi Hf; destruct i as [|[|i]]; [| |lia];
            injection Hf as <-; assumption|].
    split; [split; [intros (msg & H); discriminate H|]|].
    + intros Hall.
      destruct (Hall "viewer" (or_intror (or_intror (or_introl eq_refl))))
        as (e & He & Hauth).
      assert (Hnext : tryQuery (ask "viewer") "viewer" = TryNext)
        by (apply tryQuery_next; exists e; split; assumption).
      congruence.
    + split.
      * intros r H. injection H as <-. exact (tryQuery_known _ _ _ E3).
      * intros e He Hauth. exfalso.
        apply tryQuery_next in E1 as (e' & He' & Hauth'). congruence.
  - split; [exists 3%nat; split; [lia|]; split; [reflexivity|];
            intros i f Hi Hf; destruct i as [|[|i]]; [| |lia];
            injection Hf as <-; assumption|].
    split; [split; [intros _|intros _; eexists; reflexivity]|].
    + intros f [<- | [<- | [<- | []]]]; eapply (proj1 (tryQuery_next _ _)); eassumption.
    + split; [intros r H; discriminate H|].
      intros e He Hauth. exfalso.
      apply tryQuery_next in E1 as (e' & He' & Hauth'). congruence.
Qed.

End WhoAmI.

Lemma gql_rethrows_the_transport_error_witness :
  Graphql.diagnose (J := RefJson.json) rejected_query_body
  = Js.Throw (Graphql.GraphqlErrors "Cannot query field x"
                (Js.JArr [Js.JObj [("message", Js.JStr "Cannot query field x")]]))
  /\ Graphql.gql (J := RefJson.json) None rejecting_net
     = Js.Throw (Graphql.Transport
                   {| Http.name := Http.ResponseErrorName;
                      Http.message := "HTTP 400";
                      Http.cause := None; Http.status := Some 400;
                      Http.code := None; Http.attempt := 1;
                      Http.retryable := false;
                      Http.response :=
                        Some (400, [("content-type", "application/json")],
                              Some rejected_query_body) |}).
Proof.
  split; [vm_compute; reflexivity|].
  apply (proj2 (proj2 (gql_rethrows_the_transport_error (J := RefJson.json) None
                         rejecting_net))
           400 [("Content-Type", Http.HOne "application/json")] rejected_query_body);
    [reflexivity | lia | lia | lia].
Defined.

Lemma gql_returns_data_or_an_empty_object_witness :
  Graphql.gql (J := RefJson.json) None (json_net (RefJson.json_text "{'data':null}"))
  = Js.Return (Js.JObj []).
Proof.
  destruct (gql_returns_data_or_an_empty_object (J := RefJson.json) None
              (json_net (RefJson.json_text "{'data':null}"))
              {| Http.res_status := 200;
                 Http.res_headers := [("content-type", "application/json")];
                 Http.res_data := Http.DataJson (Js.JObj [("data", Js.JNull)]);
                 Http.res_rawBody := RefJson.json_text "{'data':null}" |}
              eq_refl) as (_ & _ & Hdata & _).
  apply (Hdata eq_refl). left. reflexivity.
Defined.

Lemma getDoc_cross_check_is_best_effort_witness :
  Graphql.getDoc
    (Js.Return (Js.JObj [("workspace",
                          Js.JObj [("doc", Js.JObj [("id", Js.JStr "doc-1")])])]))
    (Js.Throw (Mcp.ParseFailure "Failed to parse JSON response")
       : Js.outcome Mcp.McpFailure string)
  = Js.Return (Js.JObj [("id", Js.JStr "doc-1")]).
Proof.
  destruct (getDoc_cross_check_is_best_effort Mcp.McpFailure
              (Js.JObj [("workspace",
                         Js.JObj [("doc", Js.JObj [("id", Js.JStr "doc-1")])])])
              (Js.JObj [("id", Js.JStr "doc-1")])
              (Js.Throw (Mcp.ParseFailure "Failed to parse JSON response"))
              eq_refl) as [_ Hfound].
  exact (proj1 (Hfound eq_refl) _ eq_refl).
Defined.

(* ================================================================== *)
(** * Merging configurations *)
(* ================================================================== *)

Section ConfigMerge.
Import Js Credentials Config.

Lemma get_assign (m : list (string * jsval)) (k k' : string) (v : jsval) :
  get_prop (JObj (assign m k v)) k'
  = if String.eqb k k' then v else get_prop (JObj m) k'.
Proof.
  cbn [get_prop]. induction m as [|[k0 v0] m IH]; cbn [assign assoc].
  - rewrite (String.eqb_sym k' k). destruct (String.eqb k k'); reflexivity.
  - destruct (String.eqb k k0) eqn:E0; cbn [assoc].
    + apply String.eqb_eq in E0. subst k0.
      rewrite (String.eqb_sym k' k). destruct (String.eqb k k'); reflexivity.
    + destruct (String.eqb k' k0) eqn:E1.
      * apply String.eqb_eq in E1. subst k0. rewrite E0. reflexivity.
      * exact IH.
Qed.


Lemma deepMerge_fold (a : jsval) (pb : list (string * jsval)) :
  deepMerge a (JObj pb)
  = JObj (fold_left (fun out kv => merge_entry deepMerge out (fst kv) (snd kv))
                    pb (spread a)).
Proof.
  cbn [deepMerge]. f_equal. generalize (spread a) as out.
  induction pb as [|[k v] pb IH]; intros out; [reflexivity|].
  cbn [fold_left fst snd]. rewrite <- IH. reflexivity.
Qed.

Lemma get_merge_entry (out : list (string * jsval)) (k k' : string) (v : jsval) :
  get_prop (JObj (merge_entry deepMerge out k v)) k'
  = if String.eqb k k' then merged_value (get_prop (JObj out) k) v
    else get_prop (JObj out) k'.
Proof.
  unfold merge_entry, merged_value.
  destruct (isObject v && isObject (get_prop (JObj out) k)).
  - apply get_assign.
  - destruct v; try apply get_assign.
    destruct (String.eqb k k') eqn:E; [|reflexivity].
    apply String.eqb_eq in E. subst k'. reflexivity.
Qed.


Lemma assoc_not_in (k : string) (m : list (string * jsval)) :
  ~ In k (map fst m) -> assoc k m = None.
Proof.
  induction m as [|[k0 v0] m IH]; cbn; intros Hnot; [reflexivity|].
  destruct (String.eqb k k0) eqn:E.
  - apply String.eqb_eq in E. subst k0. exfalso. apply Hnot. left. reflexivity.
  - apply IH. intros Hin. apply Hnot. right. exact Hin.
Qed.

Lemma merge_fold_lookup (pb : list (string * jsval)) :
  NoDup (map fst pb) ->
  forall (out : list (string * jsval)) (k : string),
    get_prop (JObj (fold_left (fun out kv => merge_entry deepMerge out (fst kv) (snd kv))
                              pb out)) k
    = match assoc k pb with
      | Some v => merged_value (get_prop (JObj out) k) v
      | None => get_prop (JObj out) k
      end.
Proof.
  induction pb as [|[k0 v0] pb IH]; intros Hnd out k; [reflexivity|].
  cbn [map fst] in Hnd. inversion Hnd as [|? ? Hnotin Hrest]; subst.
  cbn [fold_left fst snd assoc]. rewrite (IH Hrest).
  destruct (String.eqb k k0) eqn:E.
  - apply String.eqb_eq in E. subst k0.
    rewrite (assoc_not_in k pb Hnotin), get_merge_entry, String.eqb_refl. reflexivity.
  - rewrite !get_merge_entry, (String.eqb_sym k0 k), E. reflexivity.
Qed.

Lemma deepMerge_lookup (a : jsval) (pb : list (string * jsval)) (k : string) :
  NoDup (map fst pb) ->
  get_prop (deepMerge a (JObj pb)) k
  = match assoc k pb with
    | Some v => merged_value (get_prop (JObj (spread a)) k) v
    | None => get_prop (JObj (spread a)) k
    end.
Proof.
  intros Hnd. rewrite deepMerge_fold. apply merge_fold_lookup. exact Hnd.
Qed.


End ConfigMerge.


Section ConfigPrecedence.
Import Js Credentials Config.

Lemma merged_value_scalar (old v : jsval) :
  isObject v = false -> v <> JUndefined -> merged_value old v = v.
Proof.
  intros Hobj Hdef. unfold merged_value. rewrite Hobj. cbn [andb].
  destruct v; try reflexivity. contradiction.
Qed.

Lemma keys_assign (m : list (string * jsval)) (k k' : string) (v : jsval) :
  In k' (map fst (assign m k v)) -> k' = k \/ In k' (map fst m).
Proof.
  induction m as [|[k0 v0] m IH]; cbn.
  - intros [H | []]. left. congruence.
  - destruct (String.eqb k k0) eqn:E; cbn.
    + apply String.eqb_eq in E. subst k0. intros [H | H]; [left; congruence|].
      right. right. exact H.
    + intros [H | H]; [right; left; exact H|].
      destruct (IH H) as [Hl | Hr]; [left; exact Hl | right; right; exact Hr].
Qed.

Lemma nodup_assign (m : list (string * jsval)) (k : string) (v : jsval) :
  NoDup (map fst m) -> NoDup (map fst (assign m k v)).
Proof.
  induction m as [|[k0 v0] m IH]; cbn; intros Hnd.
  - constructor; [intros [] | constructor].
  - inversion Hnd as [|? ? Hnotin Hrest]; subst.
    destruct (String.eqb k k0) eqn:E; cbn.
    + apply String.eqb_eq in E. subst k0. constructor; assumption.
    + constructor; [|apply IH; exact Hrest].
      intros Hin. destruct (keys_assign _ _ _ _ Hin) as [-> | Hold].
      * rewrite String.eqb_refl in E. discriminate.
      * contradiction.
Qed.

Lemma nodup_assign_all (src out : list (string * jsval)) :
  NoDup (map fst out) -> NoDup (map fst (assign_all out src)).
Proof.
  unfold assign_all. revert out.
  induction src as [|[k v] src IH]; intros out Hnd; [exact Hnd|].
  cbn [fold_left]. apply IH. apply nodup_assign. exact Hnd.
Qed.

Lemma nodup_normalizeEnv (env : ProcessEnv) : NoDup (map fst (normalizeEnv env)).
Proof.
  unfold normalizeEnv. cbv zeta. apply nodup_assign_all.
  destruct (set_text env "AFFINE_PROFILE"); destruct (set_text env "AFFINE_API_BASE_URL");
    repeat apply nodup_assign; constructor.
Qed.

Lemma get_assign_all (src out : list (string * jsval)) (k : string) :
  ~ In k (map fst src) ->
  get_prop (JObj (assign_all out src)) k = get_prop (JObj out) k.
Proof.
  unfold assign_all. revert out.
  induction src as [|[k0 v0] src IH]; intros out Hnot; [reflexivity|].
  cbn [fold_left fst snd]. rewrite IH by (intros Hin; apply Hnot; right; exact Hin).
  rewrite get_assign.
  destruct (String.eqb k0 k) eqn:E; [|reflexivity].
  apply String.eqb_eq in E. subst k0. exfalso. apply Hnot. left. reflexivity.
Qed.

Lemma credential_keys (env : ProcessEnv) (k : string) :
  In k (map fst (spread (readCredentialsFromEnv env))) -> k = "token" \/ k = "cookie".
Proof.
  unfold readCredentialsFromEnv. cbv zeta.
  destruct (option_map trim (env "AFFINE_TOKEN")) as [t|];
    destruct (option_map trim (env "AFFINE_COOKIE")) as [c|];
    try destruct (String.eqb t ""); try destruct (String.eqb c "");
    cbn; intuition.
Qed.

Lemma normalizeEnv_apiBaseUrl (env : ProcessEnv) (e : string) :
  env "AFFINE_API_BASE_URL" = Some e -> e <> "" ->
  get_prop (JObj (normalizeEnv env)) "apiBaseUrl" = JStr e.
Proof.
  intros He Hne. unfold normalizeEnv. cbv zeta.
  rewrite get_assign_all
    by (intros Hin; destruct (credential_keys env _ Hin); discriminate).
  assert (Hset : set_text env "AFFINE_API_BASE_URL" = true).
  { unfold set_text. rewrite He. apply negb_true_iff, String.eqb_neq. exact Hne. }
  rewrite Hset, He. cbn [or_default]. rewrite get_assign, String.eqb_refl. reflexivity.
Qed.

Lemma normalizeEnv_token (env : ProcessEnv) (raw : string) :
  env "AFFINE_TOKEN" = Some raw -> trim raw <> "" ->
  get_prop (JObj (normalizeEnv env)) "token" = JStr (trim raw).
Proof.
  intros He Hne. unfold normalizeEnv, readCredentialsFromEnv. cbv zeta.
  rewrite He. cbn [option_map].
  replace (String.eqb (trim raw) "") with false
    by (symmetry; apply String.eqb_neq; exact Hne).
  unfold assign_all.
  destruct (option_map trim (env "AFFINE_COOKIE")) as [c|];
    [destruct (String.eqb c "")|]; cbn [spread assign fold_left fst snd String.eqb
                                        Ascii.eqb Bool.eqb];
    rewrite ?get_assign; cbn [String.eqb Ascii.eqb Bool.eqb];
    rewrite ?get_assign; rewrite ?String.eqb_refl; reflexivity.
Qed.

Lemma get_prop_assoc (m : list (string * jsval)) (k : string) (v : jsval) :
  get_prop (JObj m) k = v -> v <> JUndefined -> assoc k m = Some v.
Proof.
  cbn [get_prop]. destruct (assoc k m); [intros ->; reflexivity|].
  intros <- H. contradiction.
Qed.

(** X21.  [loadConfig] gives the flags precedence over the environment,
    and the environment precedence over the file and the defaults: a
    value of the overrides that is neither an object nor undefined is
    the value of the result under its key; without an override for it,
    a non-empty AFFINE_API_BASE_URL is the [apiBaseUrl] and a non-blank
    AFFINE_TOKEN, trimmed, is the [token], whatever the file holds; and
    with no file, no variable set and no override the result is the
    defaults. *)
Theorem loadConfig_flags_over_env_over_file :
  forall (opts : LoadConfigOptions) (env : ProcessEnv) (file : option jsval),
    let cfg := loadConfig opts env file in
    let no_flag k :=
      overrides opts = None
      \/ exists ov, overrides opts = Some ov
                    /\ NoDup (map fst ov) /\ assoc k ov = None in
    (forall (ov : list (string * jsval)) (k : string) (v : jsval),
        overrides opts = Some ov -> NoDup (map fst ov) ->
        assoc k ov = Some v -> isObject v = false -> v <> JUndefined ->
        get_prop cfg k = v)
    /\ (forall e : string,
          no_flag "apiBaseUrl" ->
          env "AFFINE_API_BASE_URL" = Some e -> e <> "" ->
          get_prop cfg "apiBaseUrl" = JStr e)
    /\ (forall raw : string,
          no_flag "token" ->
          env "AFFINE_TOKEN" = Some raw -> trim raw <> "" ->
          get_prop cfg "token" = JStr (trim raw))
    /\ (file = None -> (forall var, env var = None) -> overrides opts = None ->
        cfg = JObj DEFAULTS).
Proof.
  intros opts env file cfg no_flag. subst cfg no_flag. unfold loadConfig. cbv zeta.
  set (from_file := match file with
                    | Some f => _
                    | None => JObj DEFAULTS
                    end).
  assert (Henv : forall k v,
             get_prop (JObj (normalizeEnv env)) k = v ->
             isObject v = false -> v <> JUndefined ->
             get_prop (deepMerge from_file (JObj (normalizeEnv env))) k = v).
  { intros k v Hk Hobj Hdef.
    rewrite (deepMerge_lookup _ _ k (nodup_normalizeEnv env)).
    rewrite (get_prop_assoc _ _ _ Hk Hdef). apply merged_value_scalar; assumption. }
  split; [|split; [|split]].
  - intros ov k v Hov Hnd Hk Hobj Hdef. rewrite Hov.
    destruct ov as [|kv ov]; [discriminate Hk|].
    rewrite (deepMerge_lookup _ _ k Hnd), Hk.
    apply merged_value_scalar; assumption.
  - intros e Hno He Hne.
    assert (Hval := Henv "apiBaseUrl" (JStr e)
                      (normalizeEnv_apiBaseUrl env e He Hne) eq_refl
                      ltac:(discriminate)).
    destruct Hno as [-> | (ov & -> & Hnd & Hnone)]; [exact Hval|].
    destruct ov as [|kv ov]; [exact Hval|].
    rewrite (deepMerge_lookup _ _ _ Hnd), Hnone.
    rewrite deepMerge_fold in *. exact Hval.
  - intros raw Hno He Hne.
    assert (Hval := Henv "token" (JStr (trim raw))
                      (normalizeEnv_token env raw He Hne) eq_refl
                      ltac:(discriminate)).
    destruct Hno as [-> | (ov & -> & Hnd & Hnone)]; [exact Hval|].
    destruct ov as [|kv ov]; [exact Hval|].
    rewrite (deepMerge_lookup _ _ _ Hnd), Hnone.
    rewrite deepMerge_fold in *. exact Hval.
  - intros -> Hunset ->. subst from_file.
    unfold normalizeEnv, readCredentialsFromEnv, set_text. rewrite !Hunset.
    reflexivity.
Qed.

End ConfigPrecedence.

(** The repository's test of the precedence: the flag wins for
    [apiBaseUrl], the profile is the one of the environment, the token
    comes from the environment, and [extra] is merged in depth. *)
Example loadConfig_repository_scenario :
  Config.loadConfig sample_flags sample_env (Some sample_file)
  = Js.JObj [("apiBaseUrl", Js.JStr "https://override");
             ("extra", Js.JObj [("nested", Js.JBool true); ("flag", Js.JNum 1)]);
             ("cookie", Js.JStr "file-cookie");
             ("profile", Js.JStr "alt");
             ("token", Js.JStr "env-token")].
Proof. vm_compute. reflexivity. Qed.

(* ================================================================== *)
(** * Tables and hints *)
(* ================================================================== *)

Section Tables.
Import Js Format.
Local Open Scope nat_scope.

Lemma length_repeat_space (n : nat) : String.length (repeat " " n) = n.
Proof. induction n as [|n IH]; cbn; [reflexivity | now rewrite IH]. Qed.

Lemma length_padEnd (s : string) (w : nat) :
  String.length s <= w -> String.length (padEnd s w) = w.
Proof.
  intros H. unfold padEnd. destruct (w <=? String.length s) eqn:E.
  - apply Nat.leb_le in E. lia.
  - rewrite length_append, length_repeat_space. lia.
Qed.

Lemma fold_max_ge (l : list nat) (a : nat) : a <= fold_left Nat.max l a.
Proof.
  revert a. induction l as [|x l IH]; intros a; cbn; [lia|].
  specialize (IH (Nat.max a x)). lia.
Qed.

Lemma fold_max_in (l : list nat) (a x : nat) : In x l -> x <= fold_left Nat.max l a.
Proof.
  revert a. induction l as [|y l IH]; intros a; [intros []|].
  cbn. intros [-> | Hin].
  - pose proof (fold_max_ge l (Nat.max a x)). lia.
  - apply IH. exact Hin.
Qed.

Lemma cell_fits (rows : list jsval) (r : jsval) (c : string) :
  In r rows -> String.length (str (get_prop r c)) <= width rows c.
Proof.
  intros Hin. unfold width. apply fold_max_in.
  apply (in_map (fun r => String.length (str (get_prop r c)))). exact Hin.
Qed.

Lemma parts_from (r : jsval) (w : string -> nat) (cs : list string) (c : string) :
  forall pre : list string,
    map (fun ic =>
           if fst ic =? List.length (pre ++ cs ++ [c]) - 1
           then str (get_prop r (snd ic))
           else padEnd (str (get_prop r (snd ic)))
                       (nth (fst ic) (map w (pre ++ cs ++ [c])) 0))
        (combine (seq (List.length pre) (List.length (cs ++ [c]))) (cs ++ [c]))
    = (map (fun c' => padEnd (str (get_prop r c')) (w c')) cs
         ++ [str (get_prop r c)])%list.
Proof.
  induction cs as [|c' cs IH]; intros pre.
  - cbn [app List.length seq combine map fst snd].
    rewrite length_app. cbn [List.length].
    replace (List.length pre =? List.length pre + 1 - 1) with true
      by (symmetry; apply Nat.eqb_eq; lia).
    reflexivity.
  - cbn [app List.length seq combine map fst snd].
    rewrite !length_app. cbn [List.length]. rewrite length_app. cbn [List.length].
    replace (List.length pre =? List.length pre + S (List.length cs + 1) - 1) with false
      by (symmetry; apply Nat.eqb_neq; lia).
    f_equal.
    + f_equal. rewrite map_app. rewrite app_nth2 by (rewrite length_map; lia).
      rewrite length_map. replace (List.length pre - List.length pre) with 0 by lia.
      reflexivity.
    + specialize (IH (pre ++ [c'])%list).
      rewrite <- !app_assoc in IH. cbn [app] in IH.
      rewrite !length_app in IH. cbn [List.length] in IH.
      rewrite length_app in IH. cbn [List.length] in IH.
      replace (List.length pre + 1) with (S (List.length pre)) in IH by lia.
      replace (List.length pre + S (List.length cs + 1)) with
         (List.length pre + (1 + (List.length cs + 1))) by lia.
      exact IH.
Qed.

Lemma parts_shape (rows : list jsval) (r : jsval) (cs : list string) (c : string) :
  parts r (cs ++ [c]) (map (width rows) (cs ++ [c]))
  = (map (fun c' => padEnd (str (get_prop r c')) (width rows c')) cs
       ++ [str (get_prop r c)])%list.
Proof. unfold parts. exact (parts_from r (width rows) cs c []). Qed.

Lemma join_last (xs : list string) (y : string) :
  exists pad : string,
    join " " (xs ++ [y]) = pad ++ y
    /\ String.length pad = list_sum (map (fun x => S (String.length x)) xs).
Proof.
  induction xs as [|x xs (pad & Hjoin & Hlen)].
  - exists "". split; reflexivity.
  - exists (x ++ " " ++ pad). split.
    + cbn [app join]. destruct (xs ++ [y])%list as [|z zs] eqn:E.
      * destruct xs; discriminate E.
      * rewrite Hjoin, append_assoc. reflexivity.
    + rewrite length_append. cbn [append String.length map].
      change (list_sum (?a :: ?l)) with (a + list_sum l).
      cbn [list_sum fold_right]. rewrite Hlen. lia.
Qed.

(** X22.  [toTable] gives one line per row, and in every line the last
    column starts at the same offset: the part before it has, for each
    of the other columns, the width of that column and one space, where
    the width of a column is the length of its longest cell or of its
    name.  The last column is not padded. *)
Theorem toTable_aligns_the_columns :
  forall (rows : list jsval) (cs : list string) (c_last : string),
    List.length (toTable rows (cs ++ [c_last])) = List.length rows
    /\ (forall (i : nat) (r : jsval),
          nth_error rows i = Some r ->
          exists pad : string,
            nth_error (toTable rows (cs ++ [c_last])) i
              = Some (pad ++ str (get_prop r c_last))
            /\ String.length pad
               = list_sum (map (fun c => S (width rows c)) cs))
    /\ (forall (c : string) (r : jsval),
          In r rows ->
          String.length c <= width rows c
          /\ String.length (str (get_prop r c)) <= width rows c).
Proof.
  intros rows cs c_last. split; [|split].
  - unfold toTable. cbv zeta. apply length_map.
  - intros i r Hr. unfold toTable. cbv zeta.
    rewrite nth_error_map, Hr. cbn [option_map].
    rewrite parts_shape.
    destruct (join_last
                (map (fun c' => padEnd (str (get_prop r c')) (width rows c')) cs)
                (str (get_prop r c_last))) as (pad & Hjoin & Hlen).
    exists pad. split; [rewrite Hjoin; reflexivity|].
    rewrite Hlen, map_map. f_equal. apply map_ext. intros c. f_equal.
    apply length_padEnd. apply cell_fits. apply (nth_error_In rows i). exact Hr.
  - intros c r Hin. split; [apply fold_max_ge | apply cell_fits; exact Hin].
Qed.

Lemma join_cons_lines (sep x : string) (l : list string) :
  join sep (x :: l) = x ++ String.concat "" (map (fun y => sep ++ y) l).
Proof.
  assert (Hnil : forall z : string, z ++ "" = z)
    by (intros z; induction z as [|a z IH]; cbn; [reflexivity | now rewrite IH]).
  revert x. induction l as [|y l IH]; intros x.
  - cbn. symmetry. apply Hnil.
  - change (join sep (x :: y :: l)) with (x ++ sep ++ join sep (y :: l)).
    rewrite IH. cbn [map]. f_equal.
    destruct l as [|z l].
    + cbn. rewrite !Hnil. reflexivity.
    + cbn [map String.concat]. cbn [append]. symmetry. apply append_assoc.
Qed.

(** [withHints] drops the hints that are empty; with no hint left
    it returns the message as it is, and otherwise the message, a blank
    line, the line [Hints:] and one line [ - hint] for each hint kept,
    in their order. *)
Theorem withHints_lists_the_hints :
  forall (message : string) (hints : option (list string)),
    let newline := String (ascii_of_nat 10) EmptyString in
    let kept := filter (fun h => negb (String.eqb h ""))
                       (match hints with Some l => l | None => [] end) in
    (kept = [] -> withHints message hints = message)
    /\ (kept <> [] ->
        withHints message hints
        = message ++ newline ++ newline ++ "Hints:"
            ++ String.concat "" (map (fun h => newline ++ " - " ++ h) kept))
    /\ withHints message None = message
    /\ withHints message (Some []) = message.
Proof.
  intros message hints newline kept. unfold withHints. cbv zeta.
  fold kept. fold newline. split; [|split; [|split; reflexivity]].
  - intros ->. reflexivity.
  - intros Hne. destruct kept as [|h kept'] eqn:E; [contradiction|].
    cbn [List.length Nat.eqb].
    match goal with
    | |- context [join newline ("" :: "Hints:" :: ?L)] =>
        change (join newline ("" :: "Hints:" :: L))
          with (newline ++ join newline ("Hints:" :: L))
    end.
    rewrite join_cons_lines, map_map. reflexivity.
Qed.

End Tables.

(* ================================================================== *)
(** * The fallbacks of the search resolver *)
(* ================================================================== *)

Section SearchFallbacks.
Import Js Search.

(** X23.  The resolver rejects in one case only: the indexed search and
    the tool gave no item, and both the listing of the recently updated
    documents and the listing of the documents reject; the rejection is
    then that of the second listing.  Failures of the indexed search,
    of the tools and of the reading of documents are never passed on. *)
Theorem search_rejects_only_when_both_listings_fail :
  forall (d : deps) (query_ : string) (first : option Z) (e : exn),
    fst (keywordSearchWithFallback d query_ first) = Throw e <->
    snd (fst (indexed_then_tool d)) = []
    /\ (exists e0 : exn, listRecentlyUpdatedDocs d = Throw e0)
    /\ listDocs d = Throw e.
Proof.
  intros d query_ first e. unfold keywordSearchWithFallback.
  destruct (indexed_then_tool d) as [[src1 items1] log1]. cbn [fst snd].
  destruct items1 as [|it its].
  - unfold title_scan.
    destruct (listRecentlyUpdatedDocs d) as [conn | e0] eqn:Er.
    + cbv zeta.
      match goal with
      | |- context [if ?c then _ else _] => destruct c
      end;
        [destruct (content_scan _ _ _ _ _ _ _) as [[s4 i4] l4]|]; cbn [fst];
        (split; [discriminate | intros (_ & (e1 & H) & _); discriminate H]).
    + destruct (listDocs d) as [conn | e1] eqn:El.
      * cbv zeta.
        match goal with
        | |- context [if ?c then _ else _] => destruct c
        end;
          [destruct (content_scan _ _ _ _ _ _ _) as [[s4 i4] l4]|]; cbn [fst];
          (split; [discriminate | intros (_ & _ & H); discriminate H]).
      * cbn [fst]. split.
        -- intros H. injection H as <-. split; [reflexivity|].
           split; [exists e0; reflexivity | reflexivity].
        -- intros (_ & _ & H). injection H as <-. reflexivity.
  - cbv zeta.
    match goal with
    | |- context [if ?c then _ else _] => destruct c
    end;
      [destruct (content_scan _ _ _ _ _ _ _) as [[s4 i4] l4]|]; cbn [fst];
      (split; [discriminate | intros (H & _); discriminate H]).
Qed.

Lemma mem_string_false (x : string) (l : list string) :
  mem_string x l = false <-> ~ In x l.
Proof.
  unfold mem_string. split.
  - intros H Hin. assert (Ht : existsb (String.eqb x) l = true).
    { apply existsb_exists. exists x. split; [exact Hin | apply String.eqb_refl]. }
    congruence.
  - intros Hnot. destruct (existsb (String.eqb x) l) eqn:E; [|reflexivity].
    apply existsb_exists in E as (y & Hy & Heq). apply String.eqb_eq in Heq.
    subst y. contradiction.
Qed.

(** The loop of the content scan: it reads no document whose id was
    seen, and with a bound it stops once the bound is reached. *)
Lemma scan_content_invariants (d : deps) (q : string) (seen : list string)
    (remaining : option nat) :
  forall (nodes : list DocNode) (matches : list jsval) (log : list call),
    (forall id, In (CallReadDocument id)
                   (snd (scan_content d q seen remaining nodes matches log)) ->
                In (CallReadDocument id) log \/ ~ In id seen)
    /\ (exists added,
          fst (scan_content d q seen remaining nodes matches log)
          = (matches ++ added)%list)
    /\ (forall r, remaining = Some r ->
          (List.length matches < r)%nat ->
          (List.length (fst (scan_content d q seen remaining nodes matches log))
           <= r)%nat).
Proof.
  induction nodes as [|node nodes IH]; intros matches log.
  - cbn [scan_content fst snd]. split; [intros id H; left; exact H|].
    split; [exists []; symmetry; apply app_nil_r | intros r _ H; lia].
  - cbn [scan_content].
    destruct (mem_string (node_id node) seen) eqn:Eseen; [apply IH|].
    assert (Hnew : forall id,
               In (CallReadDocument id) (log ++ [CallReadDocument (node_id node)])%list ->
               In (CallReadDocument id) log \/ ~ In id seen).
    { intros id Hin. apply in_app_or in Hin as [Hin | [Hin | []]]; [left; exact Hin|].
      injection Hin as <-. right. apply mem_string_false. exact Eseen. }
    assert (Hstep : forall ms,
               (forall id, In (CallReadDocument id)
                   (snd (scan_content d q seen remaining nodes ms
                           (log ++ [CallReadDocument (node_id node)])%list)) ->
                In (CallReadDocument id) log \/ ~ In id seen)).
    { intros ms id Hin.
      destruct (proj1 (IH ms (log ++ [CallReadDocument (node_id node)])%list) id Hin)
        as [Hl | Hr]; [apply Hnew; exact Hl | right; exact Hr]. }
    destruct (readDocument d (node_id node)) as [markdown | err].
    + destruct (indexOf (toLowerCase markdown) q) as [idx|].
      * cbv zeta.
        set (m := JObj _).
        destruct (match remaining with
                  | Some r => (r <=? List.length (matches ++ [m]))%nat
                  | None => false
                  end) eqn:Efull.
        -- cbn [fst snd]. split; [exact Hnew|]. split; [exists [m]; reflexivity|].
           intros r Hr Hlt. subst remaining. apply Nat.leb_le in Efull.
           rewrite length_app in *. cbn [List.length] in *. lia.
        -- split; [apply Hstep|].
           destruct (IH (matches ++ [m])%list
                        (log ++ [CallReadDocument (node_id node)])%list)
             as (_ & (added & Hadded) & Hbound).
           split; [exists (m :: added); rewrite Hadded, <- app_assoc; reflexivity|].
           intros r Hr Hlt. apply (Hbound r Hr). subst remaining.
           apply Nat.leb_gt in Efull. exact Efull.
      * split; [apply Hstep|].
        destruct (IH matches (log ++ [CallReadDocument (node_id node)])%list)
          as (_ & Hadded & Hbound).
        split; [exact Hadded | exact Hbound].
    + split; [apply Hstep|].
      destruct (IH matches (log ++ [CallReadDocument (node_id node)])%list)
        as (_ & Hadded & Hbound).
      split; [exact Hadded | exact Hbound].
Qed.

(** X24.  A result of the indexed search that is not empty is only ever
    supplemented: the source stays [graphql], the items are those of
    the index followed by the matches of the content scan, no document
    that the index already returned is read again, and with a positive
    [first] the scan runs only while there are fewer than [first] items
    and never takes the result past [first]. *)
Theorem indexed_results_are_supplemented :
  forall (d : deps) (query_ : string) (first : option Z)
         (row : SearchDoc) (rows : list SearchDoc),
    searchDocsByKeyword d = Return (Some (row :: rows)) ->
    let found := map gql_item (row :: rows) in
    exists (matches : list jsval) (calls : list call),
      keywordSearchWithFallback d query_ first
      = (Return {| query := query_; source := graphql;
                   items := (found ++ matches)%list |},
         CallSearchDocs :: calls)
      /\ (forall id : string,
            In (CallReadDocument id) calls -> ~ In id (seen_ids found))
      /\ (forall f : Z,
            first = Some f -> 0 < f ->
            Z.of_nat (List.length (found ++ matches))
            <= Z.max f (Z.of_nat (List.length found))).
Proof.
  intros d query_ first row rows Hrows found. subst found.
  unfold keywordSearchWithFallback, indexed_then_tool. rewrite Hrows.
  change (map gql_item (row :: rows)) with (gql_item row :: map gql_item rows).
  cbv zeta. cbv iota.
  set (found := gql_item row :: map gql_item rows).
  assert (Hfound : found = gql_item row :: map gql_item rows) by reflexivity.
  set (maxItems := match first with
                   | Some f => if 0 <? f then Some f else None
                   | None => None
                   end).
  replace ((List.length found =? 0)%nat || is_graphql graphql) with true
    by (rewrite orb_true_r; reflexivity).
  cbn [andb].
  destruct (match maxItems with
            | Some m => Z.of_nat (List.length found) <? m
            | None => true
            end) eqn:Escan.
  2: { exists [], []. rewrite app_nil_r. split; [reflexivity|].
       split; [intros id []|]. intros f Hf Hpos. lia. }
  unfold content_scan. unfold next_tools.
  cbn [filter is_tools_call List.length app].
  destruct (toolsList d 0) as [tools | err].
  2: { exists [], [CallToolsList]. rewrite app_nil_r. split; [reflexivity|].
       split; [intros id [H | []]; discriminate H|]. intros f Hf Hpos. lia. }
  destruct (has_tool tools "read_document").
  2: { exists [], [CallToolsList]. rewrite app_nil_r. split; [reflexivity|].
       split; [intros id [H | []]; discriminate H|]. intros f Hf Hpos. lia. }
  destruct (listRecentlyUpdatedDocs d) as [conn | err].
  2: { exists [], [CallToolsList; CallListRecentlyUpdatedDocs].
       rewrite app_nil_r. split; [reflexivity|].
       split; [intros id [H | [H | []]]; discriminate H|]. intros f Hf Hpos. lia. }
  cbv zeta.
  destruct (scan_content_invariants d (toLowerCase query_) (seen_ids found)
              (remaining_of maxItems found) (conn_edges conn) []
              [CallSearchDocs; CallToolsList; CallListRecentlyUpdatedDocs])
    as (Hreads & (added & Hadded) & Hbound).
  destruct (scan_content_log d (toLowerCase query_) (seen_ids found)
              (remaining_of maxItems found) (conn_edges conn) []
              [CallSearchDocs; CallToolsList; CallListRecentlyUpdatedDocs])
    as (reads & Hlog & _).
  destruct (scan_content d (toLowerCase query_) (seen_ids found)
              (remaining_of maxItems found) (conn_edges conn) []
              [CallSearchDocs; CallToolsList; CallListRecentlyUpdatedDocs])
    as [matches log] eqn:Erun.
  cbn [fst snd] in *. cbn [app] in Hadded. subst added.
  exists matches, ([CallToolsList; CallListRecentlyUpdatedDocs] ++ reads)%list.
  split.
  - rewrite Hlog. unfold merge_matches. destruct matches as [|m ms].
    + rewrite app_nil_r. reflexivity.
    + rewrite Hfound. cbn [List.length Nat.eqb andb]. reflexivity.
  - split.
    + intros id Hin. rewrite Hlog in Hreads.
      destruct (Hreads id) as [Hold | Hnew]; [|destruct Hold as [H | [H | [H | []]]];
                                                 discriminate H | exact Hnew].
      right. right. right. cbn [app] in Hin.
      destruct Hin as [H | [H | Hin]]; [discriminate H | discriminate H | exact Hin].
    + intros f Hf Hpos. subst first. subst maxItems.
      replace (0 <? f) with true in * by (symmetry; apply Z.ltb_lt; exact Hpos).
      apply Z.ltb_lt in Escan. cbn [remaining_of] in Hbound.
      specialize (Hbound _ eq_refl ltac:(cbn [List.length]; lia)).
      rewrite length_app. lia.
Qed.

End SearchFallbacks.

Lemma indexed_results_are_supplemented_witness :
  exists (matches : list Js.jsval) (calls : list Search.call),
    Search.keywordSearchWithFallback lagging_index_deps "roadmap" (Some 5)
    = (Js.Return {| Search.query := "roadmap"; Search.source := Search.graphql;
                    Search.items :=
                      (map Search.gql_item [indexed_row] ++ matches)%list |},
       Search.CallSearchDocs :: calls)
    /\ (forall id : string,
          In (Search.CallReadDocument id) calls ->
          ~ In id (Search.seen_ids (map Search.gql_item [indexed_row])))
    /\ (forall f : Z,
          Some 5 = Some f -> 0 < f ->
          Z.of_nat (List.length (map Search.gql_item [indexed_row] ++ matches))
          <= Z.max f (Z.of_nat (List.length (map Search.gql_item [indexed_row])))).
Proof.
  exact (indexed_results_are_supplemented lagging_index_deps "roadmap" (Some 5)
           indexed_row [] eq_refl).
Defined.

(** The run of that search: the index answers d1, the scan reads d2
    only and adds it. *)
Example lagging_index_run :
  Search.keywordSearchWithFallback lagging_index_deps "roadmap" (Some 5)
  = (Js.Return {| Search.query := "roadmap"; Search.source := Search.graphql;
                  Search.items :=
                    [Search.gql_item indexed_row;
                     Js.JObj [("docId", Js.JStr "d2"); ("title", Js.JStr "Notes");
                              ("snippet", Js.JStr "See the Roadmap for Q3")]] |},
     [Search.CallSearchDocs; Search.CallToolsList;
      Search.CallListRecentlyUpdatedDocs; Search.CallReadDocument "d2"]).
Proof. vm_compute. reflexivity. Qed.

(* ================================================================== *)
(** * The documents of the realtime layer *)
(* ================================================================== *)

Section RealtimeDocuments.
Import Js Yjs.
Context {J : JsonLib} {Y : YjsLib}.

Lemma get_in_range (s : string) (i : nat) :
  (i < String.length s)%nat -> exists c, String.get i s = Some c.
Proof.
  revert i. induction s as [|a s IH]; intros i Hi; [cbn in Hi; lia|].
  destruct i as [|i]; [exists a; reflexivity|]. cbn. apply IH. cbn in Hi. lia.
Qed.

Lemma alphabet_at_in (i : nat) :
  exists j : nat, (j < 36)%nat /\ String.get j alphabet = Some (alphabet_at i).
Proof.
  exists (i mod 36)%nat.
  assert (Hlt : (i mod 36 < 36)%nat) by (apply Nat.mod_upper_bound; lia).
  split; [exact Hlt|]. unfold alphabet_at.
  destruct (get_in_range alphabet (i mod 36)%nat Hlt) as [c Hc].
  rewrite Hc. reflexivity.
Qed.

Lemma rand_chars_shape (w : world) (n : nat) :
  forall from : nat,
    String.length (rand_chars w from n) = n
    /\ (forall (i : nat) (c : ascii),
          String.get i (rand_chars w from n) = Some c ->
          exists j : nat, (j < 36)%nat /\ String.get j alphabet = Some c).
Proof.
  induction n as [|n IH]; intros from.
  - split; [reflexivity | intros i c H; destruct i; discriminate H].
  - destruct (IH (S from)) as [Hlen Hchars]. split; [cbn; now rewrite Hlen|].
    intros i c H. destruct i as [|i].
    + cbn in H. injection H as <-. apply alphabet_at_in.
    + cbn in H. exact (Hchars i c H).
Qed.

(** X25.  [randId(len)] returns a text of [len] code units, each of
    them a lower-case letter or a digit of its alphabet, and draws
    exactly [len] random numbers. *)
Theorem randId_draws_from_the_alphabet :
  forall (w : world) (n : nat) (st : state),
    exists s : string,
      randId w n st
      = (Ok s, {| trace := trace st; draws := (draws st + n)%nat; ticks := ticks st |})
      /\ String.length s = n
      /\ (forall (i : nat) (c : ascii),
            String.get i s = Some c ->
            exists j : nat, (j < 36)%nat /\ String.get j alphabet = Some c).
Proof.
  intros w n st. exists (rand_chars w (draws st) n).
  split; [reflexivity|]. apply rand_chars_shape.
Qed.

Lemma ymap_get_set (m : ymap) (k k' : string) (v : yval) :
  ymap_get (ymap_set m k v) k' = if String.eqb k k' then Some v else ymap_get m k'.
Proof.
  induction m as [|[k0 v0] m IH]; cbn [ymap_set ymap_get].
  - rewrite (String.eqb_sym k' k). destruct (String.eqb k k'); reflexivity.
  - destruct (String.eqb k k0) eqn:E0; cbn [ymap_get].
    + apply String.eqb_eq in E0. subst k0.
      rewrite (String.eqb_sym k' k). destruct (String.eqb k k'); reflexivity.
    + destruct (String.eqb k' k0) eqn:E1.
      * apply String.eqb_eq in E1. subst k0. rewrite E0. reflexivity.
      * exact IH.
Qed.

Lemma flavour_is_page_block (pageId noteId : string) (title : option string)
    (fl : string) :
  flavour_is (page_block pageId noteId title) fl = Some (String.eqb "affine:page" fl).
Proof.
  unfold page_block. destruct title as [t|]; [destruct (String.eqb t "")|];
    reflexivity.
Qed.

(** The note that [appendText] finds in a scaffold. *)
Lemma locate_note_blocks (pageId noteId : string) (paraId title : option string)
    (txt : string) :
  pageId <> "" -> pageId <> noteId ->
  (forall p, paraId = Some p -> p <> pageId /\ p <> noteId) ->
  locate_note ((pageId, page_block pageId noteId title)
               :: (noteId, note_block noteId paraId)
               :: match paraId with
                  | Some p => [(p, paragraph_block p txt)]
                  | None => []
                  end)
  = Some (Some noteId).
Proof.
  intros Hne Hpn Hpara.
  assert (Hpage : String.eqb pageId "" = false) by (apply String.eqb_neq; exact Hne).
  assert (Hnp : String.eqb noteId pageId = false)
    by (apply String.eqb_neq; congruence).
  assert (Hlast : last_page ((pageId, page_block pageId noteId title)
                             :: (noteId, note_block noteId paraId)
                             :: match paraId with
                                | Some p => [(p, paragraph_block p txt)]
                                | None => []
                                end) None = Some (Some pageId)).
  { cbn [last_page]. rewrite flavour_is_page_block.
    change (flavour_is (note_block noteId paraId) "affine:page") with (Some false).
    cbn [String.eqb Ascii.eqb Bool.eqb]. destruct paraId as [p|]; reflexivity. }
  unfold locate_note. rewrite Hlast, Hpage.
  cbn [ymap_get]. rewrite String.eqb_refl.
  replace (children_of (Some (page_block pageId noteId title)))
    with (Some [ystr noteId])
    by (unfold page_block; destruct title as [t|];
        [destruct (String.eqb t "")|]; reflexivity).
  cbn [first_note ystr ymap_get]. rewrite Hnp, String.eqb_refl. reflexivity.
Qed.

(** The events of [createDoc] once its update is built: the push comes
    first. *)
Lemma createDoc_try_trace (w : world) (opts : CreateDocOptions)
    (t : RealtimeTransport) (st0 st1 : state) (docId : string) (u : update) :
  createDoc_update w opts t st0 = (Ok (docId, u), st1) ->
  exists es : list tevent,
    trace (snd (createDoc_try w opts t st0))
    = (trace st1
       ++ TEmit "space:push-doc-update"
            (push_payload (workspaceId (create_base opts)) docId u) :: es)%list.
Proof.
  intros Hupd. unfold createDoc_try, bind. rewrite Hupd. cbn [fst snd].
  unfold do_emit.
  destruct (emit t (trace st1) "space:push-doc-update" _) as [ack|e|];
    cbn [settle]; try (exists []; reflexivity).
  rewrite ensureAckOk_run. destruct (failure_text ack); [exists []; reflexivity|].
  destruct (emits_only_appendDocMeta w t (workspaceId (create_base opts)) docId
              (Some (title opts))
              (record (TEmit "space:push-doc-update"
                         (push_payload (workspaceId (create_base opts)) docId u)) st1))
    as (es & Hes & _).
  exists es.
  destruct (appendDocMetaToWorkspaceRoot w t (workspaceId (create_base opts)) docId
              (Some (title opts)) _) as [[[]|e|] st2];
    cbn [snd] in *; unfold ret; cbn [snd]; rewrite Hes; cbn [record trace];
    rewrite <- app_assoc; reflexivity.
Qed.

Lemma entered_counters (ro : RealtimeOptions) (st : state) :
  draws (entered ro st) = draws st /\ ticks (entered ro st) = ticks st.
Proof. unfold entered. destruct (transport ro); split; reflexivity. Qed.

(** X26.  Once the join is answered, [createDoc] pushes, under a fresh
    id of twenty code units, an update that replays to a page block
    [page:<id>] whose only child is the note [note:<id>]; the note has
    one child, a block of flavour [affine:paragraph] without children
    whose [prop:text] is the content, when the content is not empty, and
    none otherwise.  The note that [appendText] finds in this tree is
    [note:<id>], the note that it derives from the id when it has no
    snapshot.  The next emit of [createDoc] is [space:push-doc-update]
    with the workspace, the fresh id and the base64 text of that update,
    and its outcome is then that of the push and of the entry in the
    workspace root. *)
Theorem createDoc_pushes_the_scaffold :
  forall (w : world) (opts : CreateDocOptions) (st : state)
         (t : RealtimeTransport) (v : jsval),
    let ro := create_base opts in
    let ws := workspaceId ro in
    let st0 := entered ro st in
    let docId := rand_chars w (draws st) 20 in
    let pageId := "page:" ++ docId in
    let noteId := "note:" ++ docId in
    let paraId := "p:" ++ toString36 (now w (ticks st))
                    ++ rand_chars w (draws st + 20) 6 in
    let pushed (u : update) :=
      JObj [("spaceType", JStr "workspace");
            ("spaceId", JStr ws);
            ("docId", JStr docId);
            ("update", JStr (toBase64 u))] in
    transport_in_use w ro = Some t ->
    emit t (trace st0) "space:join" (join_payload ws (version_of ro)) = Resolves v ->
    exists (u : update) (st1 : state) (d : ydoc) (page note : yval),
      createDoc_update w opts t st0 = (Ok (docId, u), st1)
      /\ String.length docId = 20%nat
      /\ applyUpdate u = Some d
      /\ filter (has_flavour "affine:page") (getMap d "blocks") = [(pageId, page)]
      /\ children page = [ystr noteId]
      /\ ymap_get (getMap d "blocks") noteId = Some note
      /\ flavour_of note = Some "affine:note"
      /\ (forall c : string,
            content opts = Some c -> c <> "" ->
            exists para : yval,
              children note = [ystr paraId]
              /\ ymap_get (getMap d "blocks") paraId = Some para
              /\ para = paragraph_block paraId c
              /\ flavour_of para = Some "affine:paragraph"
              /\ text_of para = Some c
              /\ children para = [])
      /\ (given (content opts) = false -> children note = [])
      /\ locate_note (getMap d "blocks") = Some (Some noteId)
      /\ (exists rest : list tevent,
            trace (snd (createDoc w opts st))
            = (trace st1 ++ TEmit "space:push-doc-update" (pushed u) :: rest)%list)
      /\ fst (createDoc w opts st) =
           match emit t (trace st1) "space:push-doc-update" (pushed u) with
           | Resolves ack =>
               match failure_text ack with
               | Some msg => Fail (ack_failure "space:push-doc-update" msg ack)
               | None =>
                   match fst (appendDocMetaToWorkspaceRoot w t ws docId
                                (Some (title opts))
                                (record (TEmit "space:push-doc-update"
                                           (pushed u)) st1)) with
                   | Ok _ => Ok {| created_docId := docId;
                                   created_timestamp := opt_prop ack "timestamp" |}
                   | Fail e => Fail e
                   | Hang => Hang
                   end
               end
           | Rejects e => Fail e
           | Silent => Hang
           end.
Proof.
  intros w opts st t v ro ws st0 docId pageId noteId paraId pushed Huse Hjoin.
  destruct (entered_counters ro st) as [Hdraws Hticks]. fold st0 in Hdraws, Hticks.
  set (para := if given (content opts) then Some paraId else None).
  set (d := scaffold pageId noteId para (Some (title opts)) (content opts)).
  set (st1 := {| trace := (trace st0 ++ [TEmit "space:join"
                                           (join_payload ws (version_of ro))])%list;
                 draws := if given (content opts) then (draws st + 20 + 6)%nat
                          else (draws st + 20)%nat;
                 ticks := if given (content opts) then S (ticks st) else ticks st |}).
  assert (Hupd : createDoc_update w opts t st0 = (Ok (docId, encodeStateAsUpdate d), st1)).
  { unfold createDoc_update, bind. rewrite joinWorkspace_run.
    fold ro ws. rewrite Hjoin.
    unfold randId at 1. cbn [draws record trace ticks]. rewrite Hdraws. fold docId.
    unfold d, para, st1.
    destruct (given (content opts)); unfold bind, Date_now, randId, ret;
      cbn [draws trace ticks]; rewrite ?Hticks; reflexivity. }
  assert (Hids : forall p, para = Some p -> p <> pageId /\ p <> noteId).
  { unfold para. intros p Hp. destruct (given (content opts)); [|discriminate].
    injection Hp as <-. split; discriminate. }
  assert (Hblocks := scaffold_blocks pageId noteId para (Some (title opts))
                       (content opts) ltac:(discriminate) Hids).
  fold d in Hblocks.
  exists (encodeStateAsUpdate d), st1, d,
    (page_block pageId noteId (Some (title opts))), (note_block noteId para).
  split; [exact Hupd|].
  split; [apply (proj1 (rand_chars_shape w 20 (draws st)))|].
  split; [apply apply_encode|].
  rewrite Hblocks.
  split.
  { cbn [filter]. unfold has_flavour at 1. cbn [snd].
    rewrite flavour_page_block. cbn [String.eqb Ascii.eqb Bool.eqb].
    unfold has_flavour at 1. cbn. destruct para; reflexivity. }
  split; [apply children_page_block|].
  split; [cbn [ymap_get]; replace (String.eqb noteId pageId) with false by reflexivity;
          rewrite String.eqb_refl; reflexivity|].
  split; [reflexivity|].
  split.
  { intros c Hc Hne. exists (paragraph_block paraId c).
    unfold para, given. rewrite Hc.
    replace (String.eqb c "") with false by (symmetry; apply String.eqb_neq; exact Hne).
    cbn [negb]. split; [reflexivity|].
    split; [|split; [reflexivity | apply paragraph_block_fields]].
    cbn [ymap_get]. replace (String.eqb paraId pageId) with false by reflexivity.
    replace (String.eqb paraId noteId) with false by reflexivity.
    rewrite String.eqb_refl. reflexivity. }
  split; [intros Hno; unfold para; rewrite Hno; reflexivity|].
  split.
  { apply locate_note_blocks; [discriminate | discriminate | exact Hids]. }
  destruct (guarded_result w ro (createDoc_try w opts) t st Huse) as [Hres [closing Htr]].
  change (guarded w ro (createDoc_try w opts) st) with (createDoc w opts st)
    in Hres, Htr.
  fold st0 in Hres, Htr.
  split.
  { destruct (createDoc_try_trace w opts t st0 st1 docId _ Hupd) as [es Hes].
    fold ro ws in Hes. rewrite push_payload_fields in Hes.
    exists (es ++ closing)%list. rewrite Htr, Hes, <- app_assoc. reflexivity. }
  rewrite Hres.
  rewrite (createDoc_try_after_update w opts t st0 st1 docId _ Hupd).
  fold ro ws. rewrite push_payload_fields. reflexivity.
Qed.

Lemma guarded_trace {A} (w : world) (ro : RealtimeOptions)
    (body : RealtimeTransport -> M A) (t : RealtimeTransport) (st : state) :
  transport_in_use w ro = Some t ->
  fst (guarded w ro body st) = fst (body t (entered ro st))
  /\ exists closing,
       trace (snd (guarded w ro body st)) =
         (trace (snd (body t (entered ro st))) ++ closing)%list
       /\ (closing = [] \/ closing = [TClose]).
Proof.
  unfold transport_in_use, guarded, ensureTransport, entered, needClose, bind.
  destruct (transport ro) as [t'|].
  - intros Ht. injection Ht as ->. unfold ret, finally, close_if.
    destruct (body t st) as [[a|e|] st1]; cbn [fst snd];
      (split; [reflexivity | exists []; rewrite app_nil_r; split;
                             [reflexivity | left; reflexivity]]).
  - destruct (connect (socket w)) as [u|e]; [|discriminate].
    intros Ht. injection Ht as <-. unfold finally, close_if, do_close.
    destruct (body (socket w) (record TConnect st)) as [[a|e|] st1]; cbn [fst snd];
      (split; [reflexivity|]).
    + exists [TClose]. split; [reflexivity | right; reflexivity].
    + exists [TClose]. split; [reflexivity | right; reflexivity].
    + exists []. rewrite app_nil_r. split; [reflexivity | left; reflexivity].
Qed.

Lemma getMap_setMap (d : ydoc) (name name' : string) (m : ymap) :
  getMap (setMap d name m) name'
  = if String.eqb name name' then m else getMap d name'.
Proof.
  induction d as [|[n0 m0] d IH]; cbn [setMap getMap].
  - rewrite (String.eqb_sym name' name). destruct (String.eqb name name'); reflexivity.
  - destruct (String.eqb name n0) eqn:E0; cbn [getMap].
    + apply String.eqb_eq in E0. subst n0.
      rewrite (String.eqb_sym name' name). destruct (String.eqb name name'); reflexivity.
    + destruct (String.eqb name' n0) eqn:E1.
      * apply String.eqb_eq in E1. subst n0. rewrite E0. reflexivity.
      * exact IH.
Qed.

(** The pull of a document whose snapshot replays. *)
Lemma pull_document_pulled (w : world) (t : RealtimeTransport)
    (ws docId : string) (st : state) (pulled : jsval) (b64 : string) (d : ydoc) :
  pull_timer_first w = false ->
  emit t (trace st) "space:load-doc" (JObj (doc_payload ws docId)) = Resolves pulled ->
  snapshot_of pulled = Some b64 ->
  b64 <> "" ->
  byteLength (fromBase64 b64) <> 0%nat ->
  applyUpdate (fromBase64 b64) = Some d ->
  pull_document w t ws docId st
  = (Ok (d, true), record (TEmit "space:load-doc" (JObj (doc_payload ws docId))) st).
Proof.
  intros Htimer Hemit Hsnap Hne Hbytes Happly.
  unfold pull_document, try_catch, bind, do_emit_withTimeout.
  rewrite Hemit, Htimer. cbn [settle]. rewrite Hsnap.
  replace (String.eqb b64 "") with false by (symmetry; apply String.eqb_neq; exact Hne).
  replace (byteLength (fromBase64 b64) =? 0)%nat with false
    by (symmetry; apply Nat.eqb_neq; exact Hbytes).
  rewrite Happly. reflexivity.
Qed.

(** X27.  When the pull of [appendText] gives a snapshot that replays
    to a document in which the note [nid] is found, the update that it
    pushes replays to that document with the new paragraph added, a
    block of flavour [affine:paragraph] without children whose
    [prop:text] is the text, and its id appended after the children that
    the note had; the other fields of the note, the other blocks and the
    other maps of the document are as they were pulled.  The emit that
    follows the pull is [space:push-doc-update] with the workspace, the
    document id and the base64 text of that update, and nothing is
    emitted after it. *)
Theorem appendText_extends_the_pulled_note :
  forall (w : world) (opts : AppendTextOptions) (st : state)
         (t : RealtimeTransport) (v pulled : jsval) (b64 : string) (d : ydoc)
         (nid : string) (note : ymap) (kids : list yval),
    let ro := append_base opts in
    let ws := workspaceId ro in
    let docId := append_docId opts in
    let st0 := entered ro st in
    let join := TEmit "space:join" (join_payload ws (version_of ro)) in
    let load := TEmit "space:load-doc" (JObj (doc_payload ws docId)) in
    let paraId := "p:" ++ toString36 (now w (ticks st)) ++ rand_chars w (draws st) 6 in
    let blocks := getMap d "blocks" in
    let pushed (u : update) :=
      JObj [("spaceType", JStr "workspace");
            ("spaceId", JStr ws);
            ("docId", JStr docId);
            ("update", JStr (toBase64 u))] in
    transport_in_use w ro = Some t ->
    emit t (trace st0) "space:join" (join_payload ws (version_of ro)) = Resolves v ->
    pull_timer_first w = false ->
    emit t (trace st0 ++ [join])%list "space:load-doc" (JObj (doc_payload ws docId))
      = Resolves pulled ->
    snapshot_of pulled = Some b64 ->
    b64 <> "" ->
    byteLength (fromBase64 b64) <> 0%nat ->
    applyUpdate (fromBase64 b64) = Some d ->
    locate_note blocks = Some (Some nid) ->
    nid <> "" ->
    ymap_get blocks nid = Some (YMap note) ->
    ymap_get note "sys:children" = Some (YArray kids) ->
    ymap_get blocks paraId = None ->
    exists (u : update) (st2 : state) (d' : ydoc) (note' : ymap),
      appendText_update w opts t st0 = (Ok u, st2)
      /\ trace st2 = (trace st0 ++ [join; load])%list
      /\ applyUpdate u = Some d'
      /\ (exists para : yval,
            ymap_get (getMap d' "blocks") paraId = Some para
            /\ para = paragraph_block paraId (text opts)
            /\ flavour_of para = Some "affine:paragraph"
            /\ text_of para = Some (text opts)
            /\ children para = [])
      /\ ymap_get (getMap d' "blocks") nid = Some (YMap note')
      /\ ymap_get note' "sys:children" = Some (YArray (kids ++ [ystr paraId]))
      /\ (forall k : string,
            k <> "sys:children" -> ymap_get note' k = ymap_get note k)
      /\ (forall id : string,
            id <> paraId -> id <> nid ->
            ymap_get (getMap d' "blocks") id = ymap_get blocks id)
      /\ (forall name : string,
            name <> "blocks" -> getMap d' name = getMap d name)
      /\ (exists closing : list tevent,
            trace (snd (appendText w opts st))
            = (trace st2 ++ TEmit "space:push-doc-update" (pushed u) :: closing)%list
            /\ (closing = [] \/ closing = [TClose]))
      /\ fst (appendText w opts st) =
           match emit t (trace st2) "space:push-doc-update" (pushed u) with
           | Resolves ack =>
               match failure_text ack with
               | Some msg => Fail (ack_failure "space:push-doc-update" msg ack)
               | None => Ok {| accepted := accepted_of ack;
                               appended_timestamp := opt_prop ack "timestamp" |}
               end
           | Rejects e => Fail e
           | Silent => Hang
           end.
Proof.
  intros w opts st t v pulled b64 d nid note kids ro ws docId st0 join load paraId
         blocks pushed Huse Hjoin Htimer Hload Hsnap Hne Hbytes Happly Hnote Hnid Hget
         Hkids Hfresh.
  destruct (entered_counters ro st) as [Hdraws Hticks]. fold st0 in Hdraws, Hticks.
  assert (Hdiff : String.eqb paraId nid = false).
  { apply String.eqb_neq. intros Heq. rewrite Heq in Hfresh. congruence. }
  set (note' := ymap_set note "sys:children" (YArray (kids ++ [ystr paraId])%list)).
  set (blocks' := ymap_set (ymap_set blocks paraId (paragraph_block paraId (text opts)))
                    nid (YMap note')).
  set (d' := setMap d "blocks" blocks').
  set (st2 := {| trace := (trace st0 ++ [join; load])%list;
                 draws := (draws st + 6)%nat; ticks := S (ticks st) |}).
  assert (Happend : append_paragraph blocks nid paraId (text opts) = Some blocks').
  { unfold append_paragraph. cbv zeta.
    rewrite ymap_get_set, Hdiff, Hget. cbn [yval_truthy negb].
    rewrite ymap_get_set, Hdiff, Hget, Hkids. reflexivity. }
  assert (Hupd : appendText_update w opts t st0 = (Ok (encodeStateAsUpdate d'), st2)).
  { unfold appendText_update, bind. rewrite joinWorkspace_run.
    fold ro ws docId. rewrite Hjoin. fold join.
    rewrite (pull_document_pulled w t ws docId (record join st0) pulled b64 d Htimer
               Hload Hsnap Hne Hbytes Happly).
    cbn [fst snd note_to_extend]. fold blocks. rewrite Hnote. unfold ret at 1.
    replace (String.eqb nid "") with false
      by (symmetry; apply String.eqb_neq; exact Hnid).
    unfold Date_now, randId. cbn [record trace draws ticks].
    rewrite Hticks, Hdraws. fold paraId. rewrite Happend. unfold ret.
    unfold st2, d'. rewrite <- app_assoc. reflexivity. }
  exists (encodeStateAsUpdate d'), st2, d', note'.
  split; [exact Hupd|]. split; [reflexivity|]. split; [apply apply_encode|].
  assert (Hblocks : getMap d' "blocks" = blocks')
    by (unfold d'; rewrite getMap_setMap, String.eqb_refl; reflexivity).
  rewrite Hblocks. unfold blocks'.
  split.
  { exists (paragraph_block paraId (text opts)).
    split; [|split; [reflexivity | apply paragraph_block_fields]].
    rewrite !ymap_get_set, String.eqb_refl.
    rewrite (String.eqb_sym nid paraId), Hdiff. reflexivity. }
  split; [rewrite ymap_get_set, String.eqb_refl; reflexivity|].
  split; [unfold note'; rewrite ymap_get_set, String.eqb_refl; reflexivity|].
  split.
  { intros k Hk. unfold note'. rewrite ymap_get_set.
    replace (String.eqb "sys:children" k) with false
      by (symmetry; apply String.eqb_neq; congruence). reflexivity. }
  split.
  { intros id Hp Hn. rewrite !ymap_get_set.
    replace (String.eqb nid id) with false
      by (symmetry; apply String.eqb_neq; congruence).
    replace (String.eqb paraId id) with false
      by (symmetry; apply String.eqb_neq; congruence). reflexivity. }
  split.
  { intros name Hname. unfold d'. rewrite getMap_setMap.
    replace (String.eqb "blocks" name) with false
      by (symmetry; apply String.eqb_neq; congruence). reflexivity. }
  destruct (guarded_trace w ro (appendText_try w opts) t st Huse)
    as [Hres (closing & Htr & Hclosing)].
  change (guarded w ro (appendText_try w opts) st) with (appendText w opts st)
    in Hres, Htr.
  fold st0 in Hres, Htr.
  rewrite (appendText_try_after_update w opts t st0 st2 _ Hupd) in Hres, Htr.
  cbn [fst snd] in Hres, Htr. fold ro ws docId in Hres, Htr.
  rewrite push_payload_fields in Hres, Htr.
  split; [|exact Hres].
  exists closing. split; [|exact Hclosing].
  rewrite Htr. cbn [record trace]. rewrite <- app_assoc. reflexivity.
Qed.

(** X28.  When the snapshot that [appendText] pulled replays to a
    document in which no note is found under a page, the operation
    throws [append failed: could not locate note block under page] and
    pushes nothing: after the join and the pull it emits no event. *)
Theorem appendText_without_note_pushes_nothing :
  forall (w : world) (opts : AppendTextOptions) (st : state)
         (t : RealtimeTransport) (v pulled : jsval) (b64 : string) (d : ydoc),
    let ro := append_base opts in
    let ws := workspaceId ro in
    let docId := append_docId opts in
    let st0 := entered ro st in
    let join := TEmit "space:join" (join_payload ws (version_of ro)) in
    let load := TEmit "space:load-doc" (JObj (doc_payload ws docId)) in
    transport_in_use w ro = Some t ->
    emit t (trace st0) "space:join" (join_payload ws (version_of ro)) = Resolves v ->
    pull_timer_first w = false ->
    emit t (trace st0 ++ [join])%list "space:load-doc" (JObj (doc_payload ws docId))
      = Resolves pulled ->
    snapshot_of pulled = Some b64 ->
    b64 <> "" ->
    byteLength (fromBase64 b64) <> 0%nat ->
    applyUpdate (fromBase64 b64) = Some d ->
    locate_note (getMap d "blocks") = Some None ->
    fst (appendText w opts st)
    = Fail (JsError "append failed: could not locate note block under page" None)
    /\ exists closing,
         trace (snd (appendText w opts st))
         = (trace st0 ++ [join; load] ++ closing)%list
         /\ (closing = [] \/ closing = [TClose]).
Proof.
  intros w opts st t v pulled b64 d ro ws docId st0 join load
         Huse Hjoin Htimer Hload Hsnap Hne Hbytes Happly Hnote.
  assert (Hupd : appendText_update w opts t st0
                 = (Fail (JsError "append failed: could not locate note block under page"
                            None),
                    record load (record join st0))).
  { unfold appendText_update, bind. rewrite joinWorkspace_run.
    fold ro ws docId. rewrite Hjoin. fold join.
    rewrite (pull_document_pulled w t ws docId (record join st0) pulled b64 d Htimer
               Hload Hsnap Hne Hbytes Happly).
    cbn [fst snd note_to_extend]. rewrite Hnote. reflexivity. }
  destruct (guarded_trace w ro (appendText_try w opts) t st Huse)
    as [Hres (closing & Htr & Hclosing)].
  change (guarded w ro (appendText_try w opts) st) with (appendText w opts st)
    in Hres, Htr.
  fold st0 in Hres, Htr.
  unfold appendText_try, bind in Hres, Htr. rewrite Hupd in Hres, Htr.
  cbn [fst snd] in Hres, Htr. split; [exact Hres|].
  exists closing. split; [|exact Hclosing].
  rewrite Htr. cbn [record trace]. rewrite <- !app_assoc. reflexivity.
Qed.

End RealtimeDocuments.

Lemma createDoc_pushes_the_scaffold_witness :
  exists (u : Yjs.update (YjsLib := RefYjs.yjs)) (d : Yjs.ydoc),
    fst (Yjs.createDoc_update (Y := RefYjs.yjs) sample_world
           (create_with (supplied quiet_transport)) quiet_transport Yjs.init)
    = Yjs.Ok ("aaaaaaaaaaaaaaaaaaaa", u)
    /\ Yjs.applyUpdate u = Some d
    /\ Yjs.locate_note (Yjs.getMap d "blocks") = Some (Some "note:aaaaaaaaaaaaaaaaaaaa").
Proof.
  destruct (createDoc_pushes_the_scaffold (J := RefJson.json) (Y := RefYjs.yjs)
              sample_world (create_with (supplied quiet_transport)) Yjs.init
              quiet_transport (Js.JObj [("accepted", Js.JBool true)])
              eq_refl eq_refl)
    as (u & st1 & d & page & note & Hupd & _ & Happly & _ & _ & _ & _ & _ & _ & Hnote & _).
  exists u, d. split; [exact (f_equal fst Hupd)|]. split; assumption.
Defined.

Lemma appendText_extends_the_pulled_note_witness :
  fst (Yjs.appendText (J := RefJson.json) (Y := RefYjs.holding stored_page) sample_world
         (append_with (supplied (answering "space:load-doc" snapshot_reply)))
         Yjs.init)
    = Yjs.Ok {| Yjs.accepted := true; Yjs.appended_timestamp := Js.JNum 42 |}.
Proof.
  set (t := answering "space:load-doc" snapshot_reply).
  destruct (appendText_extends_the_pulled_note
              (J := RefJson.json) (Y := RefYjs.holding stored_page)
              sample_world (append_with (supplied t)) Yjs.init t
              (Js.JObj [("accepted", Js.JBool true); ("timestamp", Js.JNum 42)])
              (Js.JObj [("missing", Js.JStr "c25hcHNob3Q=")]) "c25hcHNob3Q="
              stored_page "note:doc-1"
              [("sys:id", Yjs.ystr "note:doc-1");
               ("sys:flavour", Yjs.ystr "affine:note");
               ("sys:version", Yjs.YPrim (Js.JNum 1));
               ("sys:children", Yjs.YArray [Yjs.ystr "p:first"]);
               ("prop:xywh", Yjs.ystr "[0,0,600,400]")]
              [Yjs.ystr "p:first"]
              eq_refl eq_refl eq_refl eq_refl eq_refl
              ltac:(discriminate) ltac:(discriminate) eq_refl eq_refl
              ltac:(discriminate) eq_refl eq_refl eq_refl)
    as (u & st2 & d' & note' & _ & _ & _ & _ & _ & _ & _ & _ & _ & _ & Hres).
  rewrite Hres. reflexivity.
Defined.

Lemma appendText_without_note_pushes_nothing_witness :
  fst (Yjs.appendText (J := RefJson.json) (Y := RefYjs.holding stored_paragraph)
         sample_world
         (append_with (supplied (answering "space:load-doc" snapshot_reply)))
         Yjs.init)
    = Yjs.Fail (Yjs.JsError "append failed: could not locate note block under page" None).
Proof.
  set (t := answering "space:load-doc" snapshot_reply).
  exact (proj1 (appendText_without_note_pushes_nothing
              (J := RefJson.json) (Y := RefYjs.holding stored_paragraph)
              sample_world (append_with (supplied t)) Yjs.init t
              (Js.JObj [("accepted", Js.JBool true); ("timestamp", Js.JNum 42)])
              (Js.JObj [("missing", Js.JStr "c25hcHNob3Q=")]) "c25hcHNob3Q="
              stored_paragraph
              eq_refl eq_refl eq_refl eq_refl eq_refl
              ltac:(discriminate) ltac:(discriminate) eq_refl eq_refl)).
Defined.

(* ================================================================== *)
(** * The catalog of the workspace root document *)
(* ================================================================== *)

Section RealtimeCatalog.
Import Js Yjs.
Context {Y : YjsLib}.

Lemma load_root_snapshot_run (t : RealtimeTransport) (ws : string) (st : state)
    (res : jsval) (b64 : string) :
  emit t (trace st) "space:load-doc" (JObj (doc_payload ws ws)) = Resolves res ->
  root_snapshot res b64 ->
  load_root_snapshot t ws st
  = (Ok (Some (JStr b64)),
     record (TEmit "space:load-doc" (JObj (doc_payload ws ws))) st).
Proof.
  intros Hemit (Htruthy & Hobj & Herr & _ & Hsnap).
  unfold load_root_snapshot, try_catch, bind, do_emit. rewrite Hemit. cbn [settle].
  rewrite Htruthy, Hobj, Herr, Hsnap. reflexivity.
Qed.

Lemma listed_app (docId : string) (l l' : list yval) :
  listed docId (l ++ l') = listed docId l || listed docId l'.
Proof. unfold listed. apply existsb_app. Qed.

Lemma listed_doc_meta (docId : string) (title : option string) (created : Z) :
  docId <> "" -> listed docId [doc_meta docId title created] = true.
Proof.
  intros Hne. unfold listed, doc_meta, entry_id, ystr. cbn [existsb ymap_get].
  cbn [String.eqb Ascii.eqb Bool.eqb truthy].
  replace (String.eqb docId "") with false by (symmetry; apply String.eqb_neq; exact Hne).
  cbn [negb is_this_id]. rewrite String.eqb_refl. reflexivity.
Qed.

(** The root document with the entry of [docId] added to its catalog. *)
Lemma append_entry_fresh (w : world) (t : RealtimeTransport) (ws docId : string)
    (title : option string) (b64 : string) (rootDoc : ydoc) (st : state) :
  byteLength (fromBase64 b64) <> 0%nat ->
  applyUpdate (fromBase64 b64) = Some rootDoc ->
  listed docId (catalog rootDoc) = false ->
  exists rootDoc' : ydoc,
    append_entry w t ws docId title (JStr b64) st
    = (match emit t (trace st) "space:push-doc-update"
               (push_payload ws ws (encodeStateAsUpdate rootDoc')) with
       | Resolves _ => Ok tt
       | Rejects e => Fail e
       | Silent => Hang
       end,
       record (TEmit "space:push-doc-update"
                 (push_payload ws ws (encodeStateAsUpdate rootDoc')))
         {| trace := trace st; draws := draws st; ticks := S (ticks st) |})
    /\ catalog rootDoc'
       = (catalog rootDoc ++ [doc_meta docId title (now w (ticks st))])%list
    /\ (forall name : string,
          name <> "meta" -> getMap rootDoc' name = getMap rootDoc name)
    /\ (forall k : string,
          k <> "pages" ->
          ymap_get (getMap rootDoc' "meta") k = ymap_get (getMap rootDoc "meta") k).
Proof.
  intros Hbytes Happly Hfresh.
  assert (Hzero : (byteLength (fromBase64 b64) =? 0)%nat = false)
    by (apply Nat.eqb_neq; exact Hbytes).
  assert (Hother : forall (m : ymap) (v : yval) (k : string),
             k <> "pages" -> ymap_get (ymap_set m "pages" v) k = ymap_get m k).
  { intros m v k Hk. rewrite ymap_get_set.
    replace (String.eqb "pages" k) with false
      by (symmetry; apply String.eqb_neq; congruence). reflexivity. }
  assert (Hmaps : forall (m : ymap) (name : string),
             name <> "meta" -> getMap (setMap rootDoc "meta" m) name = getMap rootDoc name).
  { intros m name Hname. rewrite getMap_setMap.
    replace (String.eqb "meta" name) with false
      by (symmetry; apply String.eqb_neq; congruence). reflexivity. }
  unfold append_entry. rewrite Hzero, Happly. unfold listed, catalog in *.
  destruct (ymap_get (getMap rootDoc "meta") "pages") as [[p|tx|l|m]|] eqn:Epages;
    rewrite Hfresh; unfold bind, Date_now, do_emit, ret;
    cbn [record trace draws ticks];
    (match goal with |- context [encodeStateAsUpdate ?d] => exists d end; split;
     [destruct (emit _ _ _ _); reflexivity|];
     split; [rewrite getMap_setMap, String.eqb_refl, ymap_get_set, String.eqb_refl;
             reflexivity|];
     split; [apply Hmaps|];
     intros k Hk; rewrite getMap_setMap, String.eqb_refl, ?Hother by exact Hk;
     reflexivity).
Qed.

(** X29.  When the load of the workspace root document brings a snapshot
    that replays, [appendDocMetaToWorkspaceRoot] adds the entry of a
    document once.  For an id that the catalog lists already it emits
    nothing after the load and does not read the clock.  Otherwise it
    emits one [space:push-doc-update] for the root document with the
    base64 text of an update, which replays to the root document with
    the entry of the document (its id, its title or the empty text, the
    time of the clock and no tags) appended after the entries that the
    catalog had and everything else as it was loaded; the id, when it is
    not empty, is then listed, so that a further run on that state adds
    nothing.  A push that is rejected is swallowed; the acknowledgement
    of the push is not examined. *)
Theorem catalog_lists_a_document_once :
  forall (w : world) (t : RealtimeTransport) (ws docId : string)
         (title : option string) (st : state) (res : jsval) (b64 : string)
         (rootDoc : ydoc),
    let load := TEmit "space:load-doc" (JObj (doc_payload ws ws)) in
    let run := appendDocMetaToWorkspaceRoot w t ws docId title st in
    emit t (trace st) "space:load-doc" (JObj (doc_payload ws ws)) = Resolves res ->
    root_snapshot res b64 ->
    byteLength (fromBase64 b64) <> 0%nat ->
    applyUpdate (fromBase64 b64) = Some rootDoc ->
    (listed docId (catalog rootDoc) = true -> run = (Ok tt, record load st))
    /\ (listed docId (catalog rootDoc) = false ->
        exists (u : update) (rootDoc' : ydoc) (entry : yval),
          let payload := JObj [("spaceType", JStr "workspace");
                               ("spaceId", JStr ws);
                               ("docId", JStr ws);
                               ("update", JStr (toBase64 u))] in
          let push := TEmit "space:push-doc-update" payload in
          trace (snd run) = (trace st ++ [load; push])%list
          /\ fst run
             = match emit t (trace st ++ [load])%list "space:push-doc-update"
                       payload with
               | Silent => Hang
               | _ => Ok tt
               end
          /\ applyUpdate u = Some rootDoc'
          /\ catalog rootDoc' = (catalog rootDoc ++ [entry])%list
          /\ entry = doc_meta docId title (now w (ticks st))
          /\ entry_field entry "id" = Some (ystr docId)
          /\ entry_field entry "title"
             = Some (ystr (match title with Some s => s | None => "" end))
          /\ entry_field entry "createDate" = Some (YPrim (JNum (now w (ticks st))))
          /\ entry_field entry "tags" = Some (YArray [])
          /\ (docId <> "" -> listed docId (catalog rootDoc') = true)
          /\ (forall name : string,
                name <> "meta" -> getMap rootDoc' name = getMap rootDoc name)
          /\ (forall k : string,
                k <> "pages" ->
                ymap_get (getMap rootDoc' "meta") k
                = ymap_get (getMap rootDoc "meta") k)).
Proof.
  intros w t ws docId title st res b64 rootDoc load run Hemit Hsnap Hbytes Happly.
  assert (Hne : b64 <> "") by (destruct Hsnap as (_ & _ & _ & H & _); exact H).
  assert (Hrun : run = try_catch (append_entry w t ws docId title (JStr b64))
                         (fun _ => ret tt) (record load st)).
  { unfold run, appendDocMetaToWorkspaceRoot, bind.
    rewrite (load_root_snapshot_run t ws st res b64 Hemit Hsnap).
    cbn [truthy]. replace (String.eqb b64 "") with false
      by (symmetry; apply String.eqb_neq; exact Hne).
    reflexivity. }
  split.
  - intros Hlisted. rewrite Hrun. unfold try_catch, append_entry.
    replace (byteLength (fromBase64 b64) =? 0)%nat with false
      by (symmetry; apply Nat.eqb_neq; exact Hbytes).
    rewrite Happly. unfold catalog, listed in Hlisted.
    destruct (ymap_get (getMap rootDoc "meta") "pages") as [[p|tx|l|m]|];
      try discriminate Hlisted.
    rewrite Hlisted. reflexivity.
  - intros Hfresh.
    destruct (append_entry_fresh w t ws docId title b64 rootDoc (record load st)
                Hbytes Happly Hfresh) as (rootDoc' & Hentry & Hcat & Hmaps & Hmeta).
    exists (encodeStateAsUpdate rootDoc'), rootDoc',
      (doc_meta docId title (now w (ticks st))). cbv zeta.
    rewrite Hrun. unfold try_catch. rewrite Hentry. cbn [record trace ticks] in *.
    rewrite push_payload_fields.
    split; [destruct (emit t (trace st ++ [load])%list "space:push-doc-update" _);
            cbn [snd trace ret record]; rewrite <- app_assoc; reflexivity|].
    split; [destruct (emit t (trace st ++ [load])%list "space:push-doc-update" _);
            reflexivity|].
    split; [apply apply_encode|].
    split; [exact Hcat|].
    split; [reflexivity|].
    split; [reflexivity|].
    split; [reflexivity|].
    split; [reflexivity|].
    split; [reflexivity|].
    split; [|split; [exact Hmaps | exact Hmeta]].
    intros Hid. rewrite Hcat, listed_app, (listed_doc_meta docId title _ Hid).
    apply orb_true_r.
Qed.

End RealtimeCatalog.

Lemma catalog_lists_a_document_once_witness :
  Yjs.appendDocMetaToWorkspaceRoot (Y := RefYjs.holding stored_root) sample_world
    (answering "space:load-doc" snapshot_reply) "ws-1" "doc-0" (Some "Older page")
    Yjs.init
  = (Yjs.Ok tt,
     Yjs.record (Yjs.TEmit "space:load-doc" (Js.JObj (Yjs.doc_payload "ws-1" "ws-1")))
       Yjs.init)
  /\ exists (u : Yjs.update (YjsLib := RefYjs.holding stored_root))
            (rootDoc' : Yjs.ydoc),
       Yjs.trace (snd (Yjs.appendDocMetaToWorkspaceRoot
                         (Y := RefYjs.holding stored_root) sample_world
                         (answering "space:load-doc" snapshot_reply) "ws-1" "doc-1"
                         (Some "Test Page") Yjs.init))
       = [Yjs.TEmit "space:load-doc" (Js.JObj (Yjs.doc_payload "ws-1" "ws-1"));
          Yjs.TEmit "space:push-doc-update"
            (Js.JObj [("spaceType", Js.JStr "workspace");
                      ("spaceId", Js.JStr "ws-1");
                      ("docId", Js.JStr "ws-1");
                      ("update", Js.JStr (Yjs.toBase64 u))])]
       /\ Yjs.applyUpdate u = Some rootDoc'
       /\ catalog rootDoc'
          = [Yjs.doc_meta "doc-0" (Some "Older page") 1600000000000;
             Yjs.doc_meta "doc-1" (Some "Test Page") 1700000000000].
Proof.
  assert (Hsnap : root_snapshot (Js.JObj [("missing", Js.JStr "c25hcHNob3Q=")])
                    "c25hcHNob3Q=").
  { unfold root_snapshot. repeat split; try reflexivity. discriminate. }
  assert (Hbytes : Yjs.byteLength (YjsLib := RefYjs.holding stored_root)
                     (Yjs.fromBase64 "c25hcHNob3Q=") <> 0%nat)
    by (vm_compute; discriminate).
  split.
  - exact (proj1 (catalog_lists_a_document_once
                    (Y := RefYjs.holding stored_root) sample_world
                    (answering "space:load-doc" snapshot_reply) "ws-1" "doc-0"
                    (Some "Older page") Yjs.init
                    (Js.JObj [("missing", Js.JStr "c25hcHNob3Q=")]) "c25hcHNob3Q="
                    stored_root eq_refl Hsnap Hbytes eq_refl) eq_refl).
  - destruct (proj2 (catalog_lists_a_document_once
                       (Y := RefYjs.holding stored_root) sample_world
                       (answering "space:load-doc" snapshot_reply) "ws-1" "doc-1"
                       (Some "Test Page") Yjs.init
                       (Js.JObj [("missing", Js.JStr "c25hcHNob3Q=")]) "c25hcHNob3Q="
                       stored_root eq_refl Hsnap Hbytes eq_refl) eq_refl)
      as (u & rootDoc' & entry & Htr & _ & Happly & Hcat & Hentry & _).
    exists u, rootDoc'. split; [exact Htr|]. split; [exact Happly|].
    rewrite Hcat, Hentry. reflexivity.
Defined.



(* ================================================================== *)
(** * The order of the realtime protocol *)
(* ================================================================== *)

Section RealtimeProtocol.
Import Js Yjs.
Context {J : JsonLib} {Y : YjsLib}.

Lemma after_join_start {A} (t : RealtimeTransport) (ws ver : string) (k : M A) :
  emits_only k -> after_join t ws ver (joinWorkspace t ws ver ;;; k).
Proof.
  intros Hk st. cbv zeta. unfold bind. rewrite joinWorkspace_run.
  destruct (emit t (trace st) "space:join" (join_payload ws ver)) as [v|e|];
    [|reflexivity|reflexivity].
  destruct (Hk (record (TEmit "space:join" (join_payload ws ver)) st)) as (es & Hes & _).
  exists es. rewrite Hes. cbn [record trace]. rewrite <- app_assoc. reflexivity.
Qed.

Lemma after_join_bind {A B} (t : RealtimeTransport) (ws ver : string)
    (m : M A) (k : A -> M B) :
  after_join t ws ver m -> (forall a, emits_only (k a)) ->
  after_join t ws ver (bind m k).
Proof.
  intros Hm Hk st. specialize (Hm st). cbv zeta in *. unfold bind.
  destruct (emit t (trace st) "space:join" (join_payload ws ver)) as [v|e|].
  - destruct Hm as (es & Hes).
    destruct (m st) as [[a|e|] st1]; cbn [snd] in Hes.
    + destruct (Hk a st1) as (es' & Hes' & _). exists (es ++ es')%list.
      rewrite Hes', Hes, <- app_assoc. reflexivity.
    + exists es. exact Hes.
    + exists es. exact Hes.
  - rewrite Hm. reflexivity.
  - rewrite Hm. reflexivity.
Qed.

Lemma guarded_closing {A} (w : world) (ro : RealtimeOptions)
    (body : RealtimeTransport -> M A) (t : RealtimeTransport) (st : state) :
  transport_in_use w ro = Some t ->
  fst (guarded w ro body st) = fst (body t (entered ro st))
  /\ trace (snd (guarded w ro body st)) =
       (trace (snd (body t (entered ro st)))
        ++ closing_of ro (fst (body t (entered ro st))))%list.
Proof.
  unfold transport_in_use, guarded, ensureTransport, entered, needClose, bind,
    closing_of.
  destruct (transport ro) as [t'|].
  - intros Ht. injection Ht as ->. unfold ret, finally, close_if.
    destruct (body t st) as [[a|e|] st1]; cbn [fst snd];
      (split; [reflexivity | rewrite app_nil_r; reflexivity]).
  - destruct (connect (socket w)) as [u|e]; [|discriminate].
    intros Ht. injection Ht as <-. unfold finally, close_if, do_close.
    destruct (body (socket w) (record TConnect st)) as [[a|e|] st1]; cbn [fst snd];
      (split; [reflexivity|]); try reflexivity.
    rewrite app_nil_r. reflexivity.
Qed.

Lemma guarded_joins_first {A} (w : world) (ro : RealtimeOptions)
    (body : RealtimeTransport -> M A) (t : RealtimeTransport) (st : state) :
  after_join t (workspaceId ro) (version_of ro) (body t) ->
  transport_in_use w ro = Some t ->
  joins_first t ro st (guarded w ro body st).
Proof.
  intros Hbody Huse. destruct (guarded_closing w ro body t st Huse) as [Hres Htr].
  specialize (Hbody (entered ro st)). cbv zeta in Hbody.
  unfold joins_first. cbv zeta. rewrite Hres, Htr. unfold join_event.
  destruct (emit t (trace (entered ro st)) "space:join"
              (join_payload (workspaceId ro) (version_of ro))) as [v|e|].
  - destruct Hbody as (es & Hes). rewrite Hes.
    exists (es ++ closing_of ro (fst (body t (entered ro st))))%list.
    split; [rewrite <- app_assoc; reflexivity|].
    split; [intros e He; discriminate He | intros He; discriminate He].
  - rewrite Hbody. cbn [fst snd record trace].
    exists (closing_of ro (Fail (A := A) e)).
    split; [rewrite <- app_assoc; reflexivity|].
    split; [|intros He; discriminate He].
    intros e' He. injection He as <-. split; reflexivity.
  - rewrite Hbody. cbn [fst snd record trace closing_of]. exists [].
    split; [rewrite app_nil_r; reflexivity|].
    split; [intros e He; discriminate He|]. intros _. split; reflexivity.
Qed.

Ltac only_emits :=
  repeat first
    [ solve [auto using emits_only_ret, emits_only_throw, emits_only_do_emit,
               emits_only_do_emit_withTimeout, emits_only_randId,
               emits_only_Date_now, emits_only_ensureAckOk,
               emits_only_appendDocMeta, emits_only_pull_document,
               emits_only_note_to_extend]
    | apply emits_only_bind; [|intros ?]
    | match goal with
      | |- emits_only (match ?x with _ => _ end) => destruct x
      | |- emits_only (if ?c then _ else _) => destruct c
      end ].

(** X30.  The three operations join the workspace before anything else:
    the first event that each of them emits on the transport in use is
    [space:join], with the workspace id and the client version of the
    options, [1.0.0] when none is given.  When the join is rejected the
    operation fails with that error, and when it is never answered the
    operation does not return; in both cases no other event is emitted. *)
Theorem operations_join_the_workspace_first :
  forall (w : world) (t : RealtimeTransport) (st : state),
    (forall opts : CreateDocOptions,
        transport_in_use w (create_base opts) = Some t ->
        joins_first t (create_base opts) st (createDoc w opts st))
    /\ (forall opts : AppendTextOptions,
          transport_in_use w (append_base opts) = Some t ->
          joins_first t (append_base opts) st (appendText w opts st))
    /\ (forall opts : DeleteDocRealtimeOptions,
          transport_in_use w (delete_base opts) = Some t ->
          joins_first t (delete_base opts) st (deleteDocRealtime w opts st))
    /\ (forall ro : RealtimeOptions,
          clientVersion ro = None ->
          join_event ro
          = TEmit "space:join"
              (JObj [("spaceType", JStr "workspace");
                     ("spaceId", JStr (workspaceId ro));
                     ("clientVersion", JStr "1.0.0")])).
Proof.
  intros w t st. split; [|split; [|split]].
  - intros opts.
    apply (guarded_joins_first w (create_base opts) (createDoc_try w opts) t st).
    unfold createDoc_try. apply after_join_bind.
    + unfold createDoc_update. apply after_join_start. only_emits.
    + intros built. only_emits.
  - intros opts.
    apply (guarded_joins_first w (append_base opts) (appendText_try w opts) t st).
    unfold appendText_try. apply after_join_bind.
    + unfold appendText_update. apply after_join_start. only_emits.
    + intros u. only_emits.
  - intros opts.
    apply (guarded_joins_first w (delete_base opts)
             (fun t => deleteDocRealtime_try opts t) t st).
    unfold deleteDocRealtime_try. apply after_join_start. only_emits.
  - intros ro Hv. unfold join_event, join_payload, version_of. rewrite Hv. reflexivity.
Qed.

End RealtimeProtocol.
